(** * memguard/core: guarded buffers and the registry of live buffers

    A shallow embedding of [core/buffer.go].  A Go [*Buffer] is an index into
    a store of Buffer objects, a [[]byte] is a (possibly nil) view into a
    mapped region, and the operating system is an oracle that is asked at
    every system call whether the call succeeds.

    Calls are taken one at a time: the mutexes of Buffer and BufferList are
    not modelled.  Protection and locking of pages are recorded as calls
    made to the operating system, not as a state that reads and writes are
    checked against. *)

From Stdlib Require Import ZArith List Lia Bool String Strings.Byte.
From stdpp Require Import base option list gmap.

Local Open Scope Z_scope.

(** ** Go's [int] on a 64-bit platform: two's complement, wrapping *)

Definition int_min : Z := - 2 ^ 63.
Definition int_max : Z := 2 ^ 63 - 1.

Definition is_int (z : Z) : Prop := int_min <= z <= int_max.

Definition wrap_int (z : Z) : Z := (z + 2 ^ 63) mod 2 ^ 64 - 2 ^ 63.

Definition int_add (a b : Z) : Z := wrap_int (a + b).
Definition int_sub (a b : Z) : Z := wrap_int (a - b).
Definition int_mul (a b : Z) : Z := wrap_int (a * b).

(** ** Byte views *)

(** A non-nil [[]byte]: the region it points into, the offset of its first
    byte in that region and its length. *)
Record Span : Type := mkSpan {
  sp_region : nat;
  sp_off : Z;
  sp_len : Z
}.

(** [[]byte]; [None] is the nil slice. *)
Definition Slice : Type := option Span.

(** [*byte] *)
Record Ptr : Type := mkPtr {
  p_region : nat;
  p_off : Z
}.

Definition slice_len (s : Slice) : Z :=
  match s with
  | None => 0
  | Some sp => sp_len sp
  end.

#[global] Instance byte_eq_dec : EqDecision byte := Byte.byte_eq_dec.
#[global] Instance Span_eq_dec : EqDecision Span.
Proof. solve_decision. Defined.

(** ** The Buffer object (buffer.go, lines 22-37) *)

Record Buffer : Type := mkBuffer {
  alive : bool;
  mutable : bool;
  Data : Slice;
  memory : Slice;
  preguard : Slice;
  inner : Slice;
  postguard : Slice;
  canaryval : Slice;
  canaryref : Slice
}.

(** What [new(Buffer)] yields: every field at its zero value. *)
Definition zero_Buffer : Buffer :=
  mkBuffer false false None None None None None None None.

Definition set_alive (v : bool) (r : Buffer) : Buffer :=
  mkBuffer v (mutable r) (Data r) (memory r) (preguard r) (inner r)
           (postguard r) (canaryval r) (canaryref r).
Definition set_mutable (v : bool) (r : Buffer) : Buffer :=
  mkBuffer (alive r) v (Data r) (memory r) (preguard r) (inner r)
           (postguard r) (canaryval r) (canaryref r).
Definition set_Data (v : Slice) (r : Buffer) : Buffer :=
  mkBuffer (alive r) (mutable r) v (memory r) (preguard r) (inner r)
           (postguard r) (canaryval r) (canaryref r).
Definition set_memory (v : Slice) (r : Buffer) : Buffer :=
  mkBuffer (alive r) (mutable r) (Data r) v (preguard r) (inner r)
           (postguard r) (canaryval r) (canaryref r).
Definition set_preguard (v : Slice) (r : Buffer) : Buffer :=
  mkBuffer (alive r) (mutable r) (Data r) (memory r) v (inner r)
           (postguard r) (canaryval r) (canaryref r).
Definition set_inner (v : Slice) (r : Buffer) : Buffer :=
  mkBuffer (alive r) (mutable r) (Data r) (memory r) (preguard r) v
           (postguard r) (canaryval r) (canaryref r).
Definition set_postguard (v : Slice) (r : Buffer) : Buffer :=
  mkBuffer (alive r) (mutable r) (Data r) (memory r) (preguard r) (inner r)
           v (canaryval r) (canaryref r).
Definition set_canaryval (v : Slice) (r : Buffer) : Buffer :=
  mkBuffer (alive r) (mutable r) (Data r) (memory r) (preguard r) (inner r)
           (postguard r) v (canaryref r).
Definition set_canaryref (v : Slice) (r : Buffer) : Buffer :=
  mkBuffer (alive r) (mutable r) (Data r) (memory r) (preguard r) (inner r)
           (postguard r) (canaryval r) v.

(** buffer.go, lines 40-43 *)
Record BufferState : Type := mkBufferState {
  IsMutable : bool;
  IsDestroyed : bool
}.

(** [*Buffer]: the index of a Buffer object in the store. *)
Definition BufPtr : Type := nat.

(** ** Errors, system calls and what an observer of the process sees *)

(** The errors the package returns to its callers; they are declared
    outside buffer.go. *)
Inductive Error : Type :=
| ErrInvalidLength
| ErrDestroyed.

(** Modelled from the spec: the error values of memcall are not under
    src/.  Section 4.A names AllocFailed, ProtectFailed and LockFailed; a
    failed Unlock, Free or read of the random source gets a value of its
    own here. *)
Inductive OSError : Type :=
| AllocFailed
| ProtectFailed
| LockFailed
| UnlockFailed
| FreeFailed
| RandFailed.

Inductive Protection : Type :=
| NoAccess
| ReadOnly
| ReadWrite.

Inductive Syscall : Type :=
| SysAlloc (n : Z)
| SysProtect (s : Slice) (mode : Protection)
| SysLock (s : Slice)
| SysUnlock (s : Slice)
| SysFree (s : Slice)
| SysRand (n : Z).

(** The argument of [Panic]: an error value or a message. *)
Inductive PanicValue : Type :=
| PanicErr (e : OSError)
| PanicMsg (s : string).

Inductive Event : Type :=
| EvSys (c : Syscall) (ok : bool)
| EvWipe (s : Slice)
| EvHandler (v : PanicValue).

(** The operating system, seen from the process: given everything that has
    happened so far (newest event first) it accepts or refuses a call, and
    it supplies the bytes of the random source. *)
Record OS : Type := mkOS {
  os_accepts : list Event -> Syscall -> bool;
  os_random : list Event -> nat -> byte
}.

(** ** The state of the process *)

Record World : Type := mkWorld {
  heap : gmap nat (list byte);
  objs : gmap nat Buffer;
  buffers : list BufPtr;
  trace : list Event
}.

Definition set_heap (h : gmap nat (list byte)) (w : World) : World :=
  mkWorld h (objs w) (buffers w) (trace w).
Definition set_objs (o : gmap nat Buffer) (w : World) : World :=
  mkWorld (heap w) o (buffers w) (trace w).
Definition set_buffers (l : list BufPtr) (w : World) : World :=
  mkWorld (heap w) (objs w) l (trace w).
Definition log (e : Event) (w : World) : World :=
  mkWorld (heap w) (objs w) (buffers w) (e :: trace w).

(** The process right after package initialisation: [buffers] is a new,
    empty BufferList (line 12), nothing is mapped. *)
Definition init_World : World := mkWorld ∅ ∅ [] [].

(** ** Reading and writing mapped bytes *)

Definition in_bounds (sp : Span) (n : nat) : bool :=
  (0 <=? sp_off sp) && (0 <=? sp_len sp) && (sp_off sp + sp_len sp <=? Z.of_nat n).

Definition load (h : gmap nat (list byte)) (s : Slice) : option (list byte) :=
  match s with
  | None => Some []
  | Some sp =>
      match h !! sp_region sp with
      | Some bs =>
          if in_bounds sp (length bs)
          then Some (take (Z.to_nat (sp_len sp)) (drop (Z.to_nat (sp_off sp)) bs))
          else None
      | None => None
      end
  end.

Definition splice {A : Type} (bs : list A) (off : nat) (data : list A) : list A :=
  take off bs ++ data ++ drop (off + length data) bs.

(** Overwrite the first [length data] bytes of the view. *)
Definition store (h : gmap nat (list byte)) (s : Slice) (data : list byte)
  : option (gmap nat (list byte)) :=
  match s with
  | None => match data with [] => Some h | _ => None end
  | Some sp =>
      match h !! sp_region sp with
      | Some bs =>
          if in_bounds sp (length bs) && (Z.of_nat (length data) <=? sp_len sp)
          then Some (<[sp_region sp := splice bs (Z.to_nat (sp_off sp)) data]> h)
          else None
      | None => None
      end
  end.

Definition zeros (n : Z) : list byte := replicate (Z.to_nat n) x00.

(** ** Outcomes and the monad of operations *)

Inductive Outcome (A : Type) : Type :=
| Ret (a : A) (w : World)            (* the call returns *)
| Fatal (v : PanicValue) (w : World)  (* [Panic] ran: the handler was invoked *)
| Crash (w : World).                  (* Go run-time panic or memory fault *)

Arguments Ret {A} a w.
Arguments Fatal {A} v w.
Arguments Crash {A} w.

Definition M (A : Type) : Type := World -> Outcome A.

#[global] Instance M_ret : MRet M := fun A a w => Ret a w.
#[global] Instance M_bind : MBind M := fun A B f m w =>
  match m w with
  | Ret a w' => f a w'
  | Fatal v w' => Fatal v w'
  | Crash w' => Crash w'
  end.

Definition crash {A : Type} : M A := fun w => Crash w.
Definition get_world : M World := fun w => Ret w w.
Definition put_world (w' : World) : M unit := fun _ => Ret tt w'.
Definition modify_world (f : World -> World) : M unit := fun w => Ret tt (f w).

(** [*b]: a pointer that is nil or dangling cannot be dereferenced. *)
Definition deref (b : BufPtr) : M Buffer := fun w =>
  match objs w !! b with
  | Some r => Ret r w
  | None => Crash w
  end.

(** [b.f = v] *)
Definition assign (b : BufPtr) (f : Buffer -> Buffer) : M unit :=
  r ← deref b;
  modify_world (fun w => set_objs (<[b := f r]> (objs w)) w).

(** [new(Buffer)] *)
Definition new_Buffer : M BufPtr := fun w =>
  let b := fresh (dom (objs w)) in
  Ret b (set_objs (<[b := zero_Buffer]> (objs w)) w).

(** [&s[i]], with Go's bounds check. *)
Definition elem_addr (s : Slice) (i : Z) : M Ptr :=
  match s with
  | Some sp =>
      if (0 <=? i) && (i <? sp_len sp)
      then mret (mkPtr (sp_region sp) (sp_off sp + i))
      else crash
  | None => crash
  end.

(** A fault: the bytes of a view are read or written where nothing is mapped. *)
Definition read_bytes (s : Slice) : M (list byte) := fun w =>
  match load (heap w) s with
  | Some bs => Ret bs w
  | None => Crash w
  end.

Definition write_bytes (s : Slice) (data : list byte) : M unit := fun w =>
  match store (heap w) s data with
  | Some h => Ret tt (set_heap h w)
  | None => Crash w
  end.

(** ** BufferList (buffer.go, lines 217-269), on the value of [l.list] *)

(** Add appends a given Buffer to the list (lines 224-229). *)
Definition BufferList_Add (b : BufPtr) : M unit :=
  modify_world (fun w => set_buffers (buffers w ++ [b]) w).

(** The loop of Remove: the first element equal to [b] is cut out, then
    [break]. *)
Fixpoint remove_first (b : BufPtr) (l : list BufPtr) : list BufPtr :=
  match l with
  | [] => []
  | v :: t => if decide (v = b) then t else v :: remove_first b t
  end.

(** Remove removes a given Buffer from the list (lines 232-242). *)
Definition BufferList_Remove (b : BufPtr) : M unit :=
  modify_world (fun w => set_buffers (remove_first b (buffers w)) w).

(** The loop of Exists. *)
Fixpoint exists_in (b : BufPtr) (l : list BufPtr) : bool :=
  match l with
  | [] => false
  | v :: t => if decide (b = v) then true else exists_in b t
  end.

(** Exists checks if a given buffer is in the list (lines 245-256). *)
Definition BufferList_Exists (b : BufPtr) : M bool :=
  w ← get_world; mret (exists_in b (buffers w)).

(** Empty clears the list and returns its previous contents (lines 259-269). *)
Definition BufferList_Empty : M (list BufPtr) :=
  w ← get_world;
  let list := buffers w in
  modify_world (set_buffers []);;
  mret list.

(** ** The collaborators of buffer.go *)

(** Modelled from the spec: crypto.Equal is not under src/.  Section 4.B:
    fixed-time equality of two byte views; only the result is modelled. *)
Definition crypto_Equal (a b : Slice) : M bool :=
  x ← read_bytes a;
  y ← read_bytes b;
  mret (bool_decide (x = y)).

(** Modelled from the spec: crypto.Copy is not under src/.  Section 4.B:
    copies min(len(dst), len(src)) bytes. *)
Definition crypto_Copy (dst src : Slice) : M unit :=
  x ← read_bytes src;
  write_bytes dst (take (Z.to_nat (Z.min (slice_len dst) (slice_len src))) x).

(** Modelled from the spec: crypto.MemClr is not under src/.  Section 4.B
    (Wipe): overwrites every byte of the view with zero. *)
Definition crypto_MemClr (s : Slice) : M unit :=
  write_bytes s (zeros (slice_len s));;
  modify_world (log (EvWipe s)).

(** Modelled from the spec: getBytes is not under src/.  Section 4.D derives
    the sub-spans of the allocation with it: the view of [n] bytes whose
    first byte is at [p]. *)
Definition getBytes (p : Ptr) (n : Z) : Slice :=
  Some (mkSpan (p_region p) (p_off p) n).

(** Modelled from the spec: roundUp(n, P) of sections 3 and 4.D, the least
    multiple of P that is not below n. *)
Definition roundUp (n P : Z) : Z := (n + P - 1) / P * P.

(** Modelled from the spec: the protection of the byte at offset [off] of
    region [rid], read off what has happened so far (newest event first).
    Section 4.A: allocated pages are read-write at first and an accepted
    Protect sets the mode of the pages of its span.  An accepted Free gives
    the region back, so that nothing set before it bears on a later mapping
    of the same name. *)
Fixpoint page_mode (t : list Event) (rid : nat) (off : Z) : Protection :=
  match t with
  | [] => ReadWrite
  | EvSys (SysProtect (Some sp) mode) true :: t' =>
      if bool_decide (sp_region sp = rid)
         && (sp_off sp <=? off) && (off <? sp_off sp + sp_len sp)
      then mode
      else page_mode t' rid off
  | EvSys (SysFree (Some sp)) true :: t' =>
      if bool_decide (sp_region sp = rid) then ReadWrite else page_mode t' rid off
  | _ :: t' => page_mode t' rid off
  end.

Definition is_ReadWrite (m : Protection) : bool :=
  match m with
  | ReadWrite => true
  | _ => false
  end.

(** The [n] bytes of region [rid] from offset [off] on may all be written. *)
Fixpoint all_writable (t : list Event) (rid : nat) (off : Z) (n : nat) : bool :=
  match n with
  | O => true
  | S n' => is_ReadWrite (page_mode t rid off) && all_writable t rid (off + 1) n'
  end.

(** Every byte of the view lies in a page that may be written: a store
    into it does not fault. *)
Definition writable (t : list Event) (s : Slice) : bool :=
  match s with
  | None => true
  | Some sp => all_writable t (sp_region sp) (sp_off sp) (Z.to_nat (sp_len sp))
  end.

(** Modelled from the spec: part of Panic, which is not under src/.  What
    Panic does to one registered buffer before the handler runs (sections
    4.F and 7, a best-effort wipe): its inner region is wiped if that is
    still possible, that is, if it is mapped and its pages may be written.
    The inner region of a frozen buffer is read-only (section 3): it is
    left as it is. *)
Definition wipe_inner (w : World) (b : BufPtr) : World :=
  match objs w !! b with
  | Some r =>
      if writable (trace w) (inner r) then
        match store (heap w) (inner r) (zeros (slice_len (inner r))) with
        | Some h => log (EvWipe (inner r)) (set_heap h w)
        | None => w
        end
      else w
  | None => w
  end.

(** Modelled from the spec: Panic is not under src/.  Sections 4.F and 7:
    the inner region of every registered buffer is wiped where it can be,
    then the panic handler is invoked with the value; control never
    returns. *)
Definition Panic {A : Type} (v : PanicValue) : M A := fun w =>
  Fatal v (log (EvHandler v) (foldl wipe_inner w (buffers w))).

Definition canary_message : string :=
  "<memguard::core::buffer> canary verification failed; buffer overflow detected".

Section Core.

(** [pageSize] is a package variable set from the operating system at
    start-up; it is not under src/. *)
Variable pageSize : Z.
Variable os : OS.

(** One call into the operating system: the oracle answers, the call and
    its result are recorded. *)
Definition syscall (c : Syscall) : M bool := fun w =>
  let ok := os_accepts os (trace w) c in
  Ret ok (log (EvSys c ok) w).

(** Modelled from the spec: roundToPageSize is not under src/.  Section 4.D:
    inner_len = roundUp(size + 32, P); the result is a Go int. *)
Definition roundToPageSize (n : Z) : Z := wrap_int (roundUp n pageSize).

(** Modelled from the spec: memcall.Alloc is not under src/.  Section 4.A:
    a span of length n, or AllocFailed on OS refusal.  A request of
    negative length is always refused; fresh pages read as zero. *)
Definition memcall_Alloc (n : Z) : M (Slice * option OSError) := fun w =>
  if (0 <=? n) && os_accepts os (trace w) (SysAlloc n) then
    let r := fresh (dom (heap w)) in
    Ret (Some (mkSpan r 0 n), None)
        (log (EvSys (SysAlloc n) true) (set_heap (<[r := zeros n]> (heap w)) w))
  else
    Ret (None, Some AllocFailed) (log (EvSys (SysAlloc n) false) w).

(** Modelled from the spec: memcall.Protect is not under src/.  Section 4.A:
    sets the protection of the span, or fails with ProtectFailed. *)
Definition memcall_Protect (s : Slice) (mode : Protection) : M (option OSError) :=
  ok ← syscall (SysProtect s mode);
  mret (if ok : bool then None else Some ProtectFailed).

(** Modelled from the spec: memcall.Lock is not under src/.  Section 4.A. *)
Definition memcall_Lock (s : Slice) : M (option OSError) :=
  ok ← syscall (SysLock s);
  mret (if ok : bool then None else Some LockFailed).

(** Modelled from the spec: memcall.Unlock is not under src/.  Section 4.A. *)
Definition memcall_Unlock (s : Slice) : M (option OSError) :=
  ok ← syscall (SysUnlock s);
  mret (if ok : bool then None else Some UnlockFailed).

Definition unmap (s : Slice) (w : World) : World :=
  set_heap (match s with
            | Some sp => delete (sp_region sp) (heap w)
            | None => heap w
            end) w.

(** Modelled from the spec: memcall.Free is not under src/.  Section 4.A:
    releases the pages of the span. *)
Definition memcall_Free (s : Slice) : M (option OSError) :=
  ok ← syscall (SysFree s);
  if ok : bool then modify_world (unmap s);; mret None
  else mret (Some FreeFailed).

(** [rand.Read] of the Go standard library: the view is filled with bytes of
    the random source, or the read fails. *)
Definition rand_Read (s : Slice) : M (option OSError) :=
  w ← get_world;
  ok ← syscall (SysRand (slice_len s));
  if ok : bool then
    write_bytes s (map (os_random os (trace w)) (seq 0 (Z.to_nat (slice_len s))));;
    mret None
  else mret (Some RandFailed).

(** [if err != nil { Panic(err) }] *)
Definition check (err : option OSError) : M unit :=
  match err with
  | Some e => Panic (PanicErr e)
  | None => mret tt
  end.

(** ** NewBuffer (buffer.go, lines 48-106) *)

(** Lines 56-99: everything NewBuffer does to the new object before it is
    handed to the registry. *)
Definition NewBuffer_construct (size : Z) : M BufPtr :=
  (* Declare and allocate *)
  b ← new_Buffer;
  (* Allocate the total needed memory *)
  let innerLen := roundToPageSize (int_add size 32) in
  '(mem, err) ← memcall_Alloc (int_add (int_mul 2 pageSize) innerLen);
  assign b (set_memory mem);;
  check err;;
  (* Construct slice reference for data buffer. *)
  r ← deref b;
  p ← elem_addr (memory r) (int_sub (int_add pageSize innerLen) size);
  assign b (set_Data (getBytes p size));;
  (* Construct slice references for page sectors. *)
  r ← deref b;
  p ← elem_addr (memory r) 0;
  assign b (set_preguard (getBytes p pageSize));;
  r ← deref b;
  p ← elem_addr (memory r) pageSize;
  assign b (set_inner (getBytes p innerLen));;
  r ← deref b;
  p ← elem_addr (memory r) (int_add pageSize innerLen);
  assign b (set_postguard (getBytes p pageSize));;
  (* Construct slice references for canary sectors. *)
  r ← deref b;
  p ← elem_addr (memory r) (int_sub pageSize 32);
  assign b (set_canaryref (getBytes p 32));;
  r ← deref b;
  p ← elem_addr (memory r) (int_sub (int_sub (int_add pageSize innerLen) size) 32);
  assign b (set_canaryval (getBytes p 32));;
  (* Lock the pages that will hold sensitive data. *)
  r ← deref b;
  err ← memcall_Lock (inner r);
  check err;;
  (* Populate the canary values with fresh random bytes. *)
  r ← deref b;
  err ← rand_Read (canaryref r);
  check err;;
  r ← deref b;
  crypto_Copy (canaryval r) (canaryref r);;
  (* Make the guard pages inaccessible. *)
  r ← deref b;
  err ← memcall_Protect (preguard r) NoAccess;
  check err;;
  r ← deref b;
  err ← memcall_Protect (postguard r) NoAccess;
  check err;;
  (* Set remaining properties *)
  assign b (set_alive true);;
  assign b (set_mutable true);;
  mret b.

Definition NewBuffer (size : Z) : M (option BufPtr * option Error) :=
  (* Return an error if length < 1. *)
  if size <? 1 then mret (None, Some ErrInvalidLength)
  else
    b ← NewBuffer_construct size;
    (* Append the container to list of active buffers. *)
    BufferList_Add b;;
    (* Return the created Buffer to the caller. *)
    mret (Some b, None).

(** ** GetBufferState (lines 111-115) *)
Definition GetBufferState (b : BufPtr) : M BufferState :=
  r ← deref b;
  mret (mkBufferState (mutable r) (negb (alive r))).

(** ** Freeze (lines 118-138) *)
Definition Freeze (b : BufPtr) : M (option Error) :=
  r ← deref b;
  (* Check if destroyed. *)
  if negb (alive r) then mret (Some ErrDestroyed)
  else
    (* Only do anything if currently mutable. *)
    (if mutable r then
       err ← memcall_Protect (inner r) ReadOnly;
       check err;;
       assign b (set_mutable false)
     else mret tt);;
    mret None.

(** ** Melt (lines 141-161) *)
Definition Melt (b : BufPtr) : M (option Error) :=
  r ← deref b;
  (* Check if destroyed. *)
  if negb (alive r) then mret (Some ErrDestroyed)
  else
    (* Only do anything if currently immutable. *)
    (if negb (mutable r) then
       err ← memcall_Protect (inner r) ReadWrite;
       check err;;
       assign b (set_mutable true)
     else mret tt);;
    mret None.

(** ** DestroyBuffer (lines 170-215) *)
Definition DestroyBuffer (b : BufPtr) : M unit :=
  r ← deref b;
  (* Return if it's already destroyed. *)
  if negb (alive r) then mret tt
  else
    (* Make all of the memory readable and writable. *)
    err ← memcall_Protect (memory r) ReadWrite;
    check err;;
    (* Verify the canary *)
    r ← deref b;
    same ← crypto_Equal (canaryval r) (canaryref r);
    (if negb same then Panic (PanicMsg canary_message) else mret tt);;
    (* Remove this one from global slice. *)
    BufferList_Remove b;;
    (* Wipe the memory. *)
    r ← deref b;
    crypto_MemClr (memory r);;
    (* Unlock the pages that hold our data. *)
    r ← deref b;
    err ← memcall_Unlock (inner r);
    check err;;
    (* Free all related memory. *)
    r ← deref b;
    err ← memcall_Free (memory r);
    check err;;
    (* Reset the fields. *)
    assign b (set_alive false);;
    assign b (set_mutable false);;
    assign b (set_Data None);;
    assign b (set_memory None);;
    assign b (set_preguard None);;
    assign b (set_postguard None);;
    assign b (set_canaryref None);;
    assign b (set_canaryval None).

End Core.

(** ** What a returning NewBuffer leaves behind *)

(** The fields of a buffer of [size] bytes built over region [rid], for page
    size [P] and inner length [L] (lines 61-76 and 98-99). *)
Definition layout (P L size : Z) (rid : nat) : Buffer :=
  mkBuffer true true
    (Some (mkSpan rid (P + L - size) size))
    (Some (mkSpan rid 0 (2 * P + L)))
    (Some (mkSpan rid 0 P))
    (Some (mkSpan rid P L))
    (Some (mkSpan rid (P + L) P))
    (Some (mkSpan rid (P + L - size - 32) 32))
    (Some (mkSpan rid (P - 32) 32)).

(** The calls a returning NewBuffer has made, newest first. *)
Definition construct_events (P L : Z) (rid : nat) : list Event :=
  [ EvSys (SysProtect (Some (mkSpan rid (P + L) P)) NoAccess) true;
    EvSys (SysProtect (Some (mkSpan rid 0 P)) NoAccess) true;
    EvSys (SysRand 32) true;
    EvSys (SysLock (Some (mkSpan rid P L))) true;
    EvSys (SysAlloc (2 * P + L)) true ].

(** ** Destruction, as an observer sees it *)

(** What a completed DestroyBuffer has done to the outside world, newest
    first (lines 181, 194, 197 and 202). *)
Definition destroy_events (r : Buffer) : list Event :=
  [ EvSys (SysFree (memory r)) true;
    EvSys (SysUnlock (inner r)) true;
    EvWipe (memory r);
    EvSys (SysProtect (memory r) ReadWrite) true ].

(** The fields of a destroyed buffer (lines 207-214); [inner] is not among
    the fields that are reset. *)
Definition destroyed (r : Buffer) : Buffer :=
  mkBuffer false false None None None (inner r) None None None.

(** The operating system answers the calls among [evs] (newest first), made
    one after the other from history [t], as [evs] records them. *)
Fixpoint os_grants (os : OS) (t : list Event) (evs : list Event) : bool :=
  match evs with
  | [] => true
  | e :: rest =>
      os_grants os t rest &&
      match e with
      | EvSys c ok => eqb (os_accepts os (rest ++ t) c) ok
      | _ => true
      end
  end.

(** [m] run [n] times in a row. *)
Fixpoint times (n : nat) (m : M unit) : M unit :=
  match n with
  | O => mret tt
  | S k => m;; times k m
  end.

(** The flags of the object [b] points to. *)
Definition alive_of (w : World) (b : BufPtr) : bool :=
  match objs w !! b with
  | Some r => alive r
  | None => false
  end.

Definition mutable_of (w : World) (b : BufPtr) : bool :=
  match objs w !! b with
  | Some r => mutable r
  | None => false
  end.

(** The process after DestroyBuffer has run to its end on the alive buffer
    [b] with fields [r]; [h] is the heap with the buffer's memory wiped. *)
Definition after_destroy (b : BufPtr) (r : Buffer) (h : gmap nat (list byte))
           (w : World) : World :=
  mkWorld (match memory r with Some sp => delete (sp_region sp) h | None => h end)
          (<[b := destroyed r]> (objs w))
          (remove_first b (buffers w))
          (destroy_events r ++ trace w).

(** The process at the moment the panic handler is invoked. *)
Definition at_panic (v : PanicValue) (w : World) : World :=
  log (EvHandler v) (foldl wipe_inner w (buffers w)).

Definition is_wipe (e : Event) : bool :=
  match e with
  | EvWipe _ => true
  | _ => false
  end.

Definition is_handler (e : Event) : bool :=
  match e with
  | EvHandler _ => true
  | _ => false
  end.

(** ** The states a process can be in between two calls *)

(** Only bytes differ: the same regions are mapped, with the same lengths. *)
Definition same_shape (h h' : gmap nat (list byte)) : Prop :=
  forall rid, length <$> h !! rid = length <$> h' !! rid.

(** The worlds reached from package initialisation by completed calls of the
    four operations (and of GetBufferState), with arbitrary writes into
    mapped memory in between: through [Data] by the owner, or out of bounds. *)
Inductive Reachable (P : Z) (os : OS) : World -> Prop :=
| reach_init : Reachable P os init_World
| reach_NewBuffer w size res w' :
    Reachable P os w -> NewBuffer P os size w = Ret res w' -> Reachable P os w'
| reach_GetBufferState w b st w' :
    Reachable P os w -> GetBufferState b w = Ret st w' -> Reachable P os w'
| reach_Freeze w b e w' :
    Reachable P os w -> Freeze os b w = Ret e w' -> Reachable P os w'
| reach_Melt w b e w' :
    Reachable P os w -> Melt os b w = Ret e w' -> Reachable P os w'
| reach_DestroyBuffer w b u w' :
    Reachable P os w -> DestroyBuffer os b w = Ret u w' -> Reachable P os w'
| reach_write w h :
    Reachable P os w -> same_shape (heap w) h -> Reachable P os (set_heap h w).

(** The registry holds exactly the alive buffers, each once. *)
Definition registry_ok (w : World) : Prop :=
  NoDup (buffers w) /\ forall b, In b (buffers w) <-> alive_of w b = true.

(** ** BufferList over Go slices with backing arrays

    The same four methods (lines 217-269), now with [l.list] as a slice
    header over a backing array, so that sharing between the registry and
    the slices it hands out can be observed. *)
Module Backing.

(** [*Buffer]; [None] is nil. *)
Definition Elem : Type := option BufPtr.

(** A non-nil [[]*Buffer]. *)
Record Header : Type := mkHeader {
  h_arr : nat;   (* the backing array *)
  h_off : nat;   (* index of the first element in it *)
  h_len : nat;
  h_cap : nat
}.

Record State : Type := mkState {
  arrays : gmap nat (list Elem);   (* the backing arrays *)
  l_list : option Header           (* the field [list] of [buffers] *)
}.

(** The elements a slice shows. *)
Definition read (st : State) (s : option Header) : list Elem :=
  match s with
  | None => []
  | Some hd =>
      match arrays st !! h_arr hd with
      | Some a => take (h_len hd) (drop (h_off hd) a)
      | None => []
      end
  end.

Definition len (s : option Header) : nat :=
  match s with
  | None => 0%nat
  | Some hd => h_len hd
  end.

Section Methods.

(** The capacity the run time chooses when [append] has to reallocate, from
    the old capacity and the length needed; it is never less than needed. *)
Variable grow : nat -> nat -> nat.

Definition new_cap (old needed : nat) : nat := Nat.max needed (grow old needed).

(** [append(s, vs...)]: in place when the capacity suffices, into a new
    backing array otherwise.  Returns the new header. *)
Definition append (s : option Header) (vs : list Elem) (st : State)
  : option Header * State :=
  match vs, s with
  | [], _ => (s, st)
  | _, Some hd =>
      if (h_len hd + length vs <=? h_cap hd)%nat then
        match arrays st !! h_arr hd with
        | Some a =>
            (Some (mkHeader (h_arr hd) (h_off hd) (h_len hd + length vs) (h_cap hd)),
             mkState (<[h_arr hd := splice a (h_off hd + h_len hd) vs]> (arrays st))
                     (l_list st))
        | None => (s, st)
        end
      else
        let n := (h_len hd + length vs)%nat in
        let c := new_cap (h_cap hd) n in
        let id := fresh (dom (arrays st)) in
        (Some (mkHeader id 0 n c),
         mkState (<[id := read st s ++ vs ++ replicate (c - n) None]> (arrays st))
                 (l_list st))
  | _, None =>
      let n := length vs in
      let c := new_cap 0 n in
      let id := fresh (dom (arrays st)) in
      (Some (mkHeader id 0 n c),
       mkState (<[id := vs ++ replicate (c - n) None]> (arrays st)) (l_list st))
  end.

Definition set_list (s : option Header) (st : State) : State :=
  mkState (arrays st) s.

(** [l.list = append(l.list, b)] *)
Definition Add (b : BufPtr) (st : State) : State :=
  let '(s, st1) := append (l_list st) [Some b] st in
  set_list s st1.

(** Index of the first element equal to [b]: where the loop of Remove and
    of Exists stops. *)
Fixpoint find_index (b : Elem) (l : list Elem) : option nat :=
  match l with
  | [] => None
  | v :: t => if decide (v = b) then Some 0%nat else S <$> find_index b t
  end.

(** [s[:i]] and [s[i:]] *)
Definition prefix (s : Header) (i : nat) : Header :=
  mkHeader (h_arr s) (h_off s) i (h_cap s).
Definition suffix (s : Header) (i : nat) : Header :=
  mkHeader (h_arr s) (h_off s + i) (h_len s - i) (h_cap s - i).

(** [l.list = append(l.list[:i], l.list[i+1:]...)] at the first [i] with
    [l.list[i] == b]. *)
Definition Remove (b : BufPtr) (st : State) : State :=
  match l_list st with
  | Some hd =>
      match find_index (Some b) (read st (Some hd)) with
      | Some i =>
          let '(s, st1) :=
            append (Some (prefix hd i)) (read st (Some (suffix hd (i + 1)))) st in
          set_list s st1
      | None => st
      end
  | None => st
  end.

Definition Exists (b : BufPtr) (st : State) : bool :=
  match find_index (Some b) (read st (l_list st)) with
  | Some _ => true
  | None => false
  end.

(** [make([]*Buffer, n)] *)
Definition make (n : nat) (st : State) : Header * State :=
  let id := fresh (dom (arrays st)) in
  (mkHeader id 0 n n, mkState (<[id := replicate n None]> (arrays st)) (l_list st)).

(** [copy(dst, src)] *)
Definition copy (dst : Header) (src : option Header) (st : State) : State :=
  match arrays st !! h_arr dst with
  | Some a =>
      mkState (<[h_arr dst := splice a (h_off dst)
                                (take (Nat.min (h_len dst) (len src)) (read st src))]>
                 (arrays st))
              (l_list st)
  | None => st
  end.

(** Empty: [list := make(...); copy(list, l.list); l.list = nil; return list] *)
Definition Empty (st : State) : option Header * State :=
  let '(list, st1) := make (len (l_list st)) st in
  let st2 := copy list (l_list st1) st1 in
  (Some list, set_list None st2).

(** One call on the registry. *)
Inductive Call : Type :=
| CallAdd (b : BufPtr)
| CallRemove (b : BufPtr)
| CallEmpty.

Definition run (c : Call) (st : State) : State :=
  match c with
  | CallAdd b => Add b st
  | CallRemove b => Remove b st
  | CallEmpty => snd (Empty st)
  end.

End Methods.

(** A header that lies inside its backing array. *)
Definition wf (st : State) : Prop :=
  match l_list st with
  | Some hd =>
      exists a, arrays st !! h_arr hd = Some a /\
                (h_len hd <= h_cap hd)%nat /\
                (h_off hd + h_cap hd <= length a)%nat
  | None => True
  end.

(** The backing array [a] exists and the registry's own slice is not a view
    of it. *)
Definition apart (a : nat) (st : State) : Prop :=
  is_Some (arrays st !! a) /\ forall hd, l_list st = Some hd -> h_arr hd <> a.

(** The elements of the registry, as the list-level model has them. *)
Definition contents (st : State) : list Elem := read st (l_list st).

End Backing.

(** ** Sequences of calls *)

(** One call of the package on a buffer, its result dropped. *)
Inductive Op : Type :=
| OpNewBuffer (size : Z)
| OpGetBufferState (b : BufPtr)
| OpFreeze (b : BufPtr)
| OpMelt (b : BufPtr)
| OpDestroyBuffer (b : BufPtr).

Definition run_op (P : Z) (os : OS) (o : Op) : M unit :=
  match o with
  | OpNewBuffer size => NewBuffer P os size;; mret tt
  | OpGetBufferState b => GetBufferState b;; mret tt
  | OpFreeze b => Freeze os b;; mret tt
  | OpMelt b => Melt os b;; mret tt
  | OpDestroyBuffer b => DestroyBuffer os b
  end.

Fixpoint run_ops (P : Z) (os : OS) (ops : list Op) : M unit :=
  match ops with
  | [] => mret tt
  | o :: t => run_op P os o;; run_ops P os t
  end.

(** DestroyBuffer on each buffer of [l], in order. *)
Fixpoint destroy_each (os : OS) (l : list BufPtr) : M unit :=
  match l with
  | [] => mret tt
  | b :: t => DestroyBuffer os b;; destroy_each os t
  end.

(** ** What holds when an operation returns or panics *)

(** From a state satisfying [I], [m] returns in a state satisfying [Q] or
    ends in the handler in a state satisfying [F]. *)
Definition hoare {A : Type} (I : World -> Prop) (m : M A)
           (Q : A -> World -> Prop) (F : PanicValue -> World -> Prop) : Prop :=
  forall w, I w ->
    match m w with
    | Ret a w' => Q a w'
    | Fatal v w' => F v w'
    | Crash _ => True
    end.

(** The registry and the alive flags are those of [w0]. *)
Definition untouched (w0 w : World) : Prop :=
  buffers w = buffers w0 /\ forall b, alive_of w b = alive_of w0 b.

(** The errors NewBuffer can panic with. *)
Definition construct_error (e : OSError) : Prop :=
  e = AllocFailed \/ e = LockFailed \/ e = RandFailed \/ e = ProtectFailed.

(** The process at a panic of NewBuffer that started in [w0]. *)
Definition construct_panic (w0 : World) (v : PanicValue) (w : World) : Prop :=
  untouched w0 w /\
  (exists e, v = PanicErr e /\ construct_error e) /\
  hd_error (trace w) = Some (EvHandler v).

(** ** Calls on the registry, on the list *)

(** The call [c] on the registry as a list. *)
Definition registry_call (c : Backing.Call) : M unit :=
  match c with
  | Backing.CallAdd b => BufferList_Add b
  | Backing.CallRemove b => BufferList_Remove b
  | Backing.CallEmpty => BufferList_Empty;; mret tt
  end.

Fixpoint registry_calls (cs : list Backing.Call) : M unit :=
  match cs with
  | [] => mret tt
  | c :: t => registry_call c;; registry_calls t
  end.

(** ** A concrete machine to run the operations on *)

(** An operating system that never refuses, with a fixed pattern for
    random bytes. *)
Definition os_willing : OS :=
  mkOS (fun _ _ => true) (fun _ i => if Nat.even i then x5a else xa5).

(** An operating system that refuses to change protections. *)
Definition os_no_protect : OS :=
  mkOS (fun _ c => match c with SysProtect _ ReadWrite => false | _ => true end)
       (fun _ i => if Nat.even i then x5a else xa5).

(** Registering the buffers of [l] one after the other. *)
Fixpoint add_all (l : list BufPtr) : M unit :=
  match l with
  | [] => mret tt
  | b :: t => BufferList_Add b;; add_all t
  end.

(** A write of [data] through a view that aliases mapped memory. *)
Definition poke (s : Slice) (data : list byte) (w : World) : World :=
  match store (heap w) s data with
  | Some h => set_heap h w
  | None => w
  end.

Definition world_of {A : Type} (o : Outcome A) : World :=
  match o with
  | Ret _ w => w
  | Fatal _ w => w
  | Crash w => w
  end.

(** After [NewBuffer(8)] on a fresh process with 4096-byte pages: one alive
    buffer, object 0 over region 0. *)
Definition world_one : World :=
  world_of (NewBuffer 4096 os_willing 8 init_World).

(** After a second [NewBuffer(8)]: objects 0 and 1. *)
Definition world_two : World :=
  world_of (NewBuffer 4096 os_willing 8 world_one).

(** The second buffer of [world_two] with its canary overwritten. *)
Definition world_tampered : World :=
  poke (canaryval (layout 4096 4096 8 1)) (replicate 32 xff) world_two.

(** [NewBuffer(4064)], the largest size whose inner region is one page. *)
Definition world_edge : World :=
  world_of (NewBuffer 4096 os_willing 4064 init_World).

(** The state in which the first [NewBuffer(8)] calls [buffers.Add]. *)
Definition world_built : World :=
  world_of (NewBuffer_construct 4096 os_willing 8 init_World).

(** The bytes [os_willing] hands out as a canary. *)
Definition canary_pattern : list byte :=
  map (fun i => if Nat.even i then x5a else xa5) (seq 0 32).

(** An operating system that refuses to lock pages. *)
Definition os_no_lock : OS :=
  mkOS (fun _ c => match c with SysLock _ => false | _ => true end)
       (fun _ i => if Nat.even i then x5a else xa5).

(** An operating system that refuses to take memory back. *)
Definition os_no_free : OS :=
  mkOS (fun _ c => match c with SysFree _ => false | _ => true end)
       (fun _ i => if Nat.even i then x5a else xa5).

(** [world_one] with its buffer frozen. *)
Definition world_frozen : World :=
  world_of (Freeze os_willing 0%nat world_one).

(** [world_two] with its first buffer frozen and the canary of the second
    overwritten. *)
Definition world_frozen_tampered : World :=
  poke (canaryval (layout 4096 4096 8 1)) (replicate 32 xff)
       (world_of (Freeze os_willing 0%nat world_two)).

(** [world_one] with its buffer destroyed. *)
Definition world_destroyed : World :=
  world_of (DestroyBuffer os_willing 0%nat world_one).

(** Calls made after the buffer of [world_one] has been destroyed. *)
Definition ops_later : list Op :=
  [OpNewBuffer 8; OpFreeze 0%nat; OpMelt 1%nat; OpGetBufferState 0%nat;
   OpDestroyBuffer 0%nat].

Definition world_later : World :=
  world_of (run_ops 4096 os_willing ops_later world_destroyed).

(** [world_two] after Empty and DestroyBuffer on each buffer returned. *)
Definition world_drained : World :=
  world_of ((l ← BufferList_Empty; destroy_each os_willing l) world_two).

(** A third NewBuffer(8), the operating system refusing to lock. *)
Definition world_lock_refused : World :=
  world_of (NewBuffer 4096 os_no_lock 8 world_two).

(** Four bytes written into the middle of Data of the buffer of
    [world_one]. *)
Definition world_written : World :=
  poke (Some (mkSpan 0 8186 4)) [x41; x42; x43; x44] world_one.

(** Eight bytes written just in front of Data of the buffer of
    [world_one]. *)
Definition world_underflow : World :=
  poke (Some (mkSpan 0 8176 8)) (replicate 8 xff) world_one.

(** Melt of the frozen buffer, the operating system refusing. *)
Definition world_melt_refused : World :=
  world_of (Melt os_no_protect 0%nat world_frozen).

(** DestroyBuffer of the buffer of [world_one], the operating system
    refusing to take the memory back. *)
Definition world_free_refused : World :=
  world_of (DestroyBuffer os_no_free 0%nat world_one).

(** A run time that never allocates more than is needed. *)
Definition grow_exact : nat -> nat -> nat := fun _ n => n.

(** Calls on the registry of a fresh process. *)
Definition calls_five : list Backing.Call :=
  [Backing.CallAdd 1%nat; Backing.CallAdd 2%nat; Backing.CallRemove 1%nat;
   Backing.CallEmpty; Backing.CallAdd 3%nat].

Definition slices_five : Backing.State :=
  foldl (fun s c => Backing.run grow_exact c s) (Backing.mkState ∅ None) calls_five.

(** A registry of three buffers in a backing array of four slots. *)
Definition slices_three : Backing.State :=
  Backing.mkState (<[0%nat := [Some 5%nat; Some 6%nat; Some 7%nat; None]]> ∅)
                  (Some (Backing.mkHeader 0 0 3 4)).

(** * Properties *)

(** ** Integer arithmetic *)

Lemma wrap_int_id (z : Z) : is_int z -> wrap_int z = z.
Proof.
  unfold is_int, int_min, int_max, wrap_int. intros H.
  rewrite Z.mod_small; lia.
Qed.

Lemma wrap_int_is_int (z : Z) : is_int (wrap_int z).
Proof.
  unfold is_int, int_min, int_max, wrap_int.
  pose proof (Z.mod_pos_bound (z + 2 ^ 63) (2 ^ 64) ltac:(lia)). lia.
Qed.

Lemma wrap_int_high (z : Z) :
  2 ^ 63 <= z < 2 ^ 63 + 2 ^ 64 -> wrap_int z = z - 2 ^ 64.
Proof.
  unfold wrap_int. intros H.
  replace (z + 2 ^ 63) with ((z - 2 ^ 64 + 2 ^ 63) + 1 * 2 ^ 64) by lia.
  rewrite Z.mod_add by lia. rewrite Z.mod_small; lia.
Qed.

Lemma roundUp_bounds (n P : Z) :
  0 < P -> n <= roundUp n P < n + P.
Proof.
  intros HP. unfold roundUp.
  pose proof (Z.div_mod (n + P - 1) P ltac:(lia)).
  pose proof (Z.mod_pos_bound (n + P - 1) P HP).
  rewrite (Z.mul_comm _ P). lia.
Qed.

Lemma roundUp_multiple (n P : Z) : (P | roundUp n P).
Proof. unfold roundUp. apply Z.divide_factor_r. Qed.

(** [roundUp] is the least multiple of [P] that is not below [n]. *)
Lemma roundUp_least (n P m : Z) :
  0 < P -> (P | m) -> n <= m -> roundUp n P <= m.
Proof.
  intros HP [k ->] Hle. unfold roundUp.
  apply Z.mul_le_mono_nonneg_r; [lia|].
  assert ((n + P - 1) / P < k + 1); [|lia].
  apply Z.div_lt_upper_bound; [lia|]. lia.
Qed.

Lemma roundUp_exact (k P : Z) : 0 < P -> roundUp (k * P) P = k * P.
Proof.
  intros HP. unfold roundUp.
  replace (k * P + P - 1) with ((P - 1) + k * P) by lia.
  rewrite Z.div_add by lia. rewrite Z.div_small by lia. lia.
Qed.

Lemma roundUp_next (k P : Z) : 1 < P -> roundUp (k * P + 1) P = (k + 1) * P.
Proof.
  intros HP. unfold roundUp.
  replace (k * P + 1 + P - 1) with (0 + (k + 1) * P) by lia.
  rewrite Z.div_add by lia. rewrite Z.div_small by lia. lia.
Qed.

(** No addition of NewBuffer wraps around when the allocation is accepted:
    a wrapped request is negative. *)
Lemma alloc_size_exact (P size : Z) :
  0 < P < 2 ^ 32 -> 1 <= size -> is_int size ->
  0 <= int_add (int_mul 2 P) (roundToPageSize P (int_add size 32)) ->
  roundToPageSize P (int_add size 32) = roundUp (size + 32) P /\
  int_add (int_mul 2 P) (roundToPageSize P (int_add size 32))
    = 2 * P + roundUp (size + 32) P /\
  2 * P + roundUp (size + 32) P <= int_max.
Proof.
  intros HP Hsz Hint. unfold roundToPageSize, int_add, int_mul.
  rewrite (wrap_int_id (2 * P)) by (unfold is_int, int_min, int_max; lia).
  unfold is_int, int_min, int_max in Hint.
  destruct (Z_le_gt_dec (2 ^ 63) (size + 32)) as [Hov|Hok].
  - rewrite (wrap_int_high (size + 32)) by lia.
    pose proof (roundUp_bounds (size + 32 - 2 ^ 64) P ltac:(lia)) as Hr.
    rewrite (wrap_int_id (roundUp _ _)) by (unfold is_int, int_min, int_max; lia).
    rewrite wrap_int_id by (unfold is_int, int_min, int_max; lia). lia.
  - rewrite (wrap_int_id (size + 32)) by (unfold is_int, int_min, int_max; lia).
    pose proof (roundUp_bounds (size + 32) P ltac:(lia)) as Hr.
    destruct (Z_le_gt_dec (2 ^ 63) (roundUp (size + 32) P)) as [Hov|Hok'].
    + rewrite (wrap_int_high (roundUp _ _)) by lia.
      rewrite wrap_int_id by (unfold is_int, int_min, int_max; lia). lia.
    + rewrite (wrap_int_id (roundUp _ _)) by (unfold is_int, int_min, int_max; lia).
      destruct (Z_le_gt_dec (2 ^ 63) (2 * P + roundUp (size + 32) P)) as [Hov|Hok''].
      * rewrite wrap_int_high by lia. lia.
      * rewrite wrap_int_id by (unfold is_int, int_min, int_max; lia).
        unfold int_max. lia.
Qed.

(** ** Inversion of the monadic steps *)

Lemma bind_Ret {A B : Type} (m : M A) (f : A -> M B) (w w' : World) (b : B) :
  (m ≫= f) w = Ret b w' ->
  exists a w1, m w = Ret a w1 /\ f a w1 = Ret b w'.
Proof.
  unfold mbind, M_bind. destruct (m w) as [a w1| |]; [eauto|discriminate..].
Qed.

Lemma bind_Ret_intro {A B : Type} (m : M A) (f : A -> M B) (w w1 : World) (a : A) :
  m w = Ret a w1 -> (m ≫= f) w = f a w1.
Proof. unfold mbind, M_bind. now intros ->. Qed.

Lemma bind_Fatal {A B : Type} (m : M A) (f : A -> M B) (w w1 : World) v :
  m w = Fatal v w1 -> (m ≫= f) w = Fatal v w1.
Proof. unfold mbind, M_bind. now intros ->. Qed.

Lemma bind_Crash {A B : Type} (m : M A) (f : A -> M B) (w w1 : World) :
  m w = Crash w1 -> (m ≫= f) w = Crash w1.
Proof. unfold mbind, M_bind. now intros ->. Qed.

Lemma mret_Ret {A : Type} (a b : A) (w w' : World) :
  (mret a : M A) w = Ret b w' -> a = b /\ w = w'.
Proof. unfold mret, M_ret. now intros [= -> ->]. Qed.

Lemma modify_world_Ret (f : World -> World) (w w' : World) (u : unit) :
  modify_world f w = Ret u w' -> w' = f w.
Proof. unfold modify_world. now intros [= _ <-]. Qed.

Lemma deref_Ret (b : BufPtr) (w w' : World) (r : Buffer) :
  deref b w = Ret r w' -> objs w !! b = Some r /\ w' = w.
Proof.
  unfold deref. destruct (objs w !! b); [|discriminate]. now intros [= -> ->].
Qed.

Lemma deref_intro (b : BufPtr) (w : World) (r : Buffer) :
  objs w !! b = Some r -> deref b w = Ret r w.
Proof. unfold deref. now intros ->. Qed.

Lemma assign_Ret (b : BufPtr) (f : Buffer -> Buffer) (w w' : World) (u : unit) :
  assign b f w = Ret u w' ->
  exists r, objs w !! b = Some r /\ w' = set_objs (<[b := f r]> (objs w)) w.
Proof.
  unfold assign. intros H. apply bind_Ret in H as (r & w1 & H1 & H2).
  apply deref_Ret in H1 as [H1 ->]. exists r. split; [done|].
  unfold modify_world in H2. now injection H2 as <-.
Qed.

Lemma assign_intro (b : BufPtr) (f : Buffer -> Buffer) (w : World) (r : Buffer) :
  objs w !! b = Some r ->
  assign b f w = Ret tt (set_objs (<[b := f r]> (objs w)) w).
Proof.
  intros H. unfold assign. now rewrite (bind_Ret_intro _ _ _ _ _ (deref_intro _ _ _ H)).
Qed.

Lemma check_Ret (err : option OSError) (w w' : World) (u : unit) :
  check err w = Ret u w' -> err = None /\ w' = w.
Proof. destruct err, u; [discriminate|]. cbn. now intros [= ->]. Qed.

Lemma elem_addr_Ret (s : Slice) (i : Z) (w w' : World) (p : Ptr) :
  elem_addr s i w = Ret p w' ->
  exists sp, s = Some sp /\ 0 <= i < sp_len sp /\
             p = mkPtr (sp_region sp) (sp_off sp + i) /\ w' = w.
Proof.
  unfold elem_addr. destruct s as [sp|]; [|discriminate].
  destruct (0 <=? i) eqn:H0; [|discriminate].
  destruct (i <? sp_len sp) eqn:H1; [|discriminate].
  cbn. intros [= <- <-]. exists sp. repeat split; lia.
Qed.

Section Steps.

Variable os : OS.

Lemma syscall_Ret (c : Syscall) (w w' : World) (ok : bool) :
  syscall os c w = Ret ok w' ->
  ok = os_accepts os (trace w) c /\ w' = log (EvSys c ok) w.
Proof. unfold syscall. now intros [= <- <-]. Qed.

Lemma memcall_Alloc_Ret (n : Z) (w w' : World) (mem : Slice) (err : option OSError) :
  memcall_Alloc os n w = Ret (mem, err) w' ->
  (err = None /\ 0 <= n /\ os_accepts os (trace w) (SysAlloc n) = true /\
   mem = Some (mkSpan (fresh (dom (heap w))) 0 n) /\
   w' = log (EvSys (SysAlloc n) true)
            (set_heap (<[fresh (dom (heap w)) := zeros n]> (heap w)) w))
  \/ (err = Some AllocFailed /\ mem = None /\ w' = log (EvSys (SysAlloc n) false) w).
Proof.
  unfold memcall_Alloc.
  destruct (0 <=? n) eqn:Hn; cbn [andb].
  - destruct (os_accepts os (trace w) (SysAlloc n)) eqn:Hos.
    + intros [= <- <- <-]. left. repeat split; lia.
    + intros [= <- <- <-]. now right.
  - intros [= <- <- <-]. now right.
Qed.

Lemma memcall_Protect_Ret (s : Slice) (mode : Protection) (w w' : World) err :
  memcall_Protect os s mode w = Ret err w' ->
  w' = log (EvSys (SysProtect s mode) (os_accepts os (trace w) (SysProtect s mode))) w /\
  err = (if os_accepts os (trace w) (SysProtect s mode) then None else Some ProtectFailed).
Proof. unfold memcall_Protect, syscall. cbn. now intros [= <- <-]. Qed.

Lemma memcall_Lock_Ret (s : Slice) (w w' : World) err :
  memcall_Lock os s w = Ret err w' ->
  w' = log (EvSys (SysLock s) (os_accepts os (trace w) (SysLock s))) w /\
  err = (if os_accepts os (trace w) (SysLock s) then None else Some LockFailed).
Proof. unfold memcall_Lock, syscall. cbn. now intros [= <- <-]. Qed.

Lemma memcall_Unlock_Ret (s : Slice) (w w' : World) err :
  memcall_Unlock os s w = Ret err w' ->
  w' = log (EvSys (SysUnlock s) (os_accepts os (trace w) (SysUnlock s))) w /\
  err = (if os_accepts os (trace w) (SysUnlock s) then None else Some UnlockFailed).
Proof. unfold memcall_Unlock, syscall. cbn. now intros [= <- <-]. Qed.

End Steps.

(** ** Mapped bytes *)

Lemma length_splice {A : Type} (bs : list A) (off : nat) (data : list A) :
  (off + length data <= length bs)%nat ->
  length (splice bs off data) = length bs.
Proof.
  intros H. unfold splice.
  rewrite !length_app, length_take, length_drop. lia.
Qed.

Lemma lookup_splice {A : Type} (bs : list A) (off : nat) (data : list A) (i : nat) :
  (off + length data <= length bs)%nat ->
  splice bs off data !! i =
    if decide (off <= i < off + length data)%nat then data !! (i - off)%nat
    else bs !! i.
Proof.
  intros H. unfold splice.
  destruct (decide (i < off)%nat) as [Hlt|Hge].
  - rewrite lookup_app_l by (rewrite length_take; lia).
    rewrite lookup_take_lt by lia. case_decide; [lia|done].
  - rewrite lookup_app_r by (rewrite length_take; lia).
    rewrite length_take, Nat.min_l by lia.
    destruct (decide (i < off + length data)%nat) as [Hin|Hout].
    + rewrite lookup_app_l by lia. case_decide; [done|lia].
    + rewrite lookup_app_r by lia. rewrite lookup_drop.
      case_decide; [lia|]. f_equal. lia.
Qed.

Lemma take_drop_splice_same {A : Type} (bs : list A) (off : nat) (data : list A) :
  (off + length data <= length bs)%nat ->
  take (length data) (drop off (splice bs off data)) = data.
Proof.
  intros H. unfold splice.
  rewrite drop_app_length' by (rewrite length_take; lia).
  now rewrite take_app_length.
Qed.

Lemma take_drop_splice_other {A : Type} (bs : list A) (off : nat) (data : list A)
      (off' len' : nat) :
  (off + length data <= length bs)%nat ->
  (off' + len' <= off \/ off + length data <= off')%nat ->
  take len' (drop off' (splice bs off data)) = take len' (drop off' bs).
Proof.
  intros H Hd. apply list_eq. intros i.
  destruct (decide (i < len')%nat) as [Hi|Hi].
  - rewrite !lookup_take_lt, !lookup_drop by lia.
    rewrite lookup_splice by lia. case_decide; [lia|done].
  - rewrite !lookup_take_ge by lia. done.
Qed.

Lemma store_Some (h h' : gmap nat (list byte)) (sp : Span) (data : list byte) :
  store h (Some sp) data = Some h' ->
  exists bs, h !! sp_region sp = Some bs /\
             0 <= sp_off sp /\ sp_off sp + sp_len sp <= Z.of_nat (length bs) /\
             Z.of_nat (length data) <= sp_len sp /\
             h' = <[sp_region sp := splice bs (Z.to_nat (sp_off sp)) data]> h.
Proof.
  unfold store, in_bounds. destruct (h !! sp_region sp) as [bs|]; [|discriminate].
  destruct (_ && _) eqn:Hb; [|discriminate]. intros [= <-].
  exists bs. repeat split; lia.
Qed.

Lemma store_intro (h : gmap nat (list byte)) (sp : Span) (data bs : list byte) :
  h !! sp_region sp = Some bs ->
  0 <= sp_off sp -> sp_off sp + sp_len sp <= Z.of_nat (length bs) ->
  Z.of_nat (length data) <= sp_len sp ->
  store h (Some sp) data
    = Some (<[sp_region sp := splice bs (Z.to_nat (sp_off sp)) data]> h).
Proof.
  intros Hl H0 H1 H2. unfold store, in_bounds. rewrite Hl.
  destruct (_ && _) eqn:Hb; [done|]. exfalso.
  apply not_true_iff_false in Hb. apply Hb. clear Hb.
  rewrite !andb_true_iff. repeat split; lia.
Qed.

Lemma load_intro (h : gmap nat (list byte)) (sp : Span) (bs : list byte) :
  h !! sp_region sp = Some bs ->
  0 <= sp_off sp -> 0 <= sp_len sp ->
  sp_off sp + sp_len sp <= Z.of_nat (length bs) ->
  load h (Some sp)
    = Some (take (Z.to_nat (sp_len sp)) (drop (Z.to_nat (sp_off sp)) bs)).
Proof.
  intros Hl H0 H1 H2. unfold load, in_bounds. rewrite Hl.
  destruct (_ && _) eqn:Hb; [done|]. exfalso.
  apply not_true_iff_false in Hb. apply Hb. clear Hb.
  rewrite !andb_true_iff. repeat split; lia.
Qed.

Lemma load_Some (h : gmap nat (list byte)) (sp : Span) (data : list byte) :
  load h (Some sp) = Some data ->
  exists bs, h !! sp_region sp = Some bs /\
             0 <= sp_off sp /\ 0 <= sp_len sp /\
             sp_off sp + sp_len sp <= Z.of_nat (length bs) /\
             data = take (Z.to_nat (sp_len sp)) (drop (Z.to_nat (sp_off sp)) bs).
Proof.
  unfold load, in_bounds. destruct (h !! sp_region sp) as [bs|]; [|discriminate].
  destruct (_ && _) eqn:Hb; [|discriminate]. intros [= <-].
  exists bs. repeat split; lia.
Qed.

Lemma read_bytes_Ret (s : Slice) (w w' : World) (x : list byte) :
  read_bytes s w = Ret x w' -> load (heap w) s = Some x /\ w' = w.
Proof.
  unfold read_bytes. destruct (load (heap w) s); [|discriminate].
  now intros [= -> ->].
Qed.

Lemma write_bytes_Ret (s : Slice) (data : list byte) (w w' : World) (u : unit) :
  write_bytes s data w = Ret u w' ->
  exists h, store (heap w) s data = Some h /\ w' = set_heap h w.
Proof.
  unfold write_bytes. destruct (store (heap w) s data) as [h|]; [|discriminate].
  intros [= <-]. now exists h.
Qed.

Lemma crypto_Copy_Ret (dst src : Slice) (w w' : World) (u : unit) :
  crypto_Copy dst src w = Ret u w' ->
  exists x h,
    load (heap w) src = Some x /\
    store (heap w) dst (take (Z.to_nat (Z.min (slice_len dst) (slice_len src))) x)
      = Some h /\
    w' = set_heap h w.
Proof.
  unfold crypto_Copy. intros H.
  apply bind_Ret in H as (x & w1 & H1 & H2).
  apply read_bytes_Ret in H1 as [H1 ->].
  apply write_bytes_Ret in H2 as (h & H2 & ->). eauto.
Qed.

Lemma crypto_Equal_Ret (a b : Slice) (w w' : World) (same : bool) :
  crypto_Equal a b w = Ret same w' ->
  exists x y, load (heap w) a = Some x /\ load (heap w) b = Some y /\
              same = bool_decide (x = y) /\ w' = w.
Proof.
  unfold crypto_Equal. intros H.
  apply bind_Ret in H as (x & w1 & H1 & H).
  apply read_bytes_Ret in H1 as [H1 ->].
  apply bind_Ret in H as (y & w2 & H2 & H).
  apply read_bytes_Ret in H2 as [H2 ->].
  apply mret_Ret in H as [<- <-]. eauto 6.
Qed.

Lemma rand_Read_Ret (os : OS) (s : Slice) (w w' : World) (err : option OSError) :
  rand_Read os s w = Ret err w' ->
  (err = None /\ os_accepts os (trace w) (SysRand (slice_len s)) = true /\
   exists h,
     store (heap w) s
           (map (os_random os (trace w)) (seq 0 (Z.to_nat (slice_len s)))) = Some h /\
     w' = set_heap h (log (EvSys (SysRand (slice_len s)) true) w))
  \/ (err = Some RandFailed /\
      w' = log (EvSys (SysRand (slice_len s)) false) w).
Proof.
  unfold rand_Read. intros H.
  apply bind_Ret in H as (w0 & w1 & H1 & H). injection H1 as <- <-.
  apply bind_Ret in H as (ok & w1 & H1 & H).
  apply syscall_Ret in H1 as [-> ->].
  destruct (os_accepts os (trace w) (SysRand (slice_len s))) eqn:Hos.
  - apply bind_Ret in H as (u & w1 & H1 & H).
    apply write_bytes_Ret in H1 as (h & H1 & ->).
    apply mret_Ret in H as [<- <-]. left. eauto.
  - apply mret_Ret in H as [<- <-]. now right.
Qed.

(** ** NewBuffer: what a call that returns has built *)

Ltac norm_in H :=
  cbv beta in H;
  unfold set_objs, set_heap, set_buffers, log, set_memory, set_inner, set_Data,
    set_preguard, set_postguard, set_canaryval, set_canaryref, set_alive,
    set_mutable, zero_Buffer, getBytes in H;
  cbn [heap objs buffers trace
       memory inner Data preguard postguard canaryval canaryref alive mutable
       sp_region sp_off sp_len p_region p_off slice_len] in H;
  rewrite ?insert_insert_eq, ?lookup_insert_eq in H.

Ltac inv_step H :=
  let a := fresh "a" in let w1 := fresh "w" in let H1 := fresh "Hs" in
  apply bind_Ret in H as (a & w1 & H1 & H).

Ltac inv_deref H :=
  let r := fresh "r" in let w1 := fresh "w" in let H1 := fresh "Hd" in
  apply bind_Ret in H as (r & w1 & H1 & H);
  apply deref_Ret in H1 as [H1 ->]; norm_in H1; injection H1 as <-; norm_in H.

Ltac inv_elem H Hi :=
  let p := fresh "p" in let w1 := fresh "w" in let H1 := fresh "He" in
  let sp := fresh "sp" in
  apply bind_Ret in H as (p & w1 & H1 & H);
  apply elem_addr_Ret in H1 as (sp & [= <-] & Hi & -> & ->);
  norm_in Hi; norm_in H.

Ltac inv_assign H :=
  let u := fresh "u" in let w1 := fresh "w" in let H1 := fresh "Ha" in
  let r := fresh "r" in let H2 := fresh "Hr" in
  apply bind_Ret in H as (u & w1 & H1 & H);
  apply assign_Ret in H1 as (r & H2 & ->);
  norm_in H2; injection H2 as <-; norm_in H.

Ltac inv_check H He :=
  let u := fresh "u" in let w1 := fresh "w" in
  apply bind_Ret in H as (u & w1 & He & H);
  apply check_Ret in He as [He ->]; norm_in H.

Ltac int_range := unfold is_int, int_min, int_max in *; lia.

Ltac inv_sys H lem Hok :=
  let e := fresh "err" in let w1 := fresh "w" in let H1 := fresh "Hs" in
  let Hc := fresh "Hc" in
  apply bind_Ret in H as (e & w1 & H1 & H);
  apply lem in H1 as [-> ->]; norm_in H;
  inv_check H Hc;
  match type of Hc with
  | (if ?c then _ else _) = _ => destruct c eqn:Hok; [clear Hc|discriminate Hc]
  end.

Lemma length_zeros (n : Z) : length (zeros n) = Z.to_nat n.
Proof. unfold zeros. apply length_replicate. Qed.

Lemma NewBuffer_construct_Ret (P : Z) (os : OS) (size : Z) (w w' : World) (b : BufPtr) :
  0 < P < 2 ^ 32 -> 1 <= size -> is_int size ->
  NewBuffer_construct P os size w = Ret b w' ->
  let L := roundUp (size + 32) P in
  let rid := fresh (dom (heap w)) in
  32 <= P /\ 2 * P + L <= int_max /\ b = fresh (dom (objs w)) /\
  exists bytes rnd,
    w' = mkWorld (<[rid := bytes]> (heap w))
                 (<[b := layout P L size rid]> (objs w))
                 (buffers w)
                 (construct_events P L rid ++ trace w) /\
    Z.of_nat (length bytes) = 2 * P + L /\
    length rnd = 32%nat /\
    load (<[rid := bytes]> (heap w)) (canaryref (layout P L size rid)) = Some rnd /\
    load (<[rid := bytes]> (heap w)) (canaryval (layout P L size rid)) = Some rnd.
Proof.
  intros HP Hsz Hint H. unfold NewBuffer_construct in H.
  inv_step H. unfold new_Buffer in Hs. injection Hs as <- <-.
  remember (fresh (dom (objs w))) as bid eqn:Hbid.
  inv_step H. destruct a as [mem err].
  apply memcall_Alloc_Ret in Hs as [(-> & Hn & Hos & -> & ->)|(-> & _)].
  2:{ inv_step H. inv_step H. apply check_Ret in Hs0 as [? _]. discriminate. }
  norm_in Hos.
  remember (fresh (dom (heap (set_objs (<[bid:=zero_Buffer]> (objs w)) w))))
    as rid eqn:Hrid.
  norm_in Hrid.
  destruct (alloc_size_exact P size HP Hsz Hint Hn) as (HL & Hlen & Hmax).
  rewrite Hlen in *. rewrite HL in *. clear HL Hlen.
  pose proof (roundUp_bounds (size + 32) P ltac:(lia)) as HLb.
  cbv zeta. rewrite <- Hrid.
  remember (roundUp (size + 32) P) as L eqn:HLdef.
  inv_assign H. inv_check H Hc. clear Hc.
  inv_deref H. inv_elem H Hi1. inv_assign H.
  inv_deref H. inv_elem H Hi2. inv_assign H.
  inv_deref H. inv_elem H Hi3. inv_assign H.
  inv_deref H. inv_elem H Hi4. inv_assign H.
  inv_deref H. inv_elem H Hi5. inv_assign H.
  inv_deref H. inv_elem H Hi6. inv_assign H.
  assert (HP32 : 32 <= P).
  { unfold int_sub in Hi5. rewrite wrap_int_id in Hi5 by int_range. lia. }
  unfold int_add, int_sub in H, Hi1, Hi4, Hi5, Hi6.
  rewrite !(wrap_int_id (P + L)) in * by int_range.
  rewrite !(wrap_int_id (P + L - size)) in * by int_range.
  rewrite !(wrap_int_id (P + L - size - 32)) in * by int_range.
  rewrite !(wrap_int_id (P - 32)) in * by int_range.
  rewrite !Z.add_0_l in H.
  inv_deref H. inv_sys H memcall_Lock_Ret Hlock.
  inv_deref H.
  inv_step H. apply rand_Read_Ret in Hs as [(-> & Hrnd & h & Hst & ->)|(-> & _)].
  2:{ inv_step H. apply check_Ret in Hs as [? _]. discriminate. }
  inv_check H Hc. clear Hc. norm_in Hrnd. norm_in Hst.
  inv_deref H.
  inv_step H. apply crypto_Copy_Ret in Hs as (x & h' & Hld & Hst' & ->).
  norm_in Hld. norm_in Hst'. norm_in H.
  inv_deref H. inv_sys H memcall_Protect_Ret Hpre.
  inv_deref H. inv_sys H memcall_Protect_Ret Hpost.
  inv_assign H. inv_assign H.
  apply mret_Ret in H as [<- <-].
  split; [done|]. split; [done|]. split; [done|].
  (* the bytes of the region *)
  set (rnd := map _ _) in Hst.
  assert (Hrl : length rnd = 32%nat).
  { subst rnd. now rewrite length_map, length_seq. }
  apply store_Some in Hst as (bs & Hbs & _ & _ & _ & ->).
  cbn [sp_region sp_off sp_len] in *.
  rewrite lookup_insert_eq in Hbs. injection Hbs as <-.
  rewrite insert_insert_eq in *.
  assert (Hzl : length (zeros (2 * P + L)) = Z.to_nat (2 * P + L))
    by apply length_zeros.
  apply load_Some in Hld as (bs & Hbs & _ & _ & _ & ->).
  cbn [sp_region sp_off sp_len] in *.
  rewrite lookup_insert_eq in Hbs. injection Hbs as <-.
  replace (Z.to_nat 32) with (length rnd) in Hst' by lia.
  rewrite take_drop_splice_same in Hst' by lia.
  rewrite Z.min_id in Hst'.
  rewrite take_ge in Hst' by lia.
  apply store_Some in Hst' as (bs & Hbs & _ & _ & _ & ->).
  cbn [sp_region sp_off sp_len] in *.
  rewrite lookup_insert_eq in Hbs. injection Hbs as <-.
  rewrite insert_insert_eq.
  set (bs1 := splice (zeros (2 * P + L)) (Z.to_nat (P - 32)) rnd).
  assert (Hl1 : length bs1 = Z.to_nat (2 * P + L)).
  { subst bs1. rewrite length_splice; lia. }
  set (bs2 := splice bs1 (Z.to_nat (P + L - size - 32)) rnd).
  assert (Hl2 : length bs2 = Z.to_nat (2 * P + L)).
  { subst bs2. rewrite length_splice; lia. }
  exists bs2, rnd. split; [reflexivity|]. split; [lia|]. split; [done|].
  unfold layout. cbn [canaryref canaryval].
  split.
  - rewrite (load_intro _ _ bs2); cbn [sp_region sp_off sp_len];
      [|apply lookup_insert_eq|lia..].
    f_equal. subst bs2.
    rewrite take_drop_splice_other by lia.
    subst bs1. replace (Z.to_nat 32) with (length rnd) by lia.
    apply take_drop_splice_same. lia.
  - rewrite (load_intro _ _ bs2); cbn [sp_region sp_off sp_len];
      [|apply lookup_insert_eq|lia..].
    f_equal. subst bs2. replace (Z.to_nat 32) with (length rnd) by lia.
    apply take_drop_splice_same. lia.
Qed.

Lemma NewBuffer_Ret (P : Z) (os : OS) (size : Z) (w w' : World)
      (ob : option BufPtr) (e : option Error) :
  NewBuffer P os size w = Ret (ob, e) w' ->
  (size < 1 /\ ob = None /\ e = Some ErrInvalidLength /\ w' = w) \/
  (1 <= size /\ e = None /\
   exists b w1, ob = Some b /\ NewBuffer_construct P os size w = Ret b w1 /\
                w' = set_buffers (buffers w1 ++ [b]) w1).
Proof.
  unfold NewBuffer. destruct (size <? 1) eqn:Hs.
  - intros H. apply mret_Ret in H as [[= <- <-] <-]. left. repeat split; lia.
  - intros H. right.
    apply bind_Ret in H as (b & w1 & H1 & H).
    apply bind_Ret in H as (u & w2 & H2 & H).
    unfold BufferList_Add, modify_world in H2. injection H2 as <-.
    apply mret_Ret in H as [[= <- <-] <-].
    split; [lia|]. split; [done|]. eauto.
Qed.

(** The whole of a returning NewBuffer, in one equation. *)
Lemma NewBuffer_success (P : Z) (os : OS) (size : Z) (w w' : World)
      (ob : option BufPtr) :
  0 < P < 2 ^ 32 -> is_int size ->
  NewBuffer P os size w = Ret (ob, None) w' ->
  let L := roundUp (size + 32) P in
  let rid := fresh (dom (heap w)) in
  let b := fresh (dom (objs w)) in
  1 <= size /\ 32 <= P /\ 2 * P + L <= int_max /\ ob = Some b /\
  exists bytes rnd,
    w' = mkWorld (<[rid := bytes]> (heap w))
                 (<[b := layout P L size rid]> (objs w))
                 (buffers w ++ [b])
                 (construct_events P L rid ++ trace w) /\
    Z.of_nat (length bytes) = 2 * P + L /\
    length rnd = 32%nat /\
    load (heap w') (canaryref (layout P L size rid)) = Some rnd /\
    load (heap w') (canaryval (layout P L size rid)) = Some rnd.
Proof.
  intros HP Hint H.
  apply NewBuffer_Ret in H as [(_ & _ & [=] & _)|(Hsz & _ & b & w1 & -> & H & ->)].
  apply NewBuffer_construct_Ret in H as (H32 & Hmax & -> & bytes & rnd & -> & Hlen & Hr & Href & Hval);
    [|done..].
  cbv zeta. repeat (split; [done|]).
  exists bytes, rnd. cbn [set_buffers heap objs buffers trace]. done.
Qed.

(** Whatever the page size and the size asked for: a constructor that
    returns has made one new object, alive and mutable, and has left the
    registry and every other object alone. *)
Lemma NewBuffer_construct_shape (P : Z) (os : OS) (size : Z) (w w' : World) (b : BufPtr) :
  NewBuffer_construct P os size w = Ret b w' ->
  b = fresh (dom (objs w)) /\ buffers w' = buffers w /\
  exists r, objs w' = <[b := r]> (objs w) /\ alive r = true /\ mutable r = true.
Proof.
  intros H. unfold NewBuffer_construct in H.
  inv_step H. unfold new_Buffer in Hs. injection Hs as <- <-.
  remember (fresh (dom (objs w))) as bid eqn:Hbid.
  inv_step H. destruct a as [mem err].
  apply memcall_Alloc_Ret in Hs as [(-> & Hn & Hos & -> & ->)|(-> & _)].
  2:{ inv_step H. inv_step H. apply check_Ret in Hs0 as [? _]. discriminate. }
  inv_assign H. inv_check H Hc. clear Hc.
  inv_deref H. inv_elem H Hi1. inv_assign H.
  inv_deref H. inv_elem H Hi2. inv_assign H.
  inv_deref H. inv_elem H Hi3. inv_assign H.
  inv_deref H. inv_elem H Hi4. inv_assign H.
  inv_deref H. inv_elem H Hi5. inv_assign H.
  inv_deref H. inv_elem H Hi6. inv_assign H.
  inv_deref H. inv_sys H memcall_Lock_Ret Hlock.
  inv_deref H.
  inv_step H. apply rand_Read_Ret in Hs as [(-> & Hrnd & h & Hst & ->)|(-> & _)].
  2:{ inv_step H. apply check_Ret in Hs as [? _]. discriminate. }
  inv_check H Hc. clear Hc.
  inv_deref H.
  inv_step H. apply crypto_Copy_Ret in Hs as (x & h' & Hld & Hst' & ->).
  norm_in H.
  inv_deref H. inv_sys H memcall_Protect_Ret Hpre.
  inv_deref H. inv_sys H memcall_Protect_Ret Hpost.
  inv_assign H. inv_assign H.
  apply mret_Ret in H as [<- <-].
  cbn [objs buffers]. split; [done|]. split; [done|]. eauto.
Qed.

(** ** Running the steps forward *)

Lemma mret_intro {A : Type} (a : A) (w : World) : (mret a : M A) w = Ret a w.
Proof. reflexivity. Qed.

Lemma modify_world_intro (f : World -> World) (w : World) :
  modify_world f w = Ret tt (f w).
Proof. reflexivity. Qed.

Lemma Panic_intro {A : Type} (v : PanicValue) (w : World) :
  (Panic v : M A) w = Fatal v (at_panic v w).
Proof. reflexivity. Qed.

Lemma check_None_intro (w : World) : check None w = Ret tt w.
Proof. reflexivity. Qed.

Lemma check_Some_intro (e : OSError) (w : World) :
  check (Some e) w = Fatal (PanicErr e) (at_panic (PanicErr e) w).
Proof. reflexivity. Qed.

Lemma memcall_Protect_intro (os : OS) (s : Slice) (mode : Protection) (w : World) :
  memcall_Protect os s mode w =
  Ret (if os_accepts os (trace w) (SysProtect s mode) then None else Some ProtectFailed)
      (log (EvSys (SysProtect s mode) (os_accepts os (trace w) (SysProtect s mode))) w).
Proof. reflexivity. Qed.

Lemma memcall_Protect_ok (os : OS) (s : Slice) (mode : Protection) (w : World) :
  os_accepts os (trace w) (SysProtect s mode) = true ->
  memcall_Protect os s mode w = Ret None (log (EvSys (SysProtect s mode) true) w).
Proof. intros H. rewrite memcall_Protect_intro. now rewrite H. Qed.

Lemma memcall_Protect_refused (os : OS) (s : Slice) (mode : Protection) (w : World) :
  os_accepts os (trace w) (SysProtect s mode) = false ->
  memcall_Protect os s mode w
    = Ret (Some ProtectFailed) (log (EvSys (SysProtect s mode) false) w).
Proof. intros H. rewrite memcall_Protect_intro. now rewrite H. Qed.

Lemma memcall_Unlock_ok (os : OS) (s : Slice) (w : World) :
  os_accepts os (trace w) (SysUnlock s) = true ->
  memcall_Unlock os s w = Ret None (log (EvSys (SysUnlock s) true) w).
Proof. intros H. unfold memcall_Unlock, syscall, mbind, M_bind. now rewrite H. Qed.

Lemma memcall_Free_ok (os : OS) (s : Slice) (w : World) :
  os_accepts os (trace w) (SysFree s) = true ->
  memcall_Free os s w = Ret None (unmap s (log (EvSys (SysFree s) true) w)).
Proof. intros H. unfold memcall_Free, syscall, mbind, M_bind. now rewrite H. Qed.

Lemma crypto_Equal_intro (a b : Slice) (w : World) (x y : list byte) :
  load (heap w) a = Some x -> load (heap w) b = Some y ->
  crypto_Equal a b w = Ret (bool_decide (x = y)) w.
Proof.
  intros Ha Hb. unfold crypto_Equal, read_bytes, mbind, M_bind.
  now rewrite Ha, Hb.
Qed.

Lemma crypto_MemClr_intro (s : Slice) (w : World) (h : gmap nat (list byte)) :
  store (heap w) s (zeros (slice_len s)) = Some h ->
  crypto_MemClr s w = Ret tt (log (EvWipe s) (set_heap h w)).
Proof.
  intros Hs. unfold crypto_MemClr, write_bytes, mbind, M_bind. now rewrite Hs.
Qed.

Ltac simpl_world :=
  cbn [heap objs buffers trace log set_heap set_objs set_buffers unmap negb].

Ltac step tac := erewrite bind_Ret_intro by tac; simpl_world.

Ltac step_assign :=
  erewrite bind_Ret_intro
    by (apply assign_intro; simpl_world;
        first [eassumption | apply lookup_insert_eq]);
  simpl_world; rewrite ?insert_insert_eq.

Lemma os_grants_cons (os : OS) (t : list Event) (e : Event) (rest : list Event) :
  os_grants os t (e :: rest) = true <->
  os_grants os t rest = true /\
  match e with
  | EvSys c ok => os_accepts os (rest ++ t) c = ok
  | _ => True
  end.
Proof.
  cbn [os_grants]. rewrite andb_true_iff.
  destruct e as [c ok| |]; [|tauto..].
  split; intros [H1 H2]; (split; [done|]).
  - now apply eqb_prop.
  - rewrite H2. apply eqb_reflx.
Qed.

Lemma os_grants_destroy (os : OS) (t : list Event) (r : Buffer) :
  os_grants os t (destroy_events r) = true ->
  os_accepts os t (SysProtect (memory r) ReadWrite) = true /\
  os_accepts os (EvWipe (memory r) :: EvSys (SysProtect (memory r) ReadWrite) true :: t)
             (SysUnlock (inner r)) = true /\
  os_accepts os (EvSys (SysUnlock (inner r)) true :: EvWipe (memory r)
                 :: EvSys (SysProtect (memory r) ReadWrite) true :: t)
             (SysFree (memory r)) = true.
Proof.
  unfold destroy_events. intros H.
  apply os_grants_cons in H as [H Hf].
  apply os_grants_cons in H as [H Hu].
  apply os_grants_cons in H as [H _].
  apply os_grants_cons in H as [_ Hp].
  cbn [app] in *. done.
Qed.

(** ** DestroyBuffer, path by path *)

(** Lines 176-178: nothing happens to a buffer that is already destroyed. *)
Lemma DestroyBuffer_destroyed (os : OS) (b : BufPtr) (w : World) (r : Buffer) :
  objs w !! b = Some r -> alive r = false ->
  DestroyBuffer os b w = Ret tt w.
Proof.
  intros Hb Hal. unfold DestroyBuffer.
  step ltac:(apply deref_intro, Hb).
  now rewrite Hal.
Qed.

(** Lines 181-183: the operating system refuses to open the region. *)
Lemma DestroyBuffer_protect_refused (os : OS) (b : BufPtr) (w : World) (r : Buffer) :
  objs w !! b = Some r -> alive r = true ->
  os_accepts os (trace w) (SysProtect (memory r) ReadWrite) = false ->
  DestroyBuffer os b w
    = Fatal (PanicErr ProtectFailed)
            (at_panic (PanicErr ProtectFailed)
                      (log (EvSys (SysProtect (memory r) ReadWrite) false) w)).
Proof.
  intros Hb Hal Hp. unfold DestroyBuffer.
  step ltac:(apply deref_intro, Hb).
  rewrite Hal. simpl_world.
  step ltac:(apply memcall_Protect_refused, Hp).
  erewrite bind_Fatal by apply check_Some_intro. reflexivity.
Qed.

(** Lines 186-188: the canary has changed. *)
Lemma DestroyBuffer_mismatch (os : OS) (b : BufPtr) (w : World) (r : Buffer)
      (x y : list byte) :
  objs w !! b = Some r -> alive r = true ->
  os_accepts os (trace w) (SysProtect (memory r) ReadWrite) = true ->
  load (heap w) (canaryval r) = Some x ->
  load (heap w) (canaryref r) = Some y ->
  x <> y ->
  DestroyBuffer os b w
    = Fatal (PanicMsg canary_message)
            (at_panic (PanicMsg canary_message)
                      (log (EvSys (SysProtect (memory r) ReadWrite) true) w)).
Proof.
  intros Hb Hal Hp Hv Hr Hne. unfold DestroyBuffer.
  step ltac:(apply deref_intro, Hb).
  rewrite Hal. simpl_world.
  step ltac:(apply memcall_Protect_ok, Hp).
  step ltac:(apply check_None_intro).
  step ltac:(apply deref_intro, Hb).
  step ltac:(eapply crypto_Equal_intro; [apply Hv|apply Hr]).
  rewrite bool_decide_eq_false_2 by done. simpl_world.
  erewrite bind_Fatal by apply Panic_intro. reflexivity.
Qed.

(** Lines 181-214: the canary is intact and the operating system goes along. *)
Lemma DestroyBuffer_completes (os : OS) (b : BufPtr) (w : World) (r : Buffer)
      (x : list byte) (h : gmap nat (list byte)) :
  objs w !! b = Some r -> alive r = true ->
  load (heap w) (canaryval r) = Some x ->
  load (heap w) (canaryref r) = Some x ->
  store (heap w) (memory r) (zeros (slice_len (memory r))) = Some h ->
  os_grants os (trace w) (destroy_events r) = true ->
  DestroyBuffer os b w = Ret tt (after_destroy b r h w).
Proof.
  intros Hb Hal Hv Hr Hst Hos.
  apply os_grants_destroy in Hos as (Hp & Hu & Hf).
  unfold DestroyBuffer.
  step ltac:(apply deref_intro, Hb).
  rewrite Hal. simpl_world.
  step ltac:(apply memcall_Protect_ok, Hp).
  step ltac:(apply check_None_intro).
  step ltac:(apply deref_intro, Hb).
  step ltac:(eapply crypto_Equal_intro; [apply Hv|apply Hr]).
  rewrite bool_decide_eq_true_2 by done. simpl_world.
  step ltac:(apply mret_intro).
  step ltac:(apply modify_world_intro).
  step ltac:(apply deref_intro, Hb).
  step ltac:(apply crypto_MemClr_intro, Hst).
  step ltac:(apply deref_intro, Hb).
  step ltac:(apply memcall_Unlock_ok, Hu).
  step ltac:(apply check_None_intro).
  step ltac:(apply deref_intro, Hb).
  step ltac:(apply memcall_Free_ok, Hf).
  step ltac:(apply check_None_intro).
  do 7 step_assign.
  erewrite assign_intro by (simpl_world; apply lookup_insert_eq).
  simpl_world. rewrite insert_insert_eq. reflexivity.
Qed.

(** ** Freeze and Melt, path by path *)

Lemma Freeze_destroyed (os : OS) (b : BufPtr) (w : World) (r : Buffer) :
  objs w !! b = Some r -> alive r = false ->
  Freeze os b w = Ret (Some ErrDestroyed) w.
Proof.
  intros Hb Hal. unfold Freeze.
  step ltac:(apply deref_intro, Hb). now rewrite Hal.
Qed.

Lemma Freeze_frozen (os : OS) (b : BufPtr) (w : World) (r : Buffer) :
  objs w !! b = Some r -> alive r = true -> mutable r = false ->
  Freeze os b w = Ret None w.
Proof.
  intros Hb Hal Hm. unfold Freeze.
  step ltac:(apply deref_intro, Hb). rewrite Hal, Hm. reflexivity.
Qed.

Lemma Freeze_mutable (os : OS) (b : BufPtr) (w : World) (r : Buffer) :
  objs w !! b = Some r -> alive r = true -> mutable r = true ->
  os_accepts os (trace w) (SysProtect (inner r) ReadOnly) = true ->
  Freeze os b w
    = Ret None (mkWorld (heap w) (<[b := set_mutable false r]> (objs w)) (buffers w)
                        (EvSys (SysProtect (inner r) ReadOnly) true :: trace w)).
Proof.
  intros Hb Hal Hm Hp. unfold Freeze.
  step ltac:(apply deref_intro, Hb). rewrite Hal, Hm. simpl_world.
  erewrite bind_Ret_intro; [reflexivity|].
  step ltac:(apply memcall_Protect_ok, Hp).
  step ltac:(apply check_None_intro).
  erewrite assign_intro by (simpl_world; apply Hb). reflexivity.
Qed.

Lemma Freeze_refused (os : OS) (b : BufPtr) (w : World) (r : Buffer) :
  objs w !! b = Some r -> alive r = true -> mutable r = true ->
  os_accepts os (trace w) (SysProtect (inner r) ReadOnly) = false ->
  Freeze os b w
    = Fatal (PanicErr ProtectFailed)
            (at_panic (PanicErr ProtectFailed)
                      (log (EvSys (SysProtect (inner r) ReadOnly) false) w)).
Proof.
  intros Hb Hal Hm Hp. unfold Freeze.
  step ltac:(apply deref_intro, Hb). rewrite Hal, Hm. simpl_world.
  erewrite bind_Fatal; [reflexivity|].
  step ltac:(apply memcall_Protect_refused, Hp).
  erewrite bind_Fatal by apply check_Some_intro. reflexivity.
Qed.

Lemma Melt_destroyed (os : OS) (b : BufPtr) (w : World) (r : Buffer) :
  objs w !! b = Some r -> alive r = false ->
  Melt os b w = Ret (Some ErrDestroyed) w.
Proof.
  intros Hb Hal. unfold Melt.
  step ltac:(apply deref_intro, Hb). now rewrite Hal.
Qed.

Lemma Melt_molten (os : OS) (b : BufPtr) (w : World) (r : Buffer) :
  objs w !! b = Some r -> alive r = true -> mutable r = true ->
  Melt os b w = Ret None w.
Proof.
  intros Hb Hal Hm. unfold Melt.
  step ltac:(apply deref_intro, Hb). rewrite Hal, Hm. reflexivity.
Qed.

Lemma Melt_frozen (os : OS) (b : BufPtr) (w : World) (r : Buffer) :
  objs w !! b = Some r -> alive r = true -> mutable r = false ->
  os_accepts os (trace w) (SysProtect (inner r) ReadWrite) = true ->
  Melt os b w
    = Ret None (mkWorld (heap w) (<[b := set_mutable true r]> (objs w)) (buffers w)
                        (EvSys (SysProtect (inner r) ReadWrite) true :: trace w)).
Proof.
  intros Hb Hal Hm Hp. unfold Melt.
  step ltac:(apply deref_intro, Hb). rewrite Hal, Hm. simpl_world.
  erewrite bind_Ret_intro; [reflexivity|].
  step ltac:(apply memcall_Protect_ok, Hp).
  step ltac:(apply check_None_intro).
  erewrite assign_intro by (simpl_world; apply Hb). reflexivity.
Qed.

Lemma Melt_refused (os : OS) (b : BufPtr) (w : World) (r : Buffer) :
  objs w !! b = Some r -> alive r = true -> mutable r = false ->
  os_accepts os (trace w) (SysProtect (inner r) ReadWrite) = false ->
  Melt os b w
    = Fatal (PanicErr ProtectFailed)
            (at_panic (PanicErr ProtectFailed)
                      (log (EvSys (SysProtect (inner r) ReadWrite) false) w)).
Proof.
  intros Hb Hal Hm Hp. unfold Melt.
  step ltac:(apply deref_intro, Hb). rewrite Hal, Hm. simpl_world.
  erewrite bind_Fatal; [reflexivity|].
  step ltac:(apply memcall_Protect_refused, Hp).
  erewrite bind_Fatal by apply check_Some_intro. reflexivity.
Qed.

Lemma deref_dangling (b : BufPtr) (w : World) :
  objs w !! b = None -> deref b w = Crash w.
Proof. unfold deref. now intros ->. Qed.

(** ** Wiping *)

Lemma store_None_inv (h h' : gmap nat (list byte)) (data : list byte) :
  store h None data = Some h' -> h' = h.
Proof. cbn. destruct data; [now intros [= <-]|discriminate]. Qed.

Lemma loadable_store_zeros (h : gmap nat (list byte)) (s : Slice) :
  is_Some (load h s) -> is_Some (store h s (zeros (slice_len s))).
Proof.
  intros [x Hx]. destruct s as [sp|]; [|cbn; eauto].
  apply load_Some in Hx as (bs & Hbs & H0 & H1 & H2 & _).
  erewrite store_intro; [eauto|apply Hbs|lia..|].
  cbn [slice_len]. rewrite length_zeros. lia.
Qed.

Lemma store_zeros_reads_zero (h h' : gmap nat (list byte)) (s : Slice) :
  store h s (zeros (slice_len s)) = Some h' ->
  load h' s = Some (zeros (slice_len s)).
Proof.
  destruct s as [sp|]; [|reflexivity].
  intros H. cbn [slice_len] in *.
  assert (Hl := length_zeros (sp_len sp)).
  apply store_Some in H as (bs & Hbs & H0 & H1 & H2 & ->).
  rewrite Hl in H2.
  destruct (Z_lt_le_dec (sp_len sp) 0) as [Hneg|Hpos].
  - exfalso. unfold zeros in Hl. rewrite length_replicate in Hl. lia.
  - erewrite load_intro; [|apply lookup_insert_eq|try lia..].
    + f_equal. rewrite <- Hl at 1. apply take_drop_splice_same. lia.
    + rewrite length_splice; lia.
Qed.

Lemma store_preserves_loadable (h h' : gmap nat (list byte)) (s s2 : Slice)
      (data : list byte) :
  is_Some (load h s) -> store h s2 data = Some h' -> is_Some (load h' s).
Proof.
  intros [x Hx] Hst. destruct s as [sp|]; [|cbn; eauto].
  destruct s2 as [sp2|]; [|apply store_None_inv in Hst as ->; eauto].
  apply store_Some in Hst as (bs2 & Hbs2 & H0 & H1 & H2 & ->).
  apply load_Some in Hx as (bs & Hbs & Ha & Hb & Hc & _).
  destruct (decide (sp_region sp2 = sp_region sp)) as [Heq|Hne].
  - rewrite Heq in *. assert (bs2 = bs) as -> by congruence.
    erewrite load_intro; [eauto|apply lookup_insert_eq|try lia..].
    rewrite length_splice; lia.
  - erewrite load_intro; [eauto|rewrite lookup_insert_ne; eauto|lia..].
Qed.

Lemma store_zeros_preserves_zero (h h' : gmap nat (list byte)) (s s2 : Slice) (n : Z) :
  load h s = Some (zeros (slice_len s)) ->
  store h s2 (zeros n) = Some h' ->
  load h' s = Some (zeros (slice_len s)).
Proof.
  intros Hx Hst. destruct s as [sp|]; [|reflexivity].
  destruct s2 as [sp2|]; [|apply store_None_inv in Hst as ->; eauto].
  apply store_Some in Hst as (bs2 & Hbs2 & H0 & H1 & H2 & ->).
  apply load_Some in Hx as (bs & Hbs & Ha & Hb & Hc & Hz).
  cbn [slice_len] in *.
  destruct (decide (sp_region sp2 = sp_region sp)) as [Heq|Hne].
  - rewrite Heq in *. assert (bs2 = bs) as -> by congruence.
    erewrite load_intro; [|apply lookup_insert_eq|try lia..].
    2:{ rewrite length_splice; lia. }
    f_equal. apply list_eq. intros i.
    destruct (decide (i < Z.to_nat (sp_len sp))%nat) as [Hi|Hi].
    + rewrite lookup_take_lt, lookup_drop by lia.
      rewrite lookup_splice by lia.
      assert (Hzi : zeros (sp_len sp) !! i = Some x00).
      { unfold zeros. apply lookup_replicate_2. lia. }
      rewrite Hzi. case_decide as Hin.
      * unfold zeros. apply lookup_replicate_2.
        rewrite length_zeros in Hin. lia.
      * rewrite <- Hzi, Hz. now rewrite lookup_take_lt, lookup_drop by lia.
    + rewrite lookup_take_ge by lia. symmetry.
      apply lookup_ge_None. rewrite length_zeros. lia.
  - erewrite load_intro; [|rewrite lookup_insert_ne; eauto|lia..].
    now rewrite <- Hz.
Qed.

Lemma store_dom (h h' : gmap nat (list byte)) (s : Slice) (data : list byte) :
  store h s data = Some h' -> dom h' = dom h.
Proof.
  intros H. destruct s as [sp|]; [|apply store_None_inv in H; now subst].
  apply store_Some in H as (bs & Hbs & _ & _ & _ & ->).
  apply dom_insert_lookup_L. eauto.
Qed.

(** What wiping one registered buffer changes: bytes, and one more record
    of a wipe. *)
Lemma wipe_inner_frame (w : World) (b : BufPtr) :
  objs (wipe_inner w b) = objs w /\
  buffers (wipe_inner w b) = buffers w /\
  dom (heap (wipe_inner w b)) = dom (heap w) /\
  exists evs, trace (wipe_inner w b) = evs ++ trace w /\
              forallb is_wipe evs = true.
Proof.
  unfold wipe_inner. destruct (objs w !! b) as [r|].
  - destruct (writable _ _); [|repeat split; now exists []].
    destruct (store _ _ _) as [h|] eqn:Hst.
    + cbn. repeat split; [eapply store_dom, Hst|].
      now exists [EvWipe (inner r)].
    + repeat split. now exists [].
  - repeat split. now exists [].
Qed.

Lemma wipe_all_frame (l : list BufPtr) (w : World) :
  objs (foldl wipe_inner w l) = objs w /\
  buffers (foldl wipe_inner w l) = buffers w /\
  dom (heap (foldl wipe_inner w l)) = dom (heap w) /\
  exists evs, trace (foldl wipe_inner w l) = evs ++ trace w /\
              forallb is_wipe evs = true.
Proof.
  revert w. induction l as [|a l IH]; intros w; cbn [foldl].
  - repeat split. now exists [].
  - destruct (IH (wipe_inner w a)) as (Ho & Hb & Hd & evs & Ht & Hw).
    destruct (wipe_inner_frame w a) as (Ho' & Hb' & Hd' & evs' & Ht' & Hw').
    repeat split; [congruence..|].
    exists (evs ++ evs'). rewrite Ht, Ht', app_assoc. split; [done|].
    rewrite forallb_app, Hw, Hw'. done.
Qed.

Lemma wipe_inner_loadable (w : World) (b : BufPtr) (s : Slice) :
  is_Some (load (heap w) s) -> is_Some (load (heap (wipe_inner w b)) s).
Proof.
  intros H. unfold wipe_inner. destruct (objs w !! b) as [r|]; [|done].
  destruct (writable _ _); [|done].
  destruct (store _ _ _) as [h|] eqn:Hst; [|done].
  cbn. eapply store_preserves_loadable; eauto.
Qed.

Lemma wipe_inner_keeps_zero (w : World) (b : BufPtr) (s : Slice) :
  load (heap w) s = Some (zeros (slice_len s)) ->
  load (heap (wipe_inner w b)) s = Some (zeros (slice_len s)).
Proof.
  intros H. unfold wipe_inner. destruct (objs w !! b) as [r|]; [|done].
  destruct (writable _ _); [|done].
  destruct (store _ _ _) as [h|] eqn:Hst; [|done].
  cbn. eapply store_zeros_preserves_zero; eauto.
Qed.

Lemma wipe_all_keeps_zero (l : list BufPtr) (w : World) (s : Slice) :
  load (heap w) s = Some (zeros (slice_len s)) ->
  load (heap (foldl wipe_inner w l)) s = Some (zeros (slice_len s)).
Proof.
  revert w. induction l as [|a l IH]; intros w H; cbn [foldl]; [done|].
  apply IH. now apply wipe_inner_keeps_zero.
Qed.

(** Wipes change no protection. *)
Lemma page_mode_wipes (evs t : list Event) (rid : nat) (off : Z) :
  forallb is_wipe evs = true -> page_mode (evs ++ t) rid off = page_mode t rid off.
Proof.
  induction evs as [|e evs IH]; [done|]. cbn [forallb app].
  intros [He Hw]%andb_true_iff. destruct e; try discriminate He.
  cbn [page_mode]. now apply IH.
Qed.

Lemma writable_wipes (evs t : list Event) (s : Slice) :
  forallb is_wipe evs = true -> writable (evs ++ t) s = writable t s.
Proof.
  intros Hw. destruct s as [sp|]; [|done]. unfold writable.
  generalize (sp_off sp). induction (Z.to_nat (sp_len sp)) as [|n IH]; [done|].
  intros off. cbn [all_writable]. now rewrite IH, (page_mode_wipes _ _ _ _ Hw).
Qed.

Lemma wipe_inner_writable (w : World) (b : BufPtr) (s : Slice) :
  writable (trace (wipe_inner w b)) s = writable (trace w) s.
Proof.
  destruct (wipe_inner_frame w b) as (_ & _ & _ & evs & -> & Hw).
  now apply writable_wipes.
Qed.

(** The wiping pass records wipes only, and only of views that may be
    written. *)
Lemma wipe_all_trace (l : list BufPtr) (w : World) :
  exists evs, trace (foldl wipe_inner w l) = evs ++ trace w /\
              forallb is_wipe evs = true /\
              forall s, In (EvWipe s) evs -> writable (trace w) s = true.
Proof.
  revert w. induction l as [|a l IH]; intros w; cbn [foldl].
  - exists []. repeat split. intros s [].
  - destruct (IH (wipe_inner w a)) as (evs & Ht & Hw & Hs).
    assert (Ha : exists evs', trace (wipe_inner w a) = evs' ++ trace w /\
                              forallb is_wipe evs' = true /\
                              forall s, In (EvWipe s) evs' -> writable (trace w) s = true).
    { unfold wipe_inner. destruct (objs w !! a) as [r|].
      2:{ exists []. repeat split. intros s []. }
      destruct (writable (trace w) (inner r)) eqn:Hr.
      2:{ exists []. repeat split. intros s []. }
      destruct (store _ _ _) as [h|].
      2:{ exists []. repeat split. intros s []. }
      exists [EvWipe (inner r)]. repeat split.
      intros s [[= <-]|[]]. exact Hr. }
    destruct Ha as (evs' & Ht' & Hw' & Hs').
    exists (evs ++ evs'). rewrite Ht, Ht', app_assoc. split; [done|].
    split; [rewrite forallb_app, Hw, Hw'; done|].
    intros s [Hin|Hin]%in_app_iff; [|now apply Hs'].
    rewrite <- (wipe_inner_writable w a). now apply Hs.
Qed.

(** After the wiping pass every registered buffer whose inner region could
    still be wiped, being mapped and writable, reads as zero. *)
Lemma wipe_all_wipes (l : list BufPtr) (w : World) (b : BufPtr) (r : Buffer) :
  In b l -> objs w !! b = Some r ->
  is_Some (load (heap w) (inner r)) ->
  writable (trace w) (inner r) = true ->
  load (heap (foldl wipe_inner w l)) (inner r) = Some (zeros (slice_len (inner r))).
Proof.
  revert w. induction l as [|a l IH]; intros w Hin Hb Hld Hwr; [destruct Hin|].
  cbn [foldl]. destruct Hin as [->|Hin].
  - apply wipe_all_keeps_zero.
    unfold wipe_inner. rewrite Hb, Hwr.
    destruct (loadable_store_zeros _ _ Hld) as [h Hst]. rewrite Hst. cbn.
    eapply store_zeros_reads_zero, Hst.
  - apply IH; [done| | |].
    + destruct (wipe_inner_frame w a) as (-> & _). done.
    + now apply wipe_inner_loadable.
    + now rewrite wipe_inner_writable.
Qed.

(** ** The registry as a list *)

Lemma exists_in_In (b : BufPtr) (l : list BufPtr) :
  exists_in b l = true <-> In b l.
Proof.
  induction l as [|v l IH]; cbn; [split; [discriminate|tauto]|].
  destruct (decide (b = v)) as [->|Hne]; [tauto|].
  rewrite IH. split; [tauto|]. intros [->|H]; [done|exact H].
Qed.

Lemma exists_in_false (b : BufPtr) (l : list BufPtr) :
  exists_in b l = false <-> ~ In b l.
Proof. rewrite <- exists_in_In. destruct (exists_in b l); split; congruence. Qed.

Lemma remove_first_absent (b : BufPtr) (l : list BufPtr) :
  ~ In b l -> remove_first b l = l.
Proof.
  induction l as [|v l IH]; cbn; [done|]. intros H.
  destruct (decide (v = b)) as [->|Hne]; [tauto|]. f_equal. apply IH. tauto.
Qed.

Lemma In_remove_first (b x : BufPtr) (l : list BufPtr) :
  NoDup l -> In x (remove_first b l) <-> In x l /\ x <> b.
Proof.
  induction 1 as [|v l Hv Hnd IH]; cbn; [tauto|].
  rewrite list_elem_of_In in Hv.
  destruct (decide (v = b)) as [->|Hne].
  - split; [intros H; split; [tauto|intros ->; tauto]|].
    intros [[<-|H] Hx]; [done|exact H].
  - cbn. rewrite IH. split; [intros [<-|[H Hx]]; tauto|].
    intros [[<-|H] Hx]; tauto.
Qed.

Lemma In_remove_first_weak (b x : BufPtr) (l : list BufPtr) :
  In x (remove_first b l) -> In x l.
Proof.
  induction l as [|v l IH]; cbn; [tauto|].
  destruct (decide (v = b)); cbn; tauto.
Qed.

Lemma NoDup_remove_first (b : BufPtr) (l : list BufPtr) :
  NoDup l -> NoDup (remove_first b l).
Proof.
  induction 1 as [|v l Hv Hnd IH]; cbn; [constructor|].
  destruct (decide (v = b)); [done|]. constructor; [|done].
  rewrite list_elem_of_In in *. intros H. apply Hv.
  eapply In_remove_first_weak, H.
Qed.

(** ** Freeze, Melt and DestroyBuffer: what a call that returns has done *)

Lemma Freeze_Ret (os : OS) (b : BufPtr) (w w' : World) (e : option Error) :
  Freeze os b w = Ret e w' ->
  exists r, objs w !! b = Some r /\
    ((alive r = false /\ e = Some ErrDestroyed /\ w' = w) \/
     (alive r = true /\ mutable r = false /\ e = None /\ w' = w) \/
     (alive r = true /\ mutable r = true /\ e = None /\
      os_accepts os (trace w) (SysProtect (inner r) ReadOnly) = true /\
      w' = mkWorld (heap w) (<[b := set_mutable false r]> (objs w)) (buffers w)
                   (EvSys (SysProtect (inner r) ReadOnly) true :: trace w))).
Proof.
  intros H. destruct (objs w !! b) as [r|] eqn:Hb.
  2:{ unfold Freeze in H.
      erewrite bind_Crash in H by apply deref_dangling, Hb. discriminate H. }
  exists r. split; [done|].
  destruct (alive r) eqn:Hal.
  2:{ rewrite (Freeze_destroyed _ _ _ _ Hb Hal) in H.
      injection H as <- <-. now left. }
  destruct (mutable r) eqn:Hm.
  2:{ rewrite (Freeze_frozen _ _ _ _ Hb Hal Hm) in H.
      injection H as <- <-. right. now left. }
  destruct (os_accepts os (trace w) (SysProtect (inner r) ReadOnly)) eqn:Hp.
  - rewrite (Freeze_mutable _ _ _ _ Hb Hal Hm Hp) in H.
    injection H as <- <-. right. right. done.
  - rewrite (Freeze_refused _ _ _ _ Hb Hal Hm Hp) in H. discriminate H.
Qed.

Lemma Melt_Ret (os : OS) (b : BufPtr) (w w' : World) (e : option Error) :
  Melt os b w = Ret e w' ->
  exists r, objs w !! b = Some r /\
    ((alive r = false /\ e = Some ErrDestroyed /\ w' = w) \/
     (alive r = true /\ mutable r = true /\ e = None /\ w' = w) \/
     (alive r = true /\ mutable r = false /\ e = None /\
      os_accepts os (trace w) (SysProtect (inner r) ReadWrite) = true /\
      w' = mkWorld (heap w) (<[b := set_mutable true r]> (objs w)) (buffers w)
                   (EvSys (SysProtect (inner r) ReadWrite) true :: trace w))).
Proof.
  intros H. destruct (objs w !! b) as [r|] eqn:Hb.
  2:{ unfold Melt in H.
      erewrite bind_Crash in H by apply deref_dangling, Hb. discriminate H. }
  exists r. split; [done|].
  destruct (alive r) eqn:Hal.
  2:{ rewrite (Melt_destroyed _ _ _ _ Hb Hal) in H.
      injection H as <- <-. now left. }
  destruct (mutable r) eqn:Hm.
  { rewrite (Melt_molten _ _ _ _ Hb Hal Hm) in H.
    injection H as <- <-. right. now left. }
  destruct (os_accepts os (trace w) (SysProtect (inner r) ReadWrite)) eqn:Hp.
  - rewrite (Melt_frozen _ _ _ _ Hb Hal Hm Hp) in H.
    injection H as <- <-. right. right. done.
  - rewrite (Melt_refused _ _ _ _ Hb Hal Hm Hp) in H. discriminate H.
Qed.

Lemma crypto_MemClr_Ret (s : Slice) (w w' : World) (u : unit) :
  crypto_MemClr s w = Ret u w' ->
  exists h, store (heap w) s (zeros (slice_len s)) = Some h /\
            w' = log (EvWipe s) (set_heap h w).
Proof.
  unfold crypto_MemClr. intros H.
  apply bind_Ret in H as (u1 & w1 & H1 & H).
  apply write_bytes_Ret in H1 as (h & H1 & ->).
  unfold modify_world in H. injection H as <-. eauto.
Qed.

Lemma memcall_Free_Ret (os : OS) (s : Slice) (w w' : World) (err : option OSError) :
  memcall_Free os s w = Ret err w' ->
  (err = None /\ os_accepts os (trace w) (SysFree s) = true /\
   w' = unmap s (log (EvSys (SysFree s) true) w)) \/
  (err = Some FreeFailed /\ os_accepts os (trace w) (SysFree s) = false).
Proof.
  unfold memcall_Free, syscall, mbind, M_bind.
  destruct (os_accepts os (trace w) (SysFree s)) eqn:Hf; cbn.
  - intros [= <- <-]. left. done.
  - intros [= <- <-]. right. done.
Qed.

Lemma os_grants_destroy_intro (os : OS) (t : list Event) (r : Buffer) :
  os_accepts os t (SysProtect (memory r) ReadWrite) = true ->
  os_accepts os (EvWipe (memory r) :: EvSys (SysProtect (memory r) ReadWrite) true :: t)
             (SysUnlock (inner r)) = true ->
  os_accepts os (EvSys (SysUnlock (inner r)) true :: EvWipe (memory r)
                 :: EvSys (SysProtect (memory r) ReadWrite) true :: t)
             (SysFree (memory r)) = true ->
  os_grants os t (destroy_events r) = true.
Proof.
  intros Hp Hu Hf. unfold destroy_events.
  repeat (apply os_grants_cons; split); cbn [app]; done.
Qed.

Ltac inv_deref_at H Hb :=
  let r := fresh "r" in let w1 := fresh "w" in let H1 := fresh "Hd" in
  apply bind_Ret in H as (r & w1 & H1 & H);
  apply deref_Ret in H1 as [H1 ->]; norm_in H1;
  rewrite Hb in H1; injection H1 as <-; norm_in H.

Lemma DestroyBuffer_Ret (os : OS) (b : BufPtr) (w w' : World) (u : unit) :
  DestroyBuffer os b w = Ret u w' ->
  exists r, objs w !! b = Some r /\
    ((alive r = false /\ w' = w) \/
     (alive r = true /\
      exists x h,
        load (heap w) (canaryval r) = Some x /\
        load (heap w) (canaryref r) = Some x /\
        store (heap w) (memory r) (zeros (slice_len (memory r))) = Some h /\
        os_grants os (trace w) (destroy_events r) = true /\
        w' = after_destroy b r h w)).
Proof.
  intros H. destruct (objs w !! b) as [r|] eqn:Hb.
  2:{ unfold DestroyBuffer in H.
      erewrite bind_Crash in H by apply deref_dangling, Hb. discriminate H. }
  exists r. split; [done|].
  destruct (alive r) eqn:Hal.
  2:{ rewrite (DestroyBuffer_destroyed _ _ _ _ Hb Hal) in H.
      injection H as <-. now left. }
  right. split; [done|].
  pose proof H as H0. unfold DestroyBuffer in H.
  inv_deref_at H Hb. rewrite Hal in H. cbn [negb] in H.
  inv_sys H memcall_Protect_Ret Hp.
  inv_deref_at H Hb.
  inv_step H. apply crypto_Equal_Ret in Hs as (x & y & Hv & Hr & -> & ->).
  norm_in Hv. norm_in Hr.
  inv_step H. destruct (bool_decide (x = y)) eqn:Hxy; [|discriminate Hs].
  apply bool_decide_eq_true in Hxy as <-.
  cbn [negb] in Hs. apply mret_Ret in Hs as [_ <-].
  inv_step H. apply modify_world_Ret in Hs as ->.
  norm_in H.
  inv_deref_at H Hb.
  inv_step H. apply crypto_MemClr_Ret in Hs as (h & Hst & ->).
  norm_in Hst. norm_in H.
  inv_deref_at H Hb. inv_sys H memcall_Unlock_Ret Hu.
  inv_deref_at H Hb.
  inv_step H. apply memcall_Free_Ret in Hs as [(-> & Hf & ->)|(-> & _)].
  2:{ inv_step H. apply check_Ret in Hs as [? _]. discriminate. }
  norm_in Hf. clear H.
  assert (Hos := os_grants_destroy_intro os (trace w) r Hp Hu Hf).
  exists x, h. repeat (split; [done|]).
  rewrite (DestroyBuffer_completes _ _ _ _ _ _ Hb Hal Hv Hr Hst Hos) in H0.
  now injection H0 as <-.
Qed.

(** ** The registry invariant *)

Lemma fresh_object (w : World) : objs w !! fresh (dom (objs w)) = None.
Proof. apply not_elem_of_dom, is_fresh. Qed.

Lemma alive_of_insert (w : World) (b b' : BufPtr) (r : Buffer)
      (h : gmap nat (list byte)) (l : list BufPtr) (t : list Event) :
  alive_of (mkWorld h (<[b := r]> (objs w)) l t) b'
    = if decide (b = b') then alive r else alive_of w b'.
Proof.
  unfold alive_of. cbn [objs]. rewrite lookup_insert. now case_decide.
Qed.

Lemma registry_ok_init : registry_ok init_World.
Proof.
  split; [constructor|]. intros b. unfold alive_of. cbn.
  rewrite lookup_empty. split; [tauto|discriminate].
Qed.

Lemma registry_ok_NewBuffer (P : Z) (os : OS) (size : Z) (w w' : World) res :
  registry_ok w -> NewBuffer P os size w = Ret res w' -> registry_ok w'.
Proof.
  intros [Hnd Hiff] H. destruct res as [ob e].
  apply NewBuffer_Ret in H as [(_ & _ & _ & ->)|(_ & _ & b & w1 & _ & H & ->)];
    [now split|].
  apply NewBuffer_construct_shape in H as (Hb & Hl & r & Ho & Hal & _).
  assert (Hnew : ~ In b (buffers w)).
  { rewrite Hiff. unfold alive_of. rewrite Hb, fresh_object. discriminate. }
  destruct w1 as [h1 o1 l1 t1]. cbn [objs buffers set_buffers heap trace] in *.
  subst o1 l1. unfold set_buffers. cbn [heap objs buffers trace].
  split; cbn [buffers].
  - apply NoDup_app. split; [done|]. split; [|apply NoDup_singleton].
    intros x Hx ->%list_elem_of_singleton. now apply list_elem_of_In in Hx.
  - intros b'. rewrite (alive_of_insert w). rewrite in_app_iff. cbn [In].
    case_decide as Hbb.
    + subst b'. rewrite Hal. tauto.
    + rewrite <- Hiff. split; [intros [H'|[H'|[]]]; [done|congruence]|tauto].
Qed.

Lemma registry_ok_set_mutable (w : World) (b : BufPtr) (r : Buffer) (v : bool)
      (t : list Event) :
  registry_ok w -> objs w !! b = Some r ->
  registry_ok (mkWorld (heap w) (<[b := set_mutable v r]> (objs w)) (buffers w) t).
Proof.
  intros [Hnd Hiff] Hb. split; [done|]. intros b'. cbn [buffers].
  rewrite (alive_of_insert w). rewrite Hiff.
  case_decide as Hbb; [|done]. subst b'. unfold alive_of. now rewrite Hb.
Qed.

Lemma registry_ok_Freeze (os : OS) (b : BufPtr) (w w' : World) e :
  registry_ok w -> Freeze os b w = Ret e w' -> registry_ok w'.
Proof.
  intros Hok H.
  apply Freeze_Ret in H as (r & Hb & [(_ & _ & ->)|[(_ & _ & _ & ->)|(_ & _ & _ & _ & ->)]]);
    [done..|].
  now apply registry_ok_set_mutable.
Qed.

Lemma registry_ok_Melt (os : OS) (b : BufPtr) (w w' : World) e :
  registry_ok w -> Melt os b w = Ret e w' -> registry_ok w'.
Proof.
  intros Hok H.
  apply Melt_Ret in H as (r & Hb & [(_ & _ & ->)|[(_ & _ & _ & ->)|(_ & _ & _ & _ & ->)]]);
    [done..|].
  now apply registry_ok_set_mutable.
Qed.

Lemma registry_ok_DestroyBuffer (os : OS) (b : BufPtr) (w w' : World) u :
  registry_ok w -> DestroyBuffer os b w = Ret u w' -> registry_ok w'.
Proof.
  intros [Hnd Hiff] H.
  apply DestroyBuffer_Ret in H as (r & Hb & [(_ & ->)|(Hal & x & h & _ & _ & _ & _ & ->)]);
    [now split|].
  unfold after_destroy. split; cbn [buffers].
  - now apply NoDup_remove_first.
  - intros b'. rewrite (alive_of_insert w).
    rewrite In_remove_first by done. rewrite Hiff.
    case_decide as Hbb.
    + subst b'. cbn. split; [tauto|discriminate].
    + split; [tauto|]. intros H. split; [done|congruence].
Qed.

Lemma GetBufferState_Ret (b : BufPtr) (w w' : World) (st : BufferState) :
  GetBufferState b w = Ret st w' ->
  w' = w /\ exists r, objs w !! b = Some r /\
                      st = mkBufferState (mutable r) (negb (alive r)).
Proof.
  unfold GetBufferState. intros H.
  apply bind_Ret in H as (r & w1 & H1 & H).
  apply deref_Ret in H1 as [H1 ->].
  apply mret_Ret in H as [<- <-]. eauto.
Qed.

Lemma Reachable_registry_ok (P : Z) (os : OS) (w : World) :
  Reachable P os w -> registry_ok w.
Proof.
  induction 1 as [|w size res w' _ IH H|w b st w' _ IH H|w b e w' _ IH H
                  |w b e w' _ IH H|w b u w' _ IH H|w h _ IH H].
  - apply registry_ok_init.
  - eapply registry_ok_NewBuffer; eauto.
  - apply GetBufferState_Ret in H as [-> _]. done.
  - eapply registry_ok_Freeze; eauto.
  - eapply registry_ok_Melt; eauto.
  - eapply registry_ok_DestroyBuffer; eauto.
  - exact IH.
Qed.

(** ** The registry over backing arrays *)

Section BackingFacts.

Import Backing.

Variable grow : nat -> nat -> nat.

Lemma fresh_array (st : State) (a : nat) :
  is_Some (arrays st !! a) -> fresh (dom (arrays st)) <> a.
Proof.
  intros Ha Heq. apply elem_of_dom in Ha. rewrite <- Heq in Ha.
  now apply is_fresh in Ha.
Qed.

Lemma append_apart (s : option Header) (vs : list Elem) (st : State) (a : nat) :
  is_Some (arrays st !! a) ->
  (forall hd, s = Some hd -> h_arr hd <> a) ->
  arrays (snd (append grow s vs st)) !! a = arrays st !! a /\
  l_list (snd (append grow s vs st)) = l_list st /\
  (forall hd, fst (append grow s vs st) = Some hd -> h_arr hd <> a).
Proof.
  intros Ha Hs. unfold append.
  destruct vs as [|v vs]; [done|].
  destruct s as [hd|].
  - destruct (_ <=? _)%nat.
    + destruct (arrays st !! h_arr hd) as [bs|] eqn:Hbs; [|done].
      cbn [fst snd arrays l_list]. split; [|split; [done|]].
      * apply lookup_insert_ne. now apply Hs.
      * intros hd' [= <-]. cbn. now apply Hs.
    + cbn [fst snd arrays l_list]. split; [|split; [done|]].
      * apply lookup_insert_ne. now apply fresh_array.
      * intros hd' [= <-]. cbn. now apply fresh_array.
  - cbn [fst snd arrays l_list]. split; [|split; [done|]].
    + apply lookup_insert_ne. now apply fresh_array.
    + intros hd' [= <-]. cbn. now apply fresh_array.
Qed.

Lemma Add_apart (b : BufPtr) (st : State) (a : nat) :
  apart a st ->
  apart a (Add grow b st) /\ arrays (Add grow b st) !! a = arrays st !! a.
Proof.
  intros [Ha Hl]. unfold Add.
  destruct (append_apart (l_list st) [Some b] st a Ha Hl) as (H1 & H2 & H3).
  destruct (append grow (l_list st) [Some b] st) as [s st1].
  cbn [fst snd] in *. unfold apart, set_list. cbn [arrays l_list].
  rewrite H1. split; [|done]. split; [done|]. exact H3.
Qed.

Lemma Remove_apart (b : BufPtr) (st : State) (a : nat) :
  apart a st ->
  apart a (Remove grow b st) /\ arrays (Remove grow b st) !! a = arrays st !! a.
Proof.
  intros Hap. unfold Remove.
  destruct (l_list st) as [hd|] eqn:Hhd; [|done].
  destruct (find_index _ _) as [i|]; [|done].
  destruct Hap as [Ha Hl].
  set (vs := read st (Some (suffix hd (i + 1)))).
  assert (Hp : forall hd', Some (prefix hd i) = Some hd' -> h_arr hd' <> a).
  { intros hd' [= <-]. cbn. now apply Hl. }
  destruct (append_apart (Some (prefix hd i)) vs st a Ha Hp) as (H1 & H2 & H3).
  destruct (append grow (Some (prefix hd i)) vs st) as [s st1].
  cbn [fst snd] in *. unfold apart, set_list. cbn [arrays l_list].
  rewrite H1. split; [|done]. split; [done|]. exact H3.
Qed.

Lemma copy_other (dst : Header) (src : option Header) (st : State) (a : nat) :
  h_arr dst <> a -> arrays (copy dst src st) !! a = arrays st !! a.
Proof.
  intros Hne. unfold copy. destruct (arrays st !! h_arr dst); [|done].
  cbn [arrays]. now apply lookup_insert_ne.
Qed.

Lemma Empty_apart (st : State) (a : nat) :
  apart a st ->
  apart a (snd (Empty st)) /\ arrays (snd (Empty st)) !! a = arrays st !! a.
Proof.
  intros [Ha Hl]. unfold Empty, make. cbn [fst snd set_list arrays l_list].
  assert (Hf := fresh_array st a Ha).
  assert (Hk : arrays
                 (copy (mkHeader (fresh (dom (arrays st))) 0 (len (l_list st))
                                 (len (l_list st)))
                       (l_list st)
                       (mkState (<[fresh (dom (arrays st)) :=
                                     replicate (len (l_list st)) None]> (arrays st))
                                (l_list st))) !! a = arrays st !! a).
  { rewrite copy_other by done. cbn [arrays]. now apply lookup_insert_ne. }
  unfold apart, set_list. cbn [arrays l_list]. rewrite Hk.
  split; [split; [done|]|done]. intros hd [=].
Qed.

Lemma run_apart (c : Call) (st : State) (a : nat) :
  apart a st ->
  apart a (run grow c st) /\ arrays (run grow c st) !! a = arrays st !! a.
Proof.
  destruct c as [b|b|]; cbn [run].
  - apply Add_apart.
  - apply Remove_apart.
  - apply Empty_apart.
Qed.

Lemma runs_apart (cs : list Call) (st : State) (a : nat) :
  apart a st ->
  arrays (foldl (fun s c => run grow c s) st cs) !! a = arrays st !! a.
Proof.
  revert st. induction cs as [|c cs IH]; intros st Hap; cbn [foldl]; [done|].
  destruct (run_apart c st a Hap) as [Hap' Heq].
  rewrite IH by done. exact Heq.
Qed.

(** What Empty returns is a view of a backing array that did not exist
    before, and the registry is left with no backing array at all. *)
Lemma Empty_fresh (st : State) :
  exists hd, fst (Empty st) = Some hd /\
             h_arr hd = fresh (dom (arrays st)) /\
             h_off hd = 0%nat /\ h_len hd = len (l_list st) /\
             l_list (snd (Empty st)) = None /\
             is_Some (arrays (snd (Empty st)) !! h_arr hd).
Proof.
  unfold Empty, make. cbn [fst snd set_list l_list arrays].
  eexists. split; [reflexivity|]. cbn [h_arr h_off h_len].
  repeat (split; [done|]).
  unfold copy. cbn [arrays h_arr]. rewrite lookup_insert_eq.
  cbn [arrays]. rewrite lookup_insert_eq. eauto.
Qed.

End BackingFacts.

(** ** The list of section [BufferList] is what the slices show *)

Section BackingRefines.

Import Backing.

Variable grow : nat -> nat -> nat.

Lemma read_Some (st : State) (hd : Header) (a : list Elem) :
  arrays st !! h_arr hd = Some a ->
  read st (Some hd) = take (h_len hd) (drop (h_off hd) a).
Proof. intros Ha. unfold read. now rewrite Ha. Qed.

Lemma read_length (st : State) (hd : Header) (a : list Elem) :
  arrays st !! h_arr hd = Some a ->
  (h_off hd + h_len hd <= length a)%nat ->
  length (read st (Some hd)) = h_len hd.
Proof.
  intros Ha Hb. rewrite (read_Some _ _ _ Ha), length_take, length_drop. lia.
Qed.

Lemma new_cap_ge (old needed : nat) : (needed <= new_cap grow old needed)%nat.
Proof. unfold new_cap. lia. Qed.

(** [append] shows the old elements followed by the new ones, and returns a
    header that lies inside its backing array. *)
Lemma append_read (hd : Header) (vs : list Elem) (st : State) (a : list Elem) :
  arrays st !! h_arr hd = Some a ->
  (h_len hd <= h_cap hd)%nat -> (h_off hd + h_cap hd <= length a)%nat ->
  let s' := fst (append grow (Some hd) vs st) in
  let st' := snd (append grow (Some hd) vs st) in
  read st' s' = read st (Some hd) ++ vs /\
  exists hd' a', s' = Some hd' /\ arrays st' !! h_arr hd' = Some a' /\
                 (h_len hd' <= h_cap hd')%nat /\
                 (h_off hd' + h_cap hd' <= length a')%nat.
Proof.
  intros Ha Hlen Hcap. cbv zeta. unfold append.
  destruct vs as [|v vs].
  { cbn [fst snd]. rewrite app_nil_r. eauto 10. }
  set (ws := v :: vs).
  destruct (_ <=? _)%nat eqn:Hfit.
  - apply Nat.leb_le in Hfit. rewrite Ha. cbn [fst snd].
    split.
    + erewrite read_Some by (cbn [arrays h_arr]; apply lookup_insert_eq).
      rewrite (read_Some _ _ _ Ha). cbn [h_off h_len].
      apply list_eq. intros i.
      destruct (decide (i < h_len hd + length ws)%nat) as [Hi|Hi].
      * rewrite lookup_take_lt, lookup_drop by lia.
        rewrite lookup_splice by lia.
        destruct (decide (i < h_len hd)%nat) as [Hi'|Hi'].
        -- rewrite lookup_app_l by (rewrite length_take, length_drop; lia).
           rewrite lookup_take_lt, lookup_drop by lia.
           case_decide; [lia|done].
        -- rewrite lookup_app_r by (rewrite length_take, length_drop; lia).
           rewrite length_take, length_drop.
           case_decide; [|lia]. f_equal. lia.
      * rewrite lookup_take_ge by lia. symmetry. apply lookup_ge_None.
        rewrite length_app, length_take, length_drop. lia.
    + eexists _, _. split; [reflexivity|]. cbn [arrays h_arr h_off h_len h_cap].
      split; [apply lookup_insert_eq|]. rewrite length_splice by lia. lia.
  - apply Nat.leb_gt in Hfit. cbn [fst snd].
    pose proof (new_cap_ge (h_cap hd) (h_len hd + length ws)) as Hc.
    assert (Hrl := read_length st hd a Ha ltac:(lia)).
    split.
    + erewrite read_Some by (cbn [arrays h_arr]; apply lookup_insert_eq).
      cbn [h_off h_len]. rewrite drop_0.
      rewrite app_assoc, take_app_length'; [done|].
      rewrite length_app. lia.
    + eexists _, _. split; [reflexivity|]. cbn [arrays h_arr h_off h_len h_cap].
      split; [apply lookup_insert_eq|]. split; [lia|].
      rewrite !length_app, length_replicate. lia.
Qed.

Lemma append_nil_read (vs : list Elem) (st : State) :
  let s' := fst (append grow None vs st) in
  let st' := snd (append grow None vs st) in
  read st' s' = vs /\
  (vs <> [] ->
   exists hd' a', s' = Some hd' /\ arrays st' !! h_arr hd' = Some a' /\
                  (h_len hd' <= h_cap hd')%nat /\
                  (h_off hd' + h_cap hd' <= length a')%nat).
Proof.
  cbv zeta. unfold append. destruct vs as [|v vs]; [done|].
  set (ws := v :: vs). cbn [fst snd].
  pose proof (new_cap_ge 0 (length ws)) as Hc.
  split.
  - erewrite read_Some by (cbn [arrays h_arr]; apply lookup_insert_eq).
    cbn [h_off h_len]. rewrite drop_0.
    now rewrite take_app_length.
  - intros _. eexists _, _. split; [reflexivity|]. cbn [arrays h_arr h_off h_len h_cap].
    split; [apply lookup_insert_eq|]. split; [lia|].
    rewrite !length_app, length_replicate. lia.
Qed.

(** Add appends. *)
Lemma Add_contents (b : BufPtr) (st : State) :
  wf st -> contents (Add grow b st) = contents st ++ [Some b] /\ wf (Add grow b st).
Proof.
  unfold wf, contents, Add. intros Hwf.
  destruct (l_list st) as [hd|] eqn:Hhd.
  - destruct Hwf as (a & Ha & Hlen & Hcap).
    destruct (append_read hd [Some b] st a Ha Hlen Hcap)
      as (Hr & hd' & a' & Hs & Ha' & Hlen' & Hcap').
    destruct (append grow (Some hd) [Some b] st) as [s st1].
    cbn [fst snd] in *. subst s. unfold set_list. cbn [l_list arrays].
    split; [exact Hr|]. eauto.
  - destruct (append_nil_read [Some b] st) as (Hr & Hex).
    destruct (Hex ltac:(done)) as (hd' & a' & Hs & Ha' & Hlen' & Hcap').
    destruct (append grow None [Some b] st) as [s st1].
    cbn [fst snd] in *. subst s. unfold set_list. cbn [l_list arrays].
    split; [exact Hr|]. eauto.
Qed.

Lemma find_index_bound (b : Elem) (l : list Elem) (i : nat) :
  find_index b l = Some i -> (i < length l)%nat.
Proof.
  revert i. induction l as [|v l IH]; intros i; cbn; [discriminate|].
  destruct (decide (v = b)); [intros [= <-]; lia|].
  destruct (find_index b l) as [j|]; [|discriminate].
  intros [= <-]. specialize (IH j eq_refl). lia.
Qed.

(** Cutting out the element the loop of Remove stops at is
    [remove_first]. *)
Lemma find_index_remove_first (b : BufPtr) (l : list BufPtr) :
  match find_index (Some b) (Some <$> l) with
  | Some i => take i (Some <$> l) ++ drop (S i) (Some <$> l)
              = Some <$> remove_first b l
  | None => remove_first b l = l
  end.
Proof.
  induction l as [|v l IH]; cbn; [done|].
  repeat case_decide; simplify_eq; [now rewrite drop_0|].
  destruct (find_index (Some b) (Some <$> l)) as [i|]; cbn.
  - now rewrite IH.
  - now rewrite IH.
Qed.

Lemma find_index_exists_in (b : BufPtr) (l : list BufPtr) :
  match find_index (Some b) (Some <$> l) with
  | Some _ => true
  | None => false
  end = exists_in b l.
Proof.
  induction l as [|v l IH]; cbn; [done|].
  repeat case_decide; simplify_eq; [done|]. rewrite <- IH.
  now destruct (find_index (Some b) (Some <$> l)).
Qed.

(** Remove cuts out the first occurrence. *)
Lemma Remove_contents (b : BufPtr) (st : State) (l : list BufPtr) :
  wf st -> contents st = Some <$> l ->
  contents (Remove grow b st) = Some <$> remove_first b l /\ wf (Remove grow b st).
Proof.
  unfold wf, contents, Remove. intros Hwf Hl.
  destruct (l_list st) as [hd|] eqn:Hhd.
  2:{ rewrite Hhd. cbn [read] in *. destruct l; [done|discriminate]. }
  destruct Hwf as (a & Ha & Hlen & Hcap).
  pose proof (find_index_remove_first b l) as Hfr. rewrite <- Hl in Hfr.
  destruct (find_index (Some b) (read st (Some hd))) as [i|] eqn:Hfi.
  2:{ rewrite Hhd, Hfr. split; [done|]. eauto. }
  assert (Hi := find_index_bound _ _ _ Hfi).
  rewrite (read_length st hd a Ha) in Hi by lia.
  assert (Hsuf : read st (Some (suffix hd (i + 1))) = drop (S i) (read st (Some hd))).
  { cbn [read suffix h_arr h_off h_len]. rewrite Ha.
    rewrite skipn_firstn_comm, drop_drop. do 2 f_equal; lia. }
  assert (Hpre : read st (Some (prefix hd i)) = take i (read st (Some hd))).
  { cbn [read prefix h_arr h_off h_len]. rewrite Ha.
    rewrite take_take. f_equal. lia. }
  destruct (append_read (prefix hd i) (read st (Some (suffix hd (i + 1)))) st a)
    as (Hr & hd' & a' & Hs & Ha' & Hlen' & Hcap'); cbn [prefix h_arr h_off h_len h_cap];
    [done|lia|lia|].
  destruct (append grow (Some (prefix hd i)) _ st) as [s st1].
  cbn [fst snd] in *. subst s. unfold set_list. cbn [l_list arrays].
  split; [|eauto]. etransitivity; [exact Hr|]. rewrite Hpre, Hsuf. exact Hfr.
Qed.

(** Exists is membership. *)
Lemma Exists_contents (b : BufPtr) (st : State) (l : list BufPtr) :
  contents st = Some <$> l -> Exists b st = exists_in b l.
Proof.
  unfold Exists, contents. intros ->. apply find_index_exists_in.
Qed.

Lemma copy_arrays (dst : Header) (src : option Header) (st : State) (a : list Elem) :
  arrays st !! h_arr dst = Some a ->
  arrays (copy dst src st)
    = <[h_arr dst := splice a (h_off dst)
                       (take (Nat.min (h_len dst) (len src)) (read st src))]>
        (arrays st).
Proof. intros Ha. unfold copy. now rewrite Ha. Qed.

Lemma read_insert_other (m : gmap nat (list Elem)) (l : option Header)
      (id : nat) (v : list Elem) (hd : Header) :
  id <> h_arr hd ->
  read (mkState (<[id := v]> m) l) (Some hd) = read (mkState m l) (Some hd).
Proof. intros Hne. unfold read. cbn [arrays]. now rewrite lookup_insert_ne. Qed.

(** Empty hands out the elements and leaves none. *)
Lemma Empty_contents (st : State) :
  wf st ->
  read (snd (Empty st)) (fst (Empty st)) = contents st /\
  contents (snd (Empty st)) = [] /\ wf (snd (Empty st)).
Proof.
  intros Hwf. unfold Empty, make. cbn [fst snd].
  split; [|done].
  set (id := fresh (dom (arrays st))).
  set (n := len (l_list st)).
  set (st1 := mkState (<[id := replicate n None]> (arrays st)) (l_list st)).
  set (hdr := mkHeader id 0 n n).
  assert (Hid : arrays st1 !! h_arr hdr = Some (replicate n None))
    by apply lookup_insert_eq.
  assert (Hsrc : read st1 (l_list st1) = contents st /\ length (contents st) = n).
  { unfold contents, wf in *. subst n. cbn [l_list st1].
    destruct (l_list st) as [hd|] eqn:Hhd; [|done].
    destruct Hwf as (a & Ha & Hlen & Hcap).
    split; [|apply (read_length st hd a Ha); lia].
    unfold st1. rewrite read_insert_other.
    - unfold read. cbn [arrays]. done.
    - apply fresh_array. rewrite Ha. eauto. }
  destruct Hsrc as [Hsrc Hn].
  erewrite read_Some.
  2:{ unfold set_list. cbn [arrays]. rewrite (copy_arrays _ _ _ _ Hid).
      apply lookup_insert_eq. }
  rewrite Hsrc. cbn [hdr h_off h_len l_list st1]. fold n.
  rewrite Nat.min_id, drop_0. rewrite (take_ge (contents st)) by lia.
  unfold splice. cbn [take app]. rewrite Nat.add_0_l, Hn.
  rewrite drop_ge by (rewrite length_replicate; lia).
  rewrite app_nil_r. apply take_ge. lia.
Qed.

End BackingRefines.

(** ** NewBuffer returns when the operating system goes along *)

Lemma elem_addr_intro (sp : Span) (i : Z) (w : World) :
  0 <= i < sp_len sp ->
  elem_addr (Some sp) i w = Ret (mkPtr (sp_region sp) (sp_off sp + i)) w.
Proof.
  intros H. unfold elem_addr.
  destruct (0 <=? i) eqn:H0; [|lia]. destruct (i <? sp_len sp) eqn:H1; [|lia].
  reflexivity.
Qed.

Lemma memcall_Alloc_ok (os : OS) (n : Z) (w : World) :
  0 <= n -> os_accepts os (trace w) (SysAlloc n) = true ->
  memcall_Alloc os n w
    = Ret (Some (mkSpan (fresh (dom (heap w))) 0 n), None)
          (log (EvSys (SysAlloc n) true)
               (set_heap (<[fresh (dom (heap w)) := zeros n]> (heap w)) w)).
Proof.
  intros Hn Hos. unfold memcall_Alloc. rewrite Hos.
  destruct (0 <=? n) eqn:H0; [reflexivity|lia].
Qed.

Lemma memcall_Lock_ok (os : OS) (s : Slice) (w : World) :
  os_accepts os (trace w) (SysLock s) = true ->
  memcall_Lock os s w = Ret None (log (EvSys (SysLock s) true) w).
Proof. intros H. unfold memcall_Lock, syscall, mbind, M_bind. now rewrite H. Qed.

Lemma rand_Read_ok (os : OS) (s : Slice) (w : World) (h : gmap nat (list byte)) :
  os_accepts os (trace w) (SysRand (slice_len s)) = true ->
  store (heap w) s (map (os_random os (trace w)) (seq 0 (Z.to_nat (slice_len s)))) = Some h ->
  rand_Read os s w = Ret None (set_heap h (log (EvSys (SysRand (slice_len s)) true) w)).
Proof.
  intros Hos Hst. unfold rand_Read, get_world, syscall, write_bytes, mbind, M_bind.
  rewrite Hos. cbn [heap log]. now rewrite Hst.
Qed.

Lemma crypto_Copy_intro (dst src : Slice) (w : World) (x : list byte) (h : gmap nat (list byte)) :
  load (heap w) src = Some x ->
  store (heap w) dst (take (Z.to_nat (Z.min (slice_len dst) (slice_len src))) x) = Some h ->
  crypto_Copy dst src w = Ret tt (set_heap h w).
Proof.
  intros Hl Hs. unfold crypto_Copy, read_bytes, write_bytes, mbind, M_bind.
  now rewrite Hl, Hs.
Qed.

Lemma os_grants_construct (os : OS) (t : list Event) (P L : Z) (rid : nat) :
  os_grants os t (construct_events P L rid) = true ->
  os_accepts os t (SysAlloc (2 * P + L)) = true /\
  os_accepts os (EvSys (SysAlloc (2 * P + L)) true :: t)
             (SysLock (Some (mkSpan rid P L))) = true /\
  os_accepts os (EvSys (SysLock (Some (mkSpan rid P L))) true
                 :: EvSys (SysAlloc (2 * P + L)) true :: t) (SysRand 32) = true /\
  os_accepts os (EvSys (SysRand 32) true
                 :: EvSys (SysLock (Some (mkSpan rid P L))) true
                 :: EvSys (SysAlloc (2 * P + L)) true :: t)
             (SysProtect (Some (mkSpan rid 0 P)) NoAccess) = true /\
  os_accepts os (EvSys (SysProtect (Some (mkSpan rid 0 P)) NoAccess) true
                 :: EvSys (SysRand 32) true
                 :: EvSys (SysLock (Some (mkSpan rid P L))) true
                 :: EvSys (SysAlloc (2 * P + L)) true :: t)
             (SysProtect (Some (mkSpan rid (P + L) P)) NoAccess) = true.
Proof.
  unfold construct_events. intros H.
  apply os_grants_cons in H as [H H5].
  apply os_grants_cons in H as [H H4].
  apply os_grants_cons in H as [H H3].
  apply os_grants_cons in H as [H H2].
  apply os_grants_cons in H as [_ H1].
  cbn [app] in *. done.
Qed.

Ltac fields :=
  cbn [memory inner Data preguard postguard canaryval canaryref alive mutable
       set_memory set_inner set_Data set_preguard set_postguard set_canaryval
       set_canaryref set_alive set_mutable zero_Buffer getBytes
       sp_region sp_off sp_len p_region p_off slice_len].

Ltac step_deref :=
  erewrite bind_Ret_intro
    by (apply deref_intro; simpl_world; apply lookup_insert_eq);
  simpl_world; fields.

Ltac step_elem :=
  erewrite bind_Ret_intro
    by (apply elem_addr_intro; cbn [sp_len]; lia);
  simpl_world; fields.

Lemma NewBuffer_construct_returns (P : Z) (os : OS) (size : Z) (w : World) :
  32 <= P < 2 ^ 32 -> 1 <= size ->
  2 * P + roundUp (size + 32) P <= int_max ->
  os_grants os (trace w)
            (construct_events P (roundUp (size + 32) P) (fresh (dom (heap w)))) = true ->
  exists w', NewBuffer_construct P os size w = Ret (fresh (dom (objs w))) w'.
Proof.
  intros HP Hsz Hmax Hos.
  pose proof (roundUp_bounds (size + 32) P ltac:(lia)) as HL.
  apply os_grants_construct in Hos as (H1 & H2 & H3 & H4 & H5).
  unfold NewBuffer_construct, roundToPageSize, int_add, int_sub, int_mul.
  rewrite !(wrap_int_id (size + 32)) by int_range.
  set (L := roundUp (size + 32) P) in *.
  rewrite !(wrap_int_id L) by int_range.
  rewrite !(wrap_int_id (2 * P)) by int_range.
  rewrite !(wrap_int_id (2 * P + L)) by int_range.
  rewrite !(wrap_int_id (P + L)) by int_range.
  rewrite !(wrap_int_id (P + L - size)) by int_range.
  rewrite !(wrap_int_id (P + L - size - 32)) by int_range.
  rewrite !(wrap_int_id (P - 32)) by int_range.
  set (bid := fresh (dom (objs w))).
  set (rid := fresh (dom (heap w))) in *.
  step ltac:(reflexivity).
  step ltac:(apply memcall_Alloc_ok; [lia|exact H1]).
  step_assign. step ltac:(apply check_None_intro).
  do 6 (step_deref; step_elem; step_assign).
  rewrite !Z.add_0_l.
  step_deref. step ltac:(apply memcall_Lock_ok; exact H2).
  step ltac:(apply check_None_intro).
  step_deref.
  set (rnd := map (os_random os (EvSys (SysLock (Some (mkSpan rid P L))) true
                                 :: EvSys (SysAlloc (2 * P + L)) true :: trace w))
                  (seq 0 (Z.to_nat 32))).
  assert (Hrl : length rnd = 32%nat).
  { subst rnd. now rewrite length_map, length_seq. }
  assert (Hzl := length_zeros (2 * P + L)).
  erewrite bind_Ret_intro.
  2:{ apply rand_Read_ok; simpl_world; fields; [exact H3|].
      apply store_intro with (bs := zeros (2 * P + L)); fields;
        [apply lookup_insert_eq|lia|rewrite Hzl; lia|].
      rewrite length_map, length_seq. lia. }
  fold rnd.
  simpl_world; fields. rewrite insert_insert_eq.
  step ltac:(apply check_None_intro).
  step_deref.
  set (bs1 := splice (zeros (2 * P + L)) (Z.to_nat (P - 32)) rnd).
  assert (Hl1 : length bs1 = Z.to_nat (2 * P + L)).
  { subst bs1. rewrite length_splice; lia. }
  erewrite bind_Ret_intro.
  2:{ eapply crypto_Copy_intro; simpl_world; fields.
      - apply load_intro with (bs := bs1); fields;
          [apply lookup_insert_eq|lia..].
      - apply store_intro with (bs := bs1); fields;
          [apply lookup_insert_eq|try lia..].
        rewrite length_take. lia. }
  simpl_world; fields. rewrite insert_insert_eq.
  step_deref. step ltac:(apply memcall_Protect_ok; exact H4).
  step ltac:(apply check_None_intro).
  step_deref. step ltac:(apply memcall_Protect_ok; exact H5).
  step ltac:(apply check_None_intro).
  step_assign. step_assign.
  eexists. reflexivity.
Qed.

Lemma NewBuffer_returns (P : Z) (os : OS) (size : Z) (w : World) :
  32 <= P < 2 ^ 32 -> 1 <= size ->
  2 * P + roundUp (size + 32) P <= int_max ->
  os_grants os (trace w)
            (construct_events P (roundUp (size + 32) P) (fresh (dom (heap w)))) = true ->
  exists w', NewBuffer P os size w = Ret (Some (fresh (dom (objs w))), None) w'.
Proof.
  intros HP Hsz Hmax Hos.
  destruct (NewBuffer_construct_returns P os size w HP Hsz Hmax Hos) as [w1 H].
  unfold NewBuffer. destruct (size <? 1) eqn:Hlt; [lia|].
  rewrite (bind_Ret_intro _ _ _ _ _ H). eexists. reflexivity.
Qed.

Lemma Freeze_alive_Ret (os : OS) (b : BufPtr) (w w' : World) (r : Buffer)
      (e : option Error) :
  objs w !! b = Some r -> alive r = true ->
  Freeze os b w = Ret e w' ->
  e = None /\ mutable_of w' b = false /\ alive_of w' b = true /\
  (mutable r = false -> w' = w) /\
  Freeze os b w' = Ret None w'.
Proof.
  intros Hb Hal H.
  apply Freeze_Ret in H
    as (r' & Hb' & [(Hal' & _)|[(_ & Hm & -> & ->)|(_ & Hm & -> & _ & ->)]]);
    rewrite Hb in Hb'; injection Hb' as <-; [congruence| |].
  - unfold mutable_of, alive_of. rewrite Hb.
    repeat split; [done..|]. now apply (Freeze_frozen os b w r).
  - unfold mutable_of, alive_of. cbn [objs]. rewrite lookup_insert_eq.
    repeat split; [done|congruence|].
    eapply Freeze_frozen; [apply lookup_insert_eq|done..].
Qed.

Lemma Melt_alive_Ret (os : OS) (b : BufPtr) (w w' : World) (r : Buffer)
      (e : option Error) :
  objs w !! b = Some r -> alive r = true ->
  Melt os b w = Ret e w' ->
  e = None /\ mutable_of w' b = true /\ alive_of w' b = true /\
  (mutable r = true -> w' = w) /\
  Melt os b w' = Ret None w'.
Proof.
  intros Hb Hal H.
  apply Melt_Ret in H
    as (r' & Hb' & [(Hal' & _)|[(_ & Hm & -> & ->)|(_ & Hm & -> & _ & ->)]]);
    rewrite Hb in Hb'; injection Hb' as <-; [congruence| |].
  - unfold mutable_of, alive_of. rewrite Hb.
    repeat split; [done..|]. now apply (Melt_molten os b w r).
  - unfold mutable_of, alive_of. cbn [objs]. rewrite lookup_insert_eq.
    repeat split; [done|congruence|].
    eapply Melt_molten; [apply lookup_insert_eq|done..].
Qed.

Lemma wipes_no_handler (evs : list Event) :
  forallb is_wipe evs = true -> List.filter is_handler evs = [].
Proof.
  induction evs as [|e evs IH]; [done|]. cbn [forallb List.filter].
  intros [He Hw]%andb_true_iff. destruct e; try discriminate He.
  cbn [is_handler]. now apply IH.
Qed.

(** * The claims *)

(** ** NewBuffer *)

(** C1.  For every NewBuffer(size) that returns without error: the length of
    Data is size; the length of inner is roundToPageSize(size + 32), the
    least multiple of the page size P not below size + 32, so it is P for
    size = P - 32 and 2P for size = P - 31; memory is the whole of a mapped
    region of 2P + inner_len bytes; preguard is its first P bytes and
    postguard its last P bytes; Data is the last size bytes of inner. *)
Theorem NewBuffer_layout (P : Z) (os : OS) (size : Z) (w w' : World)
        (ob : option BufPtr) :
  0 < P < 2 ^ 32 -> is_int size ->
  NewBuffer P os size w = Ret (ob, None) w' ->
  exists b r rid L,
    ob = Some b /\ objs w' !! b = Some r /\
    slice_len (Data r) = size /\
    slice_len (inner r) = L /\
    L = roundToPageSize P (int_add size 32) /\
    L = roundUp (size + 32) P /\
    (size = P - 32 -> L = P) /\
    (size = P - 31 -> L = 2 * P) /\
    slice_len (memory r) = 2 * P + L /\
    memory r = Some (mkSpan rid 0 (2 * P + L)) /\
    (exists bytes, heap w' !! rid = Some bytes /\
                   Z.of_nat (length bytes) = 2 * P + L) /\
    preguard r = Some (mkSpan rid 0 P) /\
    postguard r = Some (mkSpan rid (2 * P + L - P) P) /\
    inner r = Some (mkSpan rid P L) /\
    size <= L /\
    Data r = Some (mkSpan rid (P + L - size) size).
Proof.
  intros HP Hint H.
  apply NewBuffer_success in H
    as (Hsz & H32 & Hmax & -> & bytes & rnd & -> & Hlen & _); [|done..].
  pose proof (roundUp_bounds (size + 32) P ltac:(lia)) as HL.
  exists (fresh (dom (objs w))), (layout P (roundUp (size + 32) P) size (fresh (dom (heap w)))),
         (fresh (dom (heap w))), (roundUp (size + 32) P).
  cbn [objs heap layout Data inner memory preguard postguard slice_len sp_len].
  rewrite !lookup_insert_eq.
  repeat split; try done.
  - unfold roundToPageSize, int_add.
    rewrite (wrap_int_id (size + 32)) by int_range.
    rewrite wrap_int_id by int_range. done.
  - intros ->. replace (P - 32 + 32) with (1 * P) by lia.
    rewrite roundUp_exact; lia.
  - intros ->. replace (P - 31 + 32) with (1 * P + 1) by lia.
    rewrite roundUp_next; lia.
  - eauto.
  - do 3 f_equal. lia.
  - lia.
Qed.

(** C3.  In every buffer NewBuffer(size) returns, canaryref is the 32 bytes
    at offset P - 32 of the allocation, the last 32 bytes of the preguard
    page; canaryval is the 32 bytes that end where Data begins, at offset
    P + inner_len - size - 32, inside inner; and the two hold the same bytes
    when NewBuffer returns. *)
Theorem NewBuffer_canaries (P : Z) (os : OS) (size : Z) (w w' : World)
        (ob : option BufPtr) :
  0 < P < 2 ^ 32 -> is_int size ->
  NewBuffer P os size w = Ret (ob, None) w' ->
  exists b r rid L rnd,
    ob = Some b /\ objs w' !! b = Some r /\
    memory r = Some (mkSpan rid 0 (2 * P + L)) /\
    preguard r = Some (mkSpan rid 0 P) /\
    inner r = Some (mkSpan rid P L) /\
    Data r = Some (mkSpan rid (P + L - size) size) /\
    canaryref r = Some (mkSpan rid (P - 32) 32) /\
    canaryval r = Some (mkSpan rid (P + L - size - 32) 32) /\
    0 <= P - 32 /\ P <= P + L - size - 32 /\
    length rnd = 32%nat /\
    load (heap w') (canaryval r) = Some rnd /\
    load (heap w') (canaryref r) = Some rnd.
Proof.
  intros HP Hint H.
  apply NewBuffer_success in H
    as (Hsz & H32 & Hmax & -> & bytes & rnd & -> & Hlen & Hrl & Href & Hval);
    [|done..].
  pose proof (roundUp_bounds (size + 32) P ltac:(lia)) as HL.
  exists (fresh (dom (objs w))), (layout P (roundUp (size + 32) P) size (fresh (dom (heap w)))),
         (fresh (dom (heap w))), (roundUp (size + 32) P), rnd.
  cbn [objs heap] in *. rewrite lookup_insert_eq.
  repeat split; try done; lia.
Qed.

(** C7.  NewBuffer(size) with size < 1 returns a nil buffer and
    ErrInvalidLength and leaves the process as it was: nothing is mapped, no
    call is made, the registry and every object are untouched.  A
    NewBuffer that returns an error was called with size < 1, and the error
    is ErrInvalidLength. *)
Theorem NewBuffer_invalid_length (P : Z) (os : OS) (size : Z) (w : World) :
  (size < 1 -> NewBuffer P os size w = Ret (None, Some ErrInvalidLength) w) /\
  (forall ob e w', NewBuffer P os size w = Ret (ob, Some e) w' ->
                   size < 1 /\ e = ErrInvalidLength /\ ob = None /\ w' = w).
Proof.
  split.
  - intros Hs. unfold NewBuffer.
    destruct (size <? 1) eqn:Hlt; [reflexivity|lia].
  - intros ob e w' H.
    apply NewBuffer_Ret in H as [(Hs & -> & [= <-] & ->)|(_ & [=] & _)].
    done.
Qed.

(** C8, as amended.  Within NewBuffer the alive flag of the new buffer is
    set to true before the buffer is added to the registry: in the state in
    which [buffers.Add] is called the flag is already true (and so is
    mutable, set on the line after it), the registry is still what it was
    when NewBuffer was called and does not hold the buffer, and all that is
    left to do is the Add. *)
Theorem NewBuffer_alive_before_Add (P : Z) (os : OS) (size : Z) (w w1 : World)
        (b : BufPtr) :
  1 <= size ->
  NewBuffer_construct P os size w = Ret b w1 ->
  alive_of w1 b = true /\
  mutable_of w1 b = true /\
  buffers w1 = buffers w /\
  (registry_ok w -> ~ In b (buffers w1)) /\
  NewBuffer P os size w = Ret (Some b, None) (set_buffers (buffers w1 ++ [b]) w1).
Proof.
  intros Hsz H. pose proof H as H0.
  apply NewBuffer_construct_shape in H as (Hb & Hl & r & Ho & Hal & Hm).
  repeat split.
  - unfold alive_of. rewrite Ho, lookup_insert_eq. done.
  - unfold mutable_of. rewrite Ho, lookup_insert_eq. done.
  - done.
  - intros [_ Hiff]. rewrite Hl, Hiff. unfold alive_of.
    rewrite Hb, fresh_object. discriminate.
  - unfold NewBuffer. destruct (size <? 1) eqn:Hlt; [lia|].
    rewrite (bind_Ret_intro _ _ _ _ _ H0). reflexivity.
Qed.

(** ** DestroyBuffer *)

(** C2, as amended.  DestroyBuffer on an alive buffer whose canaryval bytes
    differ from its canaryref bytes, when the operating system accepts the
    Protect(memory, ReadWrite) of line 181: the call ends in the panic
    handler, invoked once, with the message that names the failed canary
    verification.  The handler is the last thing that happens, after what
    can still be wiped has been wiped: every registered buffer whose inner
    region is mapped and writable at that moment reads as zero, and nothing
    is wiped that is not writable (the inner region of a frozen buffer is
    left alone).  None of the normal steps has taken place: the registry and
    every object are as before (the buffer is still registered and alive,
    no field is reset), nothing is unmapped, and apart from the opening of
    the region the only events are the wipes of the panic path. *)
Theorem DestroyBuffer_canary_mismatch (os : OS) (b : BufPtr) (w : World)
        (r : Buffer) (x y : list byte) :
  objs w !! b = Some r -> alive r = true ->
  load (heap w) (canaryval r) = Some x ->
  load (heap w) (canaryref r) = Some y ->
  x <> y ->
  os_accepts os (trace w) (SysProtect (memory r) ReadWrite) = true ->
  exists w' wipes,
    DestroyBuffer os b w
      = Fatal (PanicMsg "<memguard::core::buffer> canary verification failed; buffer overflow detected") w' /\
    trace w' = EvHandler (PanicMsg canary_message) :: wipes
               ++ EvSys (SysProtect (memory r) ReadWrite) true :: trace w /\
    forallb is_wipe wipes = true /\
    List.filter is_handler
                (EvHandler (PanicMsg canary_message) :: wipes
                 ++ [EvSys (SysProtect (memory r) ReadWrite) true])
      = [EvHandler (PanicMsg canary_message)] /\
    (forall b' r', In b' (buffers w) -> objs w !! b' = Some r' ->
                   is_Some (load (heap w) (inner r')) ->
                   writable (EvSys (SysProtect (memory r) ReadWrite) true :: trace w)
                            (inner r') = true ->
                   load (heap w') (inner r') = Some (zeros (slice_len (inner r')))) /\
    (forall s, In (EvWipe s) wipes ->
               writable (EvSys (SysProtect (memory r) ReadWrite) true :: trace w) s
               = true) /\
    buffers w' = buffers w /\ objs w' = objs w /\
    dom (heap w') = dom (heap w) /\
    alive_of w' b = true.
Proof.
  intros Hb Hal Hv Hr Hne Hp.
  rewrite (DestroyBuffer_mismatch os b w r x y Hb Hal Hp Hv Hr Hne).
  set (w0 := log (EvSys (SysProtect (memory r) ReadWrite) true) w).
  destruct (wipe_all_frame (buffers w0) w0) as (Ho & Hl & Hd & _).
  destruct (wipe_all_trace (buffers w0) w0) as (wipes & Ht & Hw & Hs).
  exists (at_panic (PanicMsg canary_message) w0), wipes.
  unfold at_panic. cbn [log trace buffers objs heap].
  split; [reflexivity|]. split; [now rewrite Ht|]. split; [done|].
  split.
  { cbn [List.filter is_handler]. f_equal.
    rewrite List.filter_app. cbn [List.filter is_handler].
    now rewrite (wipes_no_handler _ Hw). }
  split.
  { intros b' r' Hin Hb' Hld Hwr.
    exact (wipe_all_wipes (buffers w0) w0 b' r' Hin Hb' Hld Hwr). }
  split; [exact Hs|].
  rewrite Ho, Hl, Hd. repeat split.
  unfold alive_of, log. cbn [objs]. rewrite Ho.
  unfold w0, log. cbn [objs]. now rewrite Hb.
Qed.

(** C4.  DestroyBuffer is idempotent over the whole life of a buffer.
    Whenever DestroyBuffer returns on an alive buffer, alive and mutable are
    false and Data, memory, preguard, postguard, canaryref and canaryval are
    nil, and the handler has not been invoked; called again it returns
    without changing anything, however often, so Destroy(b); ...; Destroy(b)
    leaves the process exactly where a single Destroy(b) leaves it.  And it
    does return when the canary is intact, the buffer's memory is mapped and
    the operating system accepts the three calls. *)
Theorem DestroyBuffer_idempotent (os : OS) (b : BufPtr) (w : World) (r : Buffer) :
  objs w !! b = Some r -> alive r = true ->
  (forall u w1,
      DestroyBuffer os b w = Ret u w1 ->
      exists r1,
        objs w1 !! b = Some r1 /\
        alive r1 = false /\ mutable r1 = false /\
        Data r1 = None /\ memory r1 = None /\ preguard r1 = None /\
        postguard r1 = None /\ canaryref r1 = None /\ canaryval r1 = None /\
        trace w1 = destroy_events r ++ trace w /\
        DestroyBuffer os b w1 = Ret tt w1 /\
        forall n, times (S n) (DestroyBuffer os b) w = Ret tt w1) /\
  (forall x,
      load (heap w) (canaryval r) = Some x ->
      load (heap w) (canaryref r) = Some x ->
      is_Some (load (heap w) (memory r)) ->
      os_grants os (trace w) (destroy_events r) = true ->
      exists w1, DestroyBuffer os b w = Ret tt w1).
Proof.
  intros Hb Hal. split.
  - intros u w1 Hd. destruct u. pose proof Hd as Hd0.
    apply DestroyBuffer_Ret in Hd as (r' & Hb' & [(Hal' & _)|(_ & x & h & _ & _ & _ & _ & ->)]).
    { rewrite Hb in Hb'. injection Hb' as <-. congruence. }
    rewrite Hb in Hb'. injection Hb' as <-.
    exists (destroyed r).
    assert (Hb1 : objs (after_destroy b r h w) !! b = Some (destroyed r))
      by apply lookup_insert_eq.
    assert (Hagain : DestroyBuffer os b (after_destroy b r h w)
                     = Ret tt (after_destroy b r h w))
      by (eapply DestroyBuffer_destroyed; [apply Hb1|reflexivity]).
    repeat (split; [done|]).
    intros n. cbn [times]. rewrite (bind_Ret_intro _ _ _ _ _ Hd0).
    induction n as [|n IH]; [reflexivity|].
    cbn [times]. now rewrite (bind_Ret_intro _ _ _ _ _ Hagain).
  - intros x Hv Hr Hm Hos.
    destruct (loadable_store_zeros _ _ Hm) as [h Hst].
    exists (after_destroy b r h w).
    exact (DestroyBuffer_completes os b w r x h Hb Hal Hv Hr Hst Hos).
Qed.

(** ** Freeze and Melt *)

(** C5, as amended.  On an alive buffer, when the operating system accepts
    the change of protection that Freeze or Melt asks for (none is asked
    for in the mode the buffer is already in), Freeze returns nil and
    leaves mutable false and Melt returns nil and leaves mutable true: they
    return under that condition, and whenever they return it is with nil
    and with the flag so set.  A call in the mode the buffer is already in
    changes nothing at all, so no call is made to the operating system, and
    so does a second call in a row.  On a destroyed buffer both return
    ErrDestroyed and change nothing. *)
Theorem Freeze_Melt_modes (os : OS) (b : BufPtr) (w : World) (r : Buffer) :
  objs w !! b = Some r ->
  (alive r = true ->
   (forall e w', Freeze os b w = Ret e w' ->
                 e = None /\ mutable_of w' b = false /\ alive_of w' b = true /\
                 (mutable r = false -> w' = w) /\
                 Freeze os b w' = Ret None w') /\
   ((mutable r = true ->
     os_accepts os (trace w) (SysProtect (inner r) ReadOnly) = true) ->
    exists w', Freeze os b w = Ret None w' /\ mutable_of w' b = false) /\
   (forall e w', Melt os b w = Ret e w' ->
                 e = None /\ mutable_of w' b = true /\ alive_of w' b = true /\
                 (mutable r = true -> w' = w) /\
                 Melt os b w' = Ret None w') /\
   ((mutable r = false ->
     os_accepts os (trace w) (SysProtect (inner r) ReadWrite) = true) ->
    exists w', Melt os b w = Ret None w' /\ mutable_of w' b = true)) /\
  (alive r = false ->
   Freeze os b w = Ret (Some ErrDestroyed) w /\
   Melt os b w = Ret (Some ErrDestroyed) w).
Proof.
  intros Hb. split.
  - intros Hal. split; [|split; [|split]].
    + intros e w' H. exact (Freeze_alive_Ret os b w w' r e Hb Hal H).
    + intros Hos.
      assert (Hret : exists w', Freeze os b w = Ret None w').
      { destruct (mutable r) eqn:Hm.
        - eexists. apply (Freeze_mutable os b w r Hb Hal Hm (Hos eq_refl)).
        - exists w. now apply (Freeze_frozen os b w r). }
      destruct Hret as [w' H]. exists w'. split; [exact H|].
      now destruct (Freeze_alive_Ret os b w w' r None Hb Hal H) as (_ & Hm' & _).
    + intros e w' H. exact (Melt_alive_Ret os b w w' r e Hb Hal H).
    + intros Hos.
      assert (Hret : exists w', Melt os b w = Ret None w').
      { destruct (mutable r) eqn:Hm.
        - exists w. now apply (Melt_molten os b w r).
        - eexists. apply (Melt_frozen os b w r Hb Hal Hm (Hos eq_refl)). }
      destruct Hret as [w' H]. exists w'. split; [exact H|].
      now destruct (Melt_alive_Ret os b w w' r None Hb Hal H) as (_ & Hm' & _).
  - intros Hal. split.
    + now apply (Freeze_destroyed os b w r).
    + now apply (Melt_destroyed os b w r).
Qed.

(** ** The registry *)

(** C6.  In every state the process is in between completed calls of
    NewBuffer, Freeze, Melt and DestroyBuffer (and GetBufferState), whatever
    was written to mapped memory in between, the registry contains a buffer
    exactly when the buffer's alive flag is true, and Exists answers with
    the flag. *)
Theorem registry_iff_alive (P : Z) (os : OS) (w : World) (b : BufPtr) :
  Reachable P os w ->
  (In b (buffers w) <-> alive_of w b = true) /\
  BufferList_Exists b w = Ret (alive_of w b) w.
Proof.
  intros Hr. apply Reachable_registry_ok in Hr as [_ Hiff].
  split; [apply Hiff|].
  unfold BufferList_Exists, get_world, mbind, M_bind, mret, M_ret. f_equal.
  destruct (alive_of w b) eqn:Hal.
  - now apply exists_in_In, Hiff.
  - apply exists_in_false. rewrite Hiff. congruence.
Qed.

(** C9.  Empty replaces the list of the registry with the empty list and
    returns what the list held, in order; since Add appends, that is the
    order of insertion.  A second Empty right after returns the empty list,
    and after an Empty, Exists is false for every buffer. *)
Theorem Empty_drains (w : World) (l : list BufPtr) (b : BufPtr) :
  BufferList_Empty w = Ret (buffers w) (set_buffers [] w) /\
  (add_all l;; BufferList_Empty) w = Ret (buffers w ++ l) (set_buffers [] w) /\
  (add_all l;; BufferList_Empty) (set_buffers [] w) = Ret l (set_buffers [] w) /\
  BufferList_Empty (set_buffers [] w) = Ret [] (set_buffers [] w) /\
  BufferList_Exists b (set_buffers [] w) = Ret false (set_buffers [] w).
Proof.
  assert (Hadd : forall l' w', (add_all l';; BufferList_Empty) w'
                               = Ret (buffers w' ++ l') (set_buffers [] w')).
  { induction l' as [|v l' IH]; intros w'.
    - cbn. now rewrite app_nil_r.
    - change ((add_all (v :: l');; BufferList_Empty) w')
        with ((add_all l';; BufferList_Empty) (set_buffers (buffers w' ++ [v]) w')).
      rewrite IH. cbn [buffers set_buffers heap objs trace].
      now rewrite <- app_assoc. }
  repeat split; try reflexivity.
  - apply Hadd.
  - rewrite Hadd. reflexivity.
Qed.

(** C10.  The slice Empty returns is a view of a backing array allocated by
    Empty itself, holding the elements the registry held; the registry
    keeps no view of that array, and no later sequence of Add, Remove and
    Empty calls changes what the returned slice shows. *)
Theorem Empty_snapshot_not_aliased (grow : nat -> nat -> nat)
        (st : Backing.State) (calls : list Backing.Call) :
  let snap := fst (Backing.Empty st) in
  let st1 := snd (Backing.Empty st) in
  (exists hd, snap = Some hd /\ (Backing.h_arr hd ∉ dom (Backing.arrays st)) /\
              Backing.apart (Backing.h_arr hd) st1) /\
  (Backing.wf st -> Backing.read st1 snap = Backing.contents st) /\
  Backing.read (foldl (fun s c => Backing.run grow c s) st1 calls) snap
    = Backing.read st1 snap.
Proof.
  cbv zeta.
  destruct (Empty_fresh st) as (hd & Hs & Harr & Hoff & Hlen & Hnil & Hin).
  assert (Hap : Backing.apart (Backing.h_arr hd) (snd (Backing.Empty st))).
  { split; [done|]. intros hd'. rewrite Hnil. discriminate. }
  split; [|split].
  - exists hd. split; [done|]. split; [|done]. rewrite Harr. apply is_fresh.
  - intros Hwf. now apply Empty_contents.
  - rewrite Hs. unfold Backing.read.
    now rewrite (runs_apart grow calls _ _ Hap).
Qed.

(** * The claims on a concrete machine *)

Lemma NewBuffer_layout_witness :
  exists b r rid L,
    Some 0%nat = Some b /\ objs world_edge !! b = Some r /\
    slice_len (Data r) = 4064 /\
    slice_len (inner r) = L /\
    L = roundToPageSize 4096 (int_add 4064 32) /\
    L = roundUp (4064 + 32) 4096 /\
    (4064 = 4096 - 32 -> L = 4096) /\
    (4064 = 4096 - 31 -> L = 2 * 4096) /\
    slice_len (memory r) = 2 * 4096 + L /\
    memory r = Some (mkSpan rid 0 (2 * 4096 + L)) /\
    (exists bytes, heap world_edge !! rid = Some bytes /\
                   Z.of_nat (length bytes) = 2 * 4096 + L) /\
    preguard r = Some (mkSpan rid 0 4096) /\
    postguard r = Some (mkSpan rid (2 * 4096 + L - 4096) 4096) /\
    inner r = Some (mkSpan rid 4096 L) /\
    4064 <= L /\
    Data r = Some (mkSpan rid (4096 + L - 4064) 4064).
Proof.
  apply (NewBuffer_layout 4096 os_willing 4064 init_World world_edge (Some 0%nat)).
  - lia.
  - unfold is_int, int_min, int_max. lia.
  - vm_compute. reflexivity.
Defined.

Lemma NewBuffer_canaries_witness :
  exists b r rid L rnd,
    Some 0%nat = Some b /\ objs world_one !! b = Some r /\
    memory r = Some (mkSpan rid 0 (2 * 4096 + L)) /\
    preguard r = Some (mkSpan rid 0 4096) /\
    inner r = Some (mkSpan rid 4096 L) /\
    Data r = Some (mkSpan rid (4096 + L - 8) 8) /\
    canaryref r = Some (mkSpan rid (4096 - 32) 32) /\
    canaryval r = Some (mkSpan rid (4096 + L - 8 - 32) 32) /\
    0 <= 4096 - 32 /\ 4096 <= 4096 + L - 8 - 32 /\
    length rnd = 32%nat /\
    load (heap world_one) (canaryval r) = Some rnd /\
    load (heap world_one) (canaryref r) = Some rnd.
Proof.
  apply (NewBuffer_canaries 4096 os_willing 8 init_World world_one (Some 0%nat)).
  - lia.
  - unfold is_int, int_min, int_max. lia.
  - vm_compute. reflexivity.
Defined.

Lemma NewBuffer_invalid_length_witness :
  NewBuffer 4096 os_willing 0 world_one = Ret (None, Some ErrInvalidLength) world_one.
Proof.
  apply (proj1 (NewBuffer_invalid_length 4096 os_willing 0 world_one)). lia.
Defined.

(** C8 as the claim has it: the buffer would reach the registry with its
    alive flag still false.  On the first NewBuffer(8) of a process the flag
    is true when [buffers.Add] is called. *)
Lemma NewBuffer_Add_before_alive_counterexample :
  ~ (forall b w1,
        NewBuffer_construct 4096 os_willing 8 init_World = Ret b w1 ->
        alive_of w1 b = false).
Proof.
  intros H. specialize (H 0%nat world_built).
  assert (Hrun : NewBuffer_construct 4096 os_willing 8 init_World = Ret 0%nat world_built)
    by (vm_compute; reflexivity).
  specialize (H Hrun). vm_compute in H. discriminate H.
Qed.

Lemma NewBuffer_alive_before_Add_witness :
  alive_of world_built 0%nat = true /\
  mutable_of world_built 0%nat = true /\
  buffers world_built = buffers init_World /\
  (registry_ok init_World -> ~ In 0%nat (buffers world_built)) /\
  NewBuffer 4096 os_willing 8 init_World
    = Ret (Some 0%nat, None) (set_buffers (buffers world_built ++ [0%nat]) world_built).
Proof.
  apply (NewBuffer_alive_before_Add 4096 os_willing 8 init_World world_built 0%nat).
  - lia.
  - vm_compute. reflexivity.
Defined.

Lemma DestroyBuffer_canary_mismatch_witness :
  exists w' wipes,
    DestroyBuffer os_willing 1%nat world_tampered
      = Fatal (PanicMsg "<memguard::core::buffer> canary verification failed; buffer overflow detected") w' /\
    trace w' = EvHandler (PanicMsg canary_message) :: wipes
               ++ EvSys (SysProtect (memory (layout 4096 4096 8 1)) ReadWrite) true
               :: trace world_tampered /\
    forallb is_wipe wipes = true /\
    List.filter is_handler
                (EvHandler (PanicMsg canary_message) :: wipes
                 ++ [EvSys (SysProtect (memory (layout 4096 4096 8 1)) ReadWrite) true])
      = [EvHandler (PanicMsg canary_message)] /\
    (forall b' r', In b' (buffers world_tampered) ->
                   objs world_tampered !! b' = Some r' ->
                   is_Some (load (heap world_tampered) (inner r')) ->
                   writable (EvSys (SysProtect (memory (layout 4096 4096 8 1)) ReadWrite) true
                             :: trace world_tampered) (inner r') = true ->
                   load (heap w') (inner r') = Some (zeros (slice_len (inner r')))) /\
    (forall s, In (EvWipe s) wipes ->
               writable (EvSys (SysProtect (memory (layout 4096 4096 8 1)) ReadWrite) true
                         :: trace world_tampered) s = true) /\
    buffers w' = buffers world_tampered /\ objs w' = objs world_tampered /\
    dom (heap w') = dom (heap world_tampered) /\
    alive_of w' 1%nat = true.
Proof.
  apply (DestroyBuffer_canary_mismatch os_willing 1%nat world_tampered
           (layout 4096 4096 8 1) (replicate 32 xff) canary_pattern).
  - vm_compute. reflexivity.
  - reflexivity.
  - vm_compute. reflexivity.
  - vm_compute. reflexivity.
  - intros H. vm_compute in H. discriminate H.
  - reflexivity.
Defined.

(** C2 as the claim has it, for every call on an alive buffer whose canaries
    differ.  With the canary of the second buffer overwritten and an
    operating system that refuses to open the region, DestroyBuffer does
    not reach the comparison of the canaries: it panics with the error of
    Protect (lines 181-183), not with the canary message. *)
Lemma DestroyBuffer_canary_mismatch_counterexample :
  ~ (forall (os : OS) (b : BufPtr) (w : World) (r : Buffer) (x y : list byte),
        objs w !! b = Some r -> alive r = true ->
        load (heap w) (canaryval r) = Some x ->
        load (heap w) (canaryref r) = Some y ->
        x <> y ->
        exists w', DestroyBuffer os b w = Fatal (PanicMsg canary_message) w').
Proof.
  intros H.
  destruct (H os_no_protect 1%nat world_tampered (layout 4096 4096 8 1)
              (replicate 32 xff) canary_pattern) as [w' Hw'].
  - vm_compute. reflexivity.
  - reflexivity.
  - vm_compute. reflexivity.
  - vm_compute. reflexivity.
  - intros Heq. vm_compute in Heq. discriminate Heq.
  - vm_compute in Hw'. discriminate Hw'.
Qed.

Lemma DestroyBuffer_idempotent_witness :
  exists w1, DestroyBuffer os_willing 0%nat world_one = Ret tt w1.
Proof.
  apply (proj2 (DestroyBuffer_idempotent os_willing 0%nat world_one
                  (layout 4096 4096 8 0)
                  ltac:(vm_compute; reflexivity) ltac:(reflexivity))
               canary_pattern).
  - vm_compute. reflexivity.
  - vm_compute. reflexivity.
  - eexists. vm_compute. reflexivity.
  - reflexivity.
Defined.

Lemma Freeze_Melt_modes_witness :
  exists w', Freeze os_willing 0%nat world_one = Ret None w' /\
             mutable_of w' 0%nat = false.
Proof.
  apply (proj1 (proj2 (proj1 (Freeze_Melt_modes os_willing 0%nat world_one
                                (layout 4096 4096 8 0)
                                ltac:(vm_compute; reflexivity))
                             ltac:(reflexivity)))).
  reflexivity.
Defined.

(** C5 as the claim has it, for every alive buffer.  On the frozen buffer
    of [world_frozen], with an operating system that refuses to make the
    inner region writable, Melt does not return nil: it panics (lines
    154-156) and the flag stays false. *)
Lemma Freeze_Melt_modes_counterexample :
  ~ (forall (os : OS) (b : BufPtr) (w : World) (r : Buffer),
        objs w !! b = Some r -> alive r = true ->
        (exists w', Freeze os b w = Ret None w' /\ mutable_of w' b = false) /\
        (exists w', Melt os b w = Ret None w' /\ mutable_of w' b = true)).
Proof.
  intros H.
  destruct (H os_no_protect 0%nat world_frozen
              (set_mutable false (layout 4096 4096 8 0))) as [_ [w' [Hw' _]]].
  - vm_compute. reflexivity.
  - reflexivity.
  - vm_compute in Hw'. discriminate Hw'.
Qed.

Lemma registry_iff_alive_witness :
  (In 0%nat (buffers world_one) <-> alive_of world_one 0%nat = true) /\
  BufferList_Exists 0%nat world_one = Ret (alive_of world_one 0%nat) world_one.
Proof.
  apply (registry_iff_alive 4096 os_willing world_one 0%nat).
  apply (reach_NewBuffer 4096 os_willing init_World 8 (Some 0%nat, None)).
  - apply reach_init.
  - vm_compute. reflexivity.
Defined.

Lemma Empty_snapshot_not_aliased_witness :
  Backing.read (snd (Backing.Empty (Backing.Add (fun _ n => n) 7%nat
                                      (Backing.mkState ∅ None))))
               (fst (Backing.Empty (Backing.Add (fun _ n => n) 7%nat
                                      (Backing.mkState ∅ None))))
    = Backing.contents (Backing.Add (fun _ n => n) 7%nat (Backing.mkState ∅ None)).
Proof.
  apply (proj1 (proj2 (Empty_snapshot_not_aliased (fun _ n => n)
                         (Backing.Add (fun _ n => n) 7%nat (Backing.mkState ∅ None))
                         []))).
  unfold Backing.wf. vm_compute. eexists. repeat split; [reflexivity|lia..].
Defined.

(** * Runs on the concrete machine *)

(** NewBuffer(32) with 4096-byte pages: three pages in all. *)
Example NewBuffer_32 :
  (fun r => (slice_len (Data r), slice_len (inner r), slice_len (memory r)))
    <$> (objs (world_of (NewBuffer 4096 os_willing 32 init_World)) !! 0%nat)
  = Some (32, 4096, 3 * 4096).
Proof. vm_compute. reflexivity. Qed.

(** NewBuffer(4097): the inner region takes two pages. *)
Example NewBuffer_4097 :
  (fun r => (slice_len (Data r), slice_len (inner r), slice_len (memory r)))
    <$> (objs (world_of (NewBuffer 4096 os_willing 4097 init_World)) !! 0%nat)
  = Some (4097, 2 * 4096, 4 * 4096).
Proof. vm_compute. reflexivity. Qed.

(** A size so large that [size + 32] wraps around: the allocation is
    refused and NewBuffer ends in the handler. *)
Example NewBuffer_huge :
  match NewBuffer 4096 os_willing int_max init_World with
  | Fatal v _ => v = PanicErr AllocFailed
  | _ => False
  end.
Proof. vm_compute. reflexivity. Qed.

(** GetBufferState before and after DestroyBuffer. *)
Example GetBufferState_lifecycle :
  GetBufferState 0%nat world_one = Ret (mkBufferState true false) world_one /\
  match DestroyBuffer os_willing 0%nat world_one with
  | Ret _ w => GetBufferState 0%nat w = Ret (mkBufferState false true) w
  | _ => False
  end.
Proof. split; vm_compute; reflexivity. Qed.

(** DestroyBuffer resets eight fields; [inner] keeps its value. *)
Example DestroyBuffer_keeps_inner :
  inner <$> (objs (world_of (DestroyBuffer os_willing 0%nat world_one)) !! 0%nat)
  = Some (Some (mkSpan 0 4096 4096)).
Proof. vm_compute. reflexivity. Qed.

(** With the canary overwritten and an operating system that refuses to
    open the region, DestroyBuffer panics with the error of Protect, not
    with the canary message. *)
Example DestroyBuffer_protect_refused_run :
  match DestroyBuffer os_no_protect 1%nat world_tampered with
  | Fatal v _ => v = PanicErr ProtectFailed
  | _ => False
  end.
Proof. vm_compute. reflexivity. Qed.

(** The wiping pass of Panic and a frozen buffer.  With the first of two
    buffers frozen and the canary of the second overwritten, DestroyBuffer
    on the second panics with the canary message; the inner region of the
    second, opened by Protect, reads as zero, and that of the first, which
    is read-only, still holds its canary.  Had the first not been frozen
    its canary would be wiped as well. *)
Example Panic_leaves_frozen :
  match DestroyBuffer os_willing 1%nat world_frozen_tampered,
        DestroyBuffer os_willing 1%nat world_tampered with
  | Fatal v w', Fatal _ w'' =>
      v = PanicMsg canary_message /\
      load (heap w') (inner (layout 4096 4096 8 1)) = Some (zeros 4096) /\
      load (heap w') (canaryval (layout 4096 4096 8 0)) = Some canary_pattern /\
      load (heap w'') (canaryval (layout 4096 4096 8 0)) = Some (zeros 32)
  | _, _ => False
  end.
Proof. vm_compute. repeat split. Qed.

(** Ten buffers, then Empty: the ten of them in order of creation, and
    none is left. *)
Example Empty_ten :
  let make := fun w (_ : nat) => world_of (NewBuffer 64 os_willing 1 w) in
  let w10 := foldl make init_World (seq 0 10) in
  BufferList_Empty w10 = Ret (seq 0 10) (set_buffers [] w10).
Proof. vm_compute. reflexivity. Qed.

(** * Further properties *)

(** ** The registry as a list *)

Lemma remove_first_split (b : BufPtr) (l : list BufPtr) :
  In b l ->
  exists l1 l2, l = l1 ++ b :: l2 /\ ~ In b l1 /\ remove_first b l = l1 ++ l2.
Proof.
  induction l as [|v l IH]; [intros []|]. intros Hin. cbn [remove_first].
  destruct (decide (v = b)) as [->|Hne].
  - exists [], l. cbn. tauto.
  - destruct Hin as [->|Hin]; [done|].
    destruct (IH Hin) as (l1 & l2 & -> & Hn & ->).
    exists (v :: l1), l2. cbn. split; [done|]. split; [|done].
    intros [->|H]; tauto.
Qed.

Lemma remove_first_app_new (b : BufPtr) (l : list BufPtr) :
  ~ In b l -> remove_first b (l ++ [b]) = l.
Proof.
  induction l as [|v l IH]; cbn; intros H.
  - now rewrite decide_True.
  - destruct (decide (v = b)) as [->|Hne]; [tauto|]. f_equal. apply IH. tauto.
Qed.

Lemma set_buffers_same (w : World) : set_buffers (buffers w) w = w.
Proof. now destruct w. Qed.

(** X1.  Remove(b) cuts out the first occurrence of b and nothing else: on a
    registry that does not hold b it changes nothing, so Add(b) followed by
    Remove(b) gives back the state before; on one that does, the elements
    before the first b and all those after it are kept in order. *)
Theorem Remove_cuts_first_occurrence (b : BufPtr) (w : World) :
  (~ In b (buffers w) -> BufferList_Remove b w = Ret tt w) /\
  (~ In b (buffers w) ->
   (BufferList_Add b;; BufferList_Remove b) w = Ret tt w) /\
  (In b (buffers w) ->
   exists l1 l2, buffers w = l1 ++ b :: l2 /\ ~ In b l1 /\
                 BufferList_Remove b w = Ret tt (set_buffers (l1 ++ l2) w)).
Proof.
  split; [|split].
  - intros H. unfold BufferList_Remove, modify_world.
    now rewrite remove_first_absent, set_buffers_same.
  - intros H. unfold BufferList_Add, BufferList_Remove, modify_world, mbind, M_bind.
    unfold set_buffers at 1 2. cbn [buffers heap objs trace].
    rewrite remove_first_app_new by done. now destruct w.
  - intros H. destruct (remove_first_split b _ H) as (l1 & l2 & Hl & Hn & Hr).
    exists l1, l2. split; [done|]. split; [done|].
    unfold BufferList_Remove, modify_world. now rewrite Hr.
Qed.

Lemma exists_in_remove_first_other (b c : BufPtr) (l : list BufPtr) :
  c <> b -> exists_in c (remove_first b l) = exists_in c l.
Proof.
  intros Hne. induction l as [|v l IH]; [done|]. cbn.
  destruct (decide (v = b)) as [->|Hvb].
  - now rewrite decide_False.
  - cbn. now rewrite IH.
Qed.

Lemma exists_in_app (c : BufPtr) (l l' : list BufPtr) :
  exists_in c (l ++ l') = exists_in c l || exists_in c l'.
Proof.
  induction l as [|v l IH]; [done|]. cbn. destruct (decide (c = v)); [done|]. exact IH.
Qed.

Lemma exists_in_remove_first_same (b : BufPtr) (l : list BufPtr) :
  exists_in b (remove_first b l) = (2 <=? count_occ Nat.eq_dec l b)%nat.
Proof.
  induction l as [|v l IH]; [done|]. cbn [remove_first count_occ].
  destruct (decide (v = b)) as [->|Hvb].
  - destruct (Nat.eq_dec b b) as [_|]; [|done].
    destruct (exists_in b l) eqn:He.
    + apply exists_in_In in He. apply (count_occ_In Nat.eq_dec) in He.
      symmetry. apply Nat.leb_le. lia.
    + apply exists_in_false in He. apply (count_occ_not_In Nat.eq_dec) in He.
      rewrite He. done.
  - destruct (Nat.eq_dec v b) as [|_]; [done|].
    cbn [exists_in]. rewrite decide_False by congruence. exact IH.
Qed.

(** X2.  Exists after Add and Remove: Exists(b) is true right after Add(b);
    the answer for any other buffer is not changed by Add(b) or Remove(b);
    and after Remove(b), Exists(b) is still true exactly when the registry
    held b at least twice, since Remove stops at the first match. *)
Theorem Exists_after_Add_Remove (b c : BufPtr) (w : World) :
  (BufferList_Add b;; BufferList_Exists b) w
    = Ret true (set_buffers (buffers w ++ [b]) w) /\
  (c <> b ->
   (BufferList_Add b;; BufferList_Exists c) w
     = Ret (exists_in c (buffers w)) (set_buffers (buffers w ++ [b]) w) /\
   (BufferList_Remove b;; BufferList_Exists c) w
     = Ret (exists_in c (buffers w)) (set_buffers (remove_first b (buffers w)) w)) /\
  (BufferList_Remove b;; BufferList_Exists b) w
    = Ret (2 <=? count_occ Nat.eq_dec (buffers w) b)%nat
          (set_buffers (remove_first b (buffers w)) w).
Proof.
  unfold BufferList_Add, BufferList_Remove, BufferList_Exists, modify_world,
    get_world, mbind, M_bind, mret, M_ret.
  cbn [buffers set_buffers].
  split; [|split].
  - rewrite exists_in_app. cbn. rewrite decide_True by done.
    now rewrite orb_true_r.
  - intros Hne. split.
    + rewrite exists_in_app. cbn. rewrite decide_False by done.
      now rewrite orb_false_r.
    + now rewrite exists_in_remove_first_other.
  - now rewrite exists_in_remove_first_same.
Qed.

(** ** The life of a buffer *)

Lemma set_mutable_id (r : Buffer) (v : bool) : mutable r = v -> set_mutable v r = r.
Proof. intros <-. now destruct r. Qed.

Lemma set_mutable_twice (r : Buffer) (u v : bool) :
  set_mutable v (set_mutable u r) = set_mutable v r.
Proof. reflexivity. Qed.

(** X3.  Freeze then Melt of an alive mutable buffer, both protection
    changes accepted, restores the buffer's record, the mapped bytes and the
    registry; the only trace is the two Protect calls on the inner region,
    ReadOnly then ReadWrite.  Melt then Freeze does the same for a frozen
    buffer. *)
Theorem Freeze_Melt_round_trip (os : OS) (b : BufPtr) (w : World) (r : Buffer) :
  objs w !! b = Some r -> alive r = true ->
  (mutable r = true ->
   os_grants os (trace w)
             [EvSys (SysProtect (inner r) ReadWrite) true;
              EvSys (SysProtect (inner r) ReadOnly) true] = true ->
   exists w1 w2,
     Freeze os b w = Ret None w1 /\ Melt os b w1 = Ret None w2 /\
     heap w2 = heap w /\ objs w2 = objs w /\ buffers w2 = buffers w /\
     trace w2 = [EvSys (SysProtect (inner r) ReadWrite) true;
                 EvSys (SysProtect (inner r) ReadOnly) true] ++ trace w) /\
  (mutable r = false ->
   os_grants os (trace w)
             [EvSys (SysProtect (inner r) ReadOnly) true;
              EvSys (SysProtect (inner r) ReadWrite) true] = true ->
   exists w1 w2,
     Melt os b w = Ret None w1 /\ Freeze os b w1 = Ret None w2 /\
     heap w2 = heap w /\ objs w2 = objs w /\ buffers w2 = buffers w /\
     trace w2 = [EvSys (SysProtect (inner r) ReadOnly) true;
                 EvSys (SysProtect (inner r) ReadWrite) true] ++ trace w).
Proof.
  intros Hb Hal. split; intros Hm Hos;
    apply os_grants_cons in Hos as [Hos H2];
    apply os_grants_cons in Hos as [_ H1]; cbn [app] in H1, H2.
  - eexists _, _. split; [apply (Freeze_mutable os b w r Hb Hal Hm H1)|].
    split.
    { eapply Melt_frozen; cbn [objs trace]; [apply lookup_insert_eq|done..]. }
    cbn [heap objs buffers trace app]. repeat split.
    rewrite insert_insert_eq. apply insert_id.
    now rewrite set_mutable_twice, set_mutable_id.
  - eexists _, _. split; [apply (Melt_frozen os b w r Hb Hal Hm H1)|].
    split.
    { eapply Freeze_mutable; cbn [objs trace]; [apply lookup_insert_eq|done..]. }
    cbn [heap objs buffers trace app]. repeat split.
    rewrite insert_insert_eq. apply insert_id.
    now rewrite set_mutable_twice, set_mutable_id.
Qed.

(** X4.  A Freeze or Melt that returns touches nothing but the mutable
    flag of its own buffer: mapped bytes, registry and every other buffer
    are unchanged, all other fields of the buffer are unchanged, at most one
    system call is made, and none when an error is returned. *)
Theorem Freeze_Melt_frame (os : OS) (b : BufPtr) (w w' : World) (e : option Error) :
  Freeze os b w = Ret e w' \/ Melt os b w = Ret e w' ->
  heap w' = heap w /\ buffers w' = buffers w /\
  (forall b', b' <> b -> objs w' !! b' = objs w !! b') /\
  (exists r r', objs w !! b = Some r /\ objs w' !! b = Some r' /\
                r' = set_mutable (mutable r') r) /\
  (exists evs, trace w' = evs ++ trace w /\ (length evs <= 1)%nat /\
               (e <> None -> evs = [])).
Proof.
  assert (Hsame : forall r, objs w !! b = Some r ->
            heap w = heap w /\ buffers w = buffers w /\
            (forall b', b' <> b -> objs w !! b' = objs w !! b') /\
            (exists r0 r', objs w !! b = Some r0 /\ objs w !! b = Some r' /\
                           r' = set_mutable (mutable r') r0) /\
            (exists evs, trace w = evs ++ trace w /\ (length evs <= 1)%nat /\
                         (e <> None -> evs = []))).
  { intros r Hb. split; [done|]. split; [done|]. split; [done|]. split.
    - exists r, r. split; [done|]. split; [done|]. now destruct r.
    - exists []. cbn. split; [done|]. split; [lia|done]. }
  assert (Hset : forall r v c, objs w !! b = Some r -> e = None ->
            heap w = heap w /\ buffers w = buffers w /\
            (forall b', b' <> b -> <[b := set_mutable v r]> (objs w) !! b' = objs w !! b') /\
            (exists r0 r', objs w !! b = Some r0 /\
                           <[b := set_mutable v r]> (objs w) !! b = Some r' /\
                           r' = set_mutable (mutable r') r0) /\
            (exists evs, EvSys c true :: trace w = evs ++ trace w /\
                         (length evs <= 1)%nat /\ (e <> None -> evs = []))).
  { intros r v c Hb He. split; [done|]. split; [done|]. split; [|split].
    - intros b' Hne. now apply lookup_insert_ne.
    - exists r, (set_mutable v r). rewrite lookup_insert_eq. done.
    - exists [EvSys c true]. cbn. split; [done|]. split; [lia|congruence]. }
  intros [H|H].
  - apply Freeze_Ret in H
      as (r & Hb & [(Hal & He & ->)|[(Hal & Hm & He & ->)|(Hal & Hm & He & _ & ->)]]);
      [now apply (Hsame r)..|].
    cbn [heap objs buffers trace]. now apply Hset.
  - apply Melt_Ret in H
      as (r & Hb & [(Hal & He & ->)|[(Hal & Hm & He & ->)|(Hal & Hm & He & _ & ->)]]);
      [now apply (Hsame r)..|].
    cbn [heap objs buffers trace]. now apply Hset.
Qed.

(** X5.  GetBufferState changes nothing and reports the flags the other
    operations leave: mutable and not destroyed after NewBuffer, immutable
    after a successful Freeze, mutable after a successful Melt, destroyed
    after DestroyBuffer (and immutable, when the buffer was alive). *)
Theorem GetBufferState_follows (P : Z) (os : OS) (b : BufPtr) (w w' : World) :
  (forall st, GetBufferState b w = Ret st w' -> w' = w) /\
  (forall size, NewBuffer P os size w = Ret (Some b, None) w' ->
                GetBufferState b w' = Ret (mkBufferState true false) w') /\
  (Freeze os b w = Ret None w' ->
   GetBufferState b w' = Ret (mkBufferState false false) w') /\
  (Melt os b w = Ret None w' ->
   GetBufferState b w' = Ret (mkBufferState true false) w') /\
  (forall u, DestroyBuffer os b w = Ret u w' ->
             exists st, GetBufferState b w' = Ret st w' /\
                        IsDestroyed st = true /\
                        (alive_of w b = true -> IsMutable st = false)).
Proof.
  assert (Hget : forall w0 r, objs w0 !! b = Some r ->
            GetBufferState b w0 = Ret (mkBufferState (mutable r) (negb (alive r))) w0).
  { intros w0 r Hb. unfold GetBufferState.
    now rewrite (bind_Ret_intro _ _ _ _ _ (deref_intro _ _ _ Hb)). }
  split; [|split; [|split; [|split]]].
  - intros st H. now apply GetBufferState_Ret in H as [-> _].
  - intros size H.
    apply NewBuffer_Ret in H as [(_ & [=] & _)|(_ & _ & b0 & w1 & [= <-] & H & ->)].
    apply NewBuffer_construct_shape in H as (_ & _ & r & Ho & Hal & Hm).
    erewrite Hget; [|unfold set_buffers; cbn [objs]; rewrite Ho; apply lookup_insert_eq].
    now rewrite Hal, Hm.
  - intros H.
    apply Freeze_Ret in H
      as (r & Hb & [(_ & [=] & _)|[(Hal & Hm & _ & ->)|(Hal & _ & _ & _ & ->)]]).
    + rewrite (Hget _ _ Hb). now rewrite Hal, Hm.
    + erewrite Hget by apply lookup_insert_eq. cbn. now rewrite Hal.
  - intros H.
    apply Melt_Ret in H
      as (r & Hb & [(_ & [=] & _)|[(Hal & Hm & _ & ->)|(Hal & _ & _ & _ & ->)]]).
    + rewrite (Hget _ _ Hb). now rewrite Hal, Hm.
    + erewrite Hget by apply lookup_insert_eq. cbn. now rewrite Hal.
  - intros u H.
    apply DestroyBuffer_Ret in H
      as (r & Hb & [(Hal & ->)|(Hal & x & h & _ & _ & _ & _ & ->)]).
    + eexists. split; [apply (Hget _ _ Hb)|]. cbn. rewrite Hal. split; [done|].
      unfold alive_of. rewrite Hb. congruence.
    + eexists. split; [apply Hget, lookup_insert_eq|]. done.
Qed.

Lemma run_op_keeps_destroyed (P : Z) (os : OS) (o : Op) (w w' : World)
      (b : BufPtr) (r : Buffer) (u : unit) :
  objs w !! b = Some r -> alive r = false ->
  run_op P os o w = Ret u w' -> objs w' !! b = Some r.
Proof.
  intros Hb Hal H. destruct o as [size|b'|b'|b'|b']; cbn [run_op] in H.
  - apply bind_Ret in H as ([ob e] & w1 & H & Hr). apply mret_Ret in Hr as [_ <-].
    apply NewBuffer_Ret in H as [(_ & _ & _ & ->)|(_ & _ & b0 & w0 & _ & H & ->)];
      [done|].
    apply NewBuffer_construct_shape in H as (Hb0 & _ & r0 & Ho & _).
    unfold set_buffers. cbn [objs]. rewrite Ho, lookup_insert_ne; [done|].
    intros <-. rewrite Hb0, fresh_object in Hb. discriminate.
  - apply bind_Ret in H as (st & w1 & H & Hr). apply mret_Ret in Hr as [_ <-].
    now apply GetBufferState_Ret in H as [-> _].
  - apply bind_Ret in H as (e & w1 & H & Hr). apply mret_Ret in Hr as [_ <-].
    apply Freeze_Ret in H
      as (r' & Hb' & [(_ & _ & ->)|[(_ & _ & _ & ->)|(Hal' & _ & _ & _ & ->)]]);
      [done..|].
    cbn [objs]. rewrite lookup_insert_ne; [done|]. intros <-. congruence.
  - apply bind_Ret in H as (e & w1 & H & Hr). apply mret_Ret in Hr as [_ <-].
    apply Melt_Ret in H
      as (r' & Hb' & [(_ & _ & ->)|[(_ & _ & _ & ->)|(Hal' & _ & _ & _ & ->)]]);
      [done..|].
    cbn [objs]. rewrite lookup_insert_ne; [done|]. intros <-. congruence.
  - apply DestroyBuffer_Ret in H
      as (r' & Hb' & [(_ & ->)|(Hal' & x & h & _ & _ & _ & _ & ->)]); [done|].
    cbn [after_destroy objs]. rewrite lookup_insert_ne; [done|]. intros <-. congruence.
Qed.

(** X6.  Destruction is final: whatever calls of NewBuffer, GetBufferState,
    Freeze, Melt and DestroyBuffer follow, on this or on other buffers, the
    record of a destroyed buffer stays as it is; Freeze and Melt on it
    return ErrDestroyed and DestroyBuffer does nothing. *)
Theorem destroyed_is_terminal (P : Z) (os : OS) (ops : list Op) (w w' : World)
        (b : BufPtr) (r : Buffer) :
  objs w !! b = Some r -> alive r = false ->
  run_ops P os ops w = Ret tt w' ->
  objs w' !! b = Some r /\
  Freeze os b w' = Ret (Some ErrDestroyed) w' /\
  Melt os b w' = Ret (Some ErrDestroyed) w' /\
  DestroyBuffer os b w' = Ret tt w'.
Proof.
  intros Hb Hal H.
  assert (Hb' : objs w' !! b = Some r).
  { revert w Hb H. induction ops as [|o ops IH]; intros w Hb H; cbn [run_ops] in H.
    - now apply mret_Ret in H as [_ <-].
    - apply bind_Ret in H as (u & w1 & H1 & H).
      apply (IH w1); [|done]. eapply run_op_keeps_destroyed; eauto. }
  split; [done|]. split; [|split].
  - now apply (Freeze_destroyed os b w' r).
  - now apply (Melt_destroyed os b w' r).
  - now apply (DestroyBuffer_destroyed os b w' r).
Qed.

(** X7.  A DestroyBuffer that returns on an alive buffer unmaps the
    buffer's own region and leaves every other mapped region byte for byte,
    every other buffer's record, and the membership of every other buffer
    in the registry as they were. *)
Theorem DestroyBuffer_frame (os : OS) (b : BufPtr) (w w' : World) (r : Buffer)
        (sp : Span) (u : unit) :
  objs w !! b = Some r -> alive r = true -> memory r = Some sp ->
  DestroyBuffer os b w = Ret u w' ->
  heap w' = delete (sp_region sp) (heap w) /\
  (forall rid, rid <> sp_region sp -> heap w' !! rid = heap w !! rid) /\
  heap w' !! sp_region sp = None /\
  (forall b', b' <> b -> objs w' !! b' = objs w !! b') /\
  (forall b', b' <> b -> exists_in b' (buffers w') = exists_in b' (buffers w)).
Proof.
  intros Hb Hal Hmem H.
  apply DestroyBuffer_Ret in H
    as (r' & Hb' & [(Hal' & _)|(_ & x & h & Hv & _ & Hst & _ & ->)]);
    rewrite Hb in Hb'; injection Hb' as <-; [congruence|].
  unfold after_destroy. cbn [heap objs buffers]. rewrite Hmem in *.
  apply store_Some in Hst as (bs & Hbs & _ & _ & _ & ->).
  rewrite delete_insert_eq.
  split; [done|]. split; [|split; [|split]].
  - intros rid Hne. now apply lookup_delete_ne.
  - apply lookup_delete_eq.
  - intros b' Hne. now apply lookup_insert_ne.
  - intros b' Hne. now apply exists_in_remove_first_other.
Qed.

Lemma destroy_each_drained (os : OS) (l : list BufPtr) (w w' : World) :
  buffers w = [] ->
  (forall b, alive_of w b = true -> In b l) ->
  destroy_each os l w = Ret tt w' ->
  buffers w' = [] /\ forall b, alive_of w' b = false.
Proof.
  revert w. induction l as [|b l IH]; intros w Hnil Hal H; cbn [destroy_each] in H.
  - apply mret_Ret in H as [_ <-]. split; [done|]. intros b.
    destruct (alive_of w b) eqn:Hb; [|done]. now apply Hal in Hb.
  - apply bind_Ret in H as (u & w1 & H1 & H).
    apply DestroyBuffer_Ret in H1
      as (r & Hb & [(Hd & ->)|(Hd & x & h & _ & _ & _ & _ & ->)]).
    + apply (IH w); [done| |done]. intros b' Hb'.
      destruct (Hal b' Hb') as [<-|Hin]; [|done].
      unfold alive_of in Hb'. rewrite Hb in Hb'. congruence.
    + apply (IH (after_destroy b r h w)); [|  |done].
      * unfold after_destroy. cbn [buffers]. now rewrite Hnil.
      * intros b'. unfold after_destroy. rewrite (alive_of_insert w).
        case_decide as Hbb; [done|].
        intros Hb'. destruct (Hal b' Hb') as [<-|Hin]; [done|done].
Qed.

(** X8.  Draining the registry with Empty and passing each returned buffer
    to DestroyBuffer: if all of it returns, no buffer is alive any more, the
    registry is empty (the Remove inside DestroyBuffer finds nothing to
    remove), and registry and alive flags agree again. *)
Theorem Empty_then_destroy_each (P : Z) (os : OS) (w w' : World) :
  Reachable P os w ->
  (l ← BufferList_Empty; destroy_each os l) w = Ret tt w' ->
  buffers w' = [] /\ (forall b, alive_of w' b = false) /\ registry_ok w'.
Proof.
  intros Hr H. apply Reachable_registry_ok in Hr as [Hnd Hiff].
  apply bind_Ret in H as (l & w1 & H1 & H).
  assert (Hl : l = buffers w /\ w1 = set_buffers [] w).
  { unfold BufferList_Empty, get_world, modify_world, mbind, M_bind, mret, M_ret in H1.
    now injection H1 as <- <-. }
  destruct Hl as [-> ->].
  apply destroy_each_drained in H as [Hnil Hdead]; [| done |].
  - split; [done|]. split; [done|]. split.
    + rewrite Hnil. constructor.
    + intros b. rewrite Hnil, Hdead. cbn. split; [tauto|discriminate].
  - intros b Hb. now apply Hiff.
Qed.

(** ** What NewBuffer touches *)

Lemma fresh_region (w : World) : heap w !! fresh (dom (heap w)) = None.
Proof. apply not_elem_of_dom, is_fresh. Qed.

(** X9.  A NewBuffer that succeeds creates a new buffer over a region that
    was not mapped before, leaves every other mapped region and every other
    buffer's record as they were, and appends the new buffer at the end of
    the registry. *)
Theorem NewBuffer_frame (P : Z) (os : OS) (size : Z) (w w' : World)
        (ob : option BufPtr) :
  0 < P < 2 ^ 32 -> is_int size ->
  NewBuffer P os size w = Ret (ob, None) w' ->
  exists b r sp,
    ob = Some b /\ objs w !! b = None /\ objs w' !! b = Some r /\
    memory r = Some sp /\ heap w !! sp_region sp = None /\
    (forall rid, rid <> sp_region sp -> heap w' !! rid = heap w !! rid) /\
    (forall b', b' <> b -> objs w' !! b' = objs w !! b') /\
    buffers w' = buffers w ++ [b].
Proof.
  intros HP Hint H.
  apply NewBuffer_success in H
    as (Hsz & H32 & Hmax & -> & bytes & rnd & -> & _); [|done..].
  eexists _, _, _. cbn [heap objs buffers].
  split; [reflexivity|]. split; [apply fresh_object|].
  split; [apply lookup_insert_eq|]. split; [reflexivity|]. cbn [sp_region].
  split; [apply fresh_region|]. split; [|split; [|done]].
  - intros rid Hne. now apply lookup_insert_ne.
  - intros b' Hne. now apply lookup_insert_ne.
Qed.

(** X10.  The system calls of a successful NewBuffer are exactly five, in
    this order: Alloc of the length of memory, Lock of inner, the read of
    32 random bytes for the canary, Protect(preguard, NoAccess) and
    Protect(postguard, NoAccess); the pre-guard is closed after the random
    bytes have been read into it. *)
Theorem NewBuffer_calls_in_order (P : Z) (os : OS) (size : Z) (w w' : World)
        (ob : option BufPtr) :
  0 < P < 2 ^ 32 -> is_int size ->
  NewBuffer P os size w = Ret (ob, None) w' ->
  exists b r,
    ob = Some b /\ objs w' !! b = Some r /\
    trace w' =
      [ EvSys (SysProtect (postguard r) NoAccess) true;
        EvSys (SysProtect (preguard r) NoAccess) true;
        EvSys (SysRand (slice_len (canaryref r))) true;
        EvSys (SysLock (inner r)) true;
        EvSys (SysAlloc (slice_len (memory r))) true ] ++ trace w.
Proof.
  intros HP Hint H.
  apply NewBuffer_success in H
    as (Hsz & H32 & Hmax & -> & bytes & rnd & -> & _); [|done..].
  eexists _, _. cbn [heap objs buffers trace].
  split; [reflexivity|]. split; [apply lookup_insert_eq|]. reflexivity.
Qed.

Lemma memcall_Alloc_negative (os : OS) (n : Z) (w : World) :
  n < 0 ->
  memcall_Alloc os n w = Ret (None, Some AllocFailed) (log (EvSys (SysAlloc n) false) w).
Proof.
  intros Hn. unfold memcall_Alloc. destruct (0 <=? n) eqn:H0; [lia|reflexivity].
Qed.

Lemma at_panic_frame (v : PanicValue) (w : World) :
  buffers (at_panic v w) = buffers w /\ objs (at_panic v w) = objs w /\
  dom (heap (at_panic v w)) = dom (heap w) /\
  hd_error (trace (at_panic v w)) = Some (EvHandler v).
Proof.
  unfold at_panic. cbn [log buffers objs heap trace hd_error].
  destruct (wipe_all_frame (buffers w) w) as (Ho & Hb & Hd & _). done.
Qed.

(** X11.  For a size above maxInt - 2P - 32 the length passed to
    memcall.Alloc at line 61 comes out negative, the int arithmetic of
    lines 60-61 having wrapped around; memcall.Alloc (modelled from the
    spec) refuses it, so NewBuffer panics with the allocation error, with no
    region mapped or unmapped, the registry and the alive flags unchanged. *)
Theorem NewBuffer_too_large (P : Z) (os : OS) (size : Z) (w : World) :
  0 < P < 2 ^ 32 -> is_int size -> int_max - 2 * P - 32 < size ->
  exists w',
    NewBuffer P os size w = Fatal (PanicErr AllocFailed) w' /\
    buffers w' = buffers w /\ dom (heap w') = dom (heap w) /\
    (forall b, alive_of w' b = alive_of w b).
Proof.
  intros HP Hint Hbig.
  assert (Hsz : 1 <= size) by int_range.
  set (n := int_add (int_mul 2 P) (roundToPageSize P (int_add size 32))).
  assert (Hn : n < 0).
  { destruct (Z_lt_le_dec n 0) as [|Hge]; [done|]. exfalso.
    destruct (alloc_size_exact P size HP Hsz Hint Hge) as (_ & _ & Hmax).
    pose proof (roundUp_bounds (size + 32) P ltac:(lia)). lia. }
  set (w1 := mkWorld (heap w)
                (<[fresh (dom (objs w)) := set_memory None zero_Buffer]> (objs w))
                (buffers w) (EvSys (SysAlloc n) false :: trace w)).
  exists (at_panic (PanicErr AllocFailed) w1).
  destruct (at_panic_frame (PanicErr AllocFailed) w1) as (Hb & Ho & Hd & _).
  split; [|split; [exact Hb|split; [exact Hd|]]].
  - unfold NewBuffer. destruct (size <? 1) eqn:Hlt; [lia|].
    erewrite bind_Fatal; [reflexivity|].
    unfold NewBuffer_construct.
    step ltac:(reflexivity).
    fold n. step ltac:(apply memcall_Alloc_negative; exact Hn).
    step_assign.
    erewrite bind_Fatal by apply check_Some_intro. reflexivity.
  - intros b. unfold alive_of. rewrite Ho. cbn [objs w1]. rewrite lookup_insert.
    case_decide as Hbb; [|done]. subst b. now rewrite fresh_object.
Qed.

(** ** NewBuffer at a panic *)

Lemma hoare_bind {A B : Type} (I : World -> Prop) (m : M A) (f : A -> M B)
      (Q : A -> World -> Prop) (R : B -> World -> Prop)
      (F : PanicValue -> World -> Prop) :
  hoare I m Q F -> (forall a, hoare (Q a) (f a) R F) -> hoare I (m ≫= f) R F.
Proof.
  intros Hm Hf w Hw. specialize (Hm w Hw). unfold mbind, M_bind.
  destruct (m w) as [a w1|v w1|w1]; [|done..]. now apply Hf.
Qed.

Lemma hoare_weaken {A : Type} (I I' : World -> Prop) (m : M A)
      (Q Q' : A -> World -> Prop) (F : PanicValue -> World -> Prop) :
  hoare I' m Q' F -> (forall w, I w -> I' w) -> (forall a w, Q' a w -> Q a w) ->
  hoare I m Q F.
Proof.
  intros Hm HI HQ w Hw. specialize (Hm w (HI w Hw)).
  destruct (m w); [now apply HQ|done..].
Qed.

Section Untouched.

Variable os : OS.
Variable w0 : World.

Lemma untouched_heap_trace (w : World) (h : gmap nat (list byte)) (t : list Event) :
  untouched w0 w -> untouched w0 (mkWorld h (objs w) (buffers w) t).
Proof. intros [Hb Ha]. split; [done|]. intros b. apply Ha. Qed.

Lemma hoare_mret {A : Type} (a : A) (Q : A -> World -> Prop) :
  hoare (Q a) (mret a) Q (construct_panic w0).
Proof. intros w Hw. exact Hw. Qed.

Lemma hoare_new_Buffer :
  hoare (untouched w0) new_Buffer (fun _ => untouched w0) (construct_panic w0).
Proof.
  intros w [Hb Ha]. unfold new_Buffer. split; [done|]. intros b.
  rewrite <- Ha. unfold set_objs. rewrite (alive_of_insert w).
  case_decide as Hbb; [|done]. subst b. unfold alive_of. now rewrite fresh_object.
Qed.

Lemma hoare_deref (b : BufPtr) :
  hoare (untouched w0) (deref b) (fun _ => untouched w0) (construct_panic w0).
Proof. intros w Hw. unfold deref. now destruct (objs w !! b). Qed.

Lemma hoare_elem_addr (s : Slice) (i : Z) :
  hoare (untouched w0) (elem_addr s i) (fun _ => untouched w0) (construct_panic w0).
Proof.
  intros w Hw. unfold elem_addr. destruct s as [sp|]; [|done].
  now destruct (_ && _).
Qed.

Lemma hoare_assign (b : BufPtr) (f : Buffer -> Buffer) :
  (forall r, alive (f r) = alive r) ->
  hoare (untouched w0) (assign b f) (fun _ => untouched w0) (construct_panic w0).
Proof.
  intros Hf w [Hb Ha]. unfold assign, deref, modify_world, mbind, M_bind.
  destruct (objs w !! b) as [r|] eqn:Hr; [|done].
  split; [done|]. intros b'. rewrite <- Ha. unfold set_objs.
  rewrite (alive_of_insert w). case_decide as Hbb; [|done]. subst b'.
  unfold alive_of. now rewrite Hr, Hf.
Qed.

Lemma hoare_assign_any (b : BufPtr) (f : Buffer -> Buffer) (I : World -> Prop) :
  hoare I (assign b f) (fun _ _ => True) (construct_panic w0).
Proof.
  intros w _. unfold assign, deref, modify_world, mbind, M_bind.
  now destruct (objs w !! b).
Qed.

Lemma hoare_pure {A : Type} (I : World -> Prop) (phi : Prop) (m : M A)
      (Q : A -> World -> Prop) :
  (phi -> hoare I m Q (construct_panic w0)) ->
  hoare (fun w => I w /\ phi) m Q (construct_panic w0).
Proof. intros H w [Hw Hphi]. now apply H. Qed.

Lemma hoare_check (err : option OSError) :
  (forall e, err = Some e -> construct_error e) ->
  hoare (untouched w0) (check err) (fun _ => untouched w0) (construct_panic w0).
Proof.
  intros He w [Hb Ha]. destruct err as [e|]; cbn [check]; [|done].
  rewrite Panic_intro.
  destruct (at_panic_frame (PanicErr e) w) as (Hb' & Ho' & _ & Ht').
  split; [|split; [eauto|done]].
  split; [congruence|]. intros b. rewrite <- Ha. unfold alive_of. now rewrite Ho'.
Qed.

Lemma hoare_Alloc (n : Z) :
  hoare (untouched w0) (memcall_Alloc os n)
        (fun r w => untouched w0 w /\ forall e, snd r = Some e -> construct_error e)
        (construct_panic w0).
Proof.
  intros w Hw. unfold memcall_Alloc. destruct (_ && _); cbn [snd].
  - split; [now apply untouched_heap_trace|]. discriminate.
  - split; [now apply untouched_heap_trace|]. intros e [= <-]. now left.
Qed.

Lemma hoare_Lock (s : Slice) :
  hoare (untouched w0) (memcall_Lock os s)
        (fun err w => untouched w0 w /\ forall e, err = Some e -> construct_error e)
        (construct_panic w0).
Proof.
  intros w Hw. unfold memcall_Lock, syscall, mbind, M_bind, mret, M_ret.
  split; [now apply untouched_heap_trace|].
  destruct (os_accepts _ _ _); [discriminate|]. intros e [= <-]. right. now left.
Qed.

Lemma hoare_Protect (s : Slice) (mode : Protection) :
  hoare (untouched w0) (memcall_Protect os s mode)
        (fun err w => untouched w0 w /\ forall e, err = Some e -> construct_error e)
        (construct_panic w0).
Proof.
  intros w Hw. unfold memcall_Protect, syscall, mbind, M_bind, mret, M_ret.
  split; [now apply untouched_heap_trace|].
  destruct (os_accepts _ _ _); [discriminate|]. intros e [= <-]. now do 3 right.
Qed.

Lemma hoare_rand_Read (s : Slice) :
  hoare (untouched w0) (rand_Read os s)
        (fun err w => untouched w0 w /\ forall e, err = Some e -> construct_error e)
        (construct_panic w0).
Proof.
  intros w Hw.
  unfold rand_Read, get_world, syscall, write_bytes, mbind, M_bind, mret, M_ret.
  destruct (os_accepts _ _ _).
  - cbn [heap log]. destruct (store _ _ _); [|done].
    split; [now apply untouched_heap_trace|]. discriminate.
  - split; [now apply untouched_heap_trace|]. intros e [= <-]. right. right. now left.
Qed.

Lemma hoare_Copy (dst src : Slice) :
  hoare (untouched w0) (crypto_Copy dst src) (fun _ => untouched w0) (construct_panic w0).
Proof.
  intros w Hw. unfold crypto_Copy, read_bytes, write_bytes, mbind, M_bind.
  destruct (load _ _); [|done]. destruct (store _ _ _); [|done].
  now apply untouched_heap_trace.
Qed.

Ltac hstep lem := eapply hoare_bind; [apply lem|]; intros ?.
Ltac hassign := eapply hoare_bind; [apply hoare_assign; reflexivity|]; intros ?; cbv beta.
Ltac hslice := hstep hoare_deref; hstep hoare_elem_addr; hassign.
Ltac hcall lem :=
  let err := fresh "err" in let He := fresh "He" in
  eapply hoare_bind; [apply lem|]; intros err;
  apply hoare_pure; intros He;
  eapply hoare_bind; [apply (hoare_check err He)|]; intros ?; cbv beta.

Lemma hoare_NewBuffer_construct (P : Z) (size : Z) :
  hoare (untouched w0) (NewBuffer_construct P os size) (fun _ _ => True)
        (construct_panic w0).
Proof.
  unfold NewBuffer_construct.
  hstep hoare_new_Buffer.
  eapply hoare_bind; [apply hoare_Alloc|]. intros [mem err]. cbn [snd].
  apply hoare_pure. intros He.
  hassign.
  eapply hoare_bind; [apply (hoare_check err He)|]. intros ?; cbv beta.
  do 6 hslice.
  hstep hoare_deref. hcall hoare_Lock.
  hstep hoare_deref. hcall hoare_rand_Read.
  hstep hoare_deref. hstep hoare_Copy.
  hstep hoare_deref. hcall hoare_Protect.
  hstep hoare_deref. hcall hoare_Protect.
  eapply hoare_bind; [apply hoare_assign_any|]. intros ?; cbv beta.
  eapply hoare_bind; [apply hoare_assign_any|]. intros ?; cbv beta.
  intros w1 Hw1. done.
Qed.

End Untouched.

(** X12.  Whenever NewBuffer panics, it does so with the error of one of
    its system calls (Alloc, Lock, the random read or Protect), before the
    buffer is marked alive and before it is added to the registry: the
    registry and the alive flags are those before the call, and the handler
    is the last thing recorded. *)
Theorem NewBuffer_panics_before_registering (P : Z) (os : OS) (size : Z)
        (w w' : World) (v : PanicValue) :
  NewBuffer P os size w = Fatal v w' ->
  buffers w' = buffers w /\
  (forall b, alive_of w' b = alive_of w b) /\
  (exists e, v = PanicErr e /\
             (e = AllocFailed \/ e = LockFailed \/ e = RandFailed \/ e = ProtectFailed)) /\
  hd_error (trace w') = Some (EvHandler v).
Proof.
  intros H. unfold NewBuffer in H. destruct (size <? 1); [discriminate H|].
  pose proof (hoare_NewBuffer_construct os w P size w) as Hc.
  specialize (Hc ltac:(split; done)).
  unfold mbind, M_bind in H.
  destruct (NewBuffer_construct P os size w) as [b w1|v1 w1|w1];
    [discriminate H| |discriminate H].
  injection H as <- <-. destruct Hc as ([Hb Ha] & He & Ht). done.
Qed.

(** ** DestroyBuffer when the release is refused *)

Lemma memcall_Unlock_refused (os : OS) (s : Slice) (w : World) :
  os_accepts os (trace w) (SysUnlock s) = false ->
  memcall_Unlock os s w = Ret (Some UnlockFailed) (log (EvSys (SysUnlock s) false) w).
Proof. intros H. unfold memcall_Unlock, syscall, mbind, M_bind. now rewrite H. Qed.

Lemma memcall_Free_refused (os : OS) (s : Slice) (w : World) :
  os_accepts os (trace w) (SysFree s) = false ->
  memcall_Free os s w = Ret (Some FreeFailed) (log (EvSys (SysFree s) false) w).
Proof. intros H. unfold memcall_Free, syscall, mbind, M_bind. now rewrite H. Qed.

Lemma at_panic_keeps_zero (v : PanicValue) (w : World) (s : Slice) :
  load (heap w) s = Some (zeros (slice_len s)) ->
  load (heap (at_panic v w)) s = Some (zeros (slice_len s)).
Proof. intros H. unfold at_panic. cbn [log heap]. now apply wipe_all_keeps_zero. Qed.

(** X13.  DestroyBuffer on an alive buffer with an intact canary, when the
    operating system opens the region but then refuses Unlock, or accepts
    Unlock and refuses Free: the call panics with that error after the
    memory has been wiped and the buffer removed from the registry, and
    before the fields are reset, so the buffer is still marked alive and its
    region is still mapped, all zero. *)
Theorem DestroyBuffer_release_refused (os : OS) (b : BufPtr) (w : World)
        (r : Buffer) (x : list byte) :
  objs w !! b = Some r -> alive r = true ->
  load (heap w) (canaryval r) = Some x ->
  load (heap w) (canaryref r) = Some x ->
  is_Some (load (heap w) (memory r)) ->
  os_accepts os (trace w) (SysProtect (memory r) ReadWrite) = true ->
  let t1 := EvWipe (memory r) :: EvSys (SysProtect (memory r) ReadWrite) true :: trace w in
  let refused :=
    if os_accepts os t1 (SysUnlock (inner r)) then
      if os_accepts os (EvSys (SysUnlock (inner r)) true :: t1) (SysFree (memory r))
      then None else Some FreeFailed
    else Some UnlockFailed in
  forall e, refused = Some e ->
  exists w',
    DestroyBuffer os b w = Fatal (PanicErr e) w' /\
    load (heap w') (memory r) = Some (zeros (slice_len (memory r))) /\
    buffers w' = remove_first b (buffers w) /\
    objs w' = objs w /\ alive_of w' b = true /\
    dom (heap w') = dom (heap w).
Proof.
  intros Hb Hal Hv Hr Hm Hp t1 refused e He.
  destruct (loadable_store_zeros _ _ Hm) as [h Hst].
  assert (Hz := store_zeros_reads_zero _ _ _ Hst).
  assert (Hdom := store_dom _ _ _ _ Hst).
  subst refused.
  destruct (os_accepts os t1 (SysUnlock (inner r))) eqn:Hu.
  - destruct (os_accepts os (EvSys (SysUnlock (inner r)) true :: t1)
                         (SysFree (memory r))) eqn:Hf; [discriminate He|].
    injection He as <-.
    set (wp := mkWorld h (objs w) (remove_first b (buffers w))
                 (EvSys (SysFree (memory r)) false
                  :: EvSys (SysUnlock (inner r)) true :: t1)).
    exists (at_panic (PanicErr FreeFailed) wp).
    destruct (at_panic_frame (PanicErr FreeFailed) wp) as (Hb' & Ho' & Hd' & _).
    split; [|split; [|split; [exact Hb'|split; [exact Ho'|split]]]].
    + unfold DestroyBuffer.
      step ltac:(apply deref_intro, Hb).
      rewrite Hal. simpl_world.
      step ltac:(apply memcall_Protect_ok, Hp).
      step ltac:(apply check_None_intro).
      step ltac:(apply deref_intro, Hb).
      step ltac:(eapply crypto_Equal_intro; [apply Hv|apply Hr]).
      rewrite bool_decide_eq_true_2 by done. simpl_world.
      step ltac:(apply mret_intro).
      step ltac:(apply modify_world_intro).
      step ltac:(apply deref_intro, Hb).
      step ltac:(apply crypto_MemClr_intro, Hst).
      step ltac:(apply deref_intro, Hb).
      step ltac:(apply memcall_Unlock_ok, Hu).
      step ltac:(apply check_None_intro).
      step ltac:(apply deref_intro, Hb).
      step ltac:(apply memcall_Free_refused, Hf).
      erewrite bind_Fatal by apply check_Some_intro. reflexivity.
    + now apply at_panic_keeps_zero.
    + unfold alive_of. rewrite Ho'. cbn [objs wp]. now rewrite Hb.
    + rewrite Hd'. exact Hdom.
  - injection He as <-.
    set (wp := mkWorld h (objs w) (remove_first b (buffers w))
                 (EvSys (SysUnlock (inner r)) false :: t1)).
    exists (at_panic (PanicErr UnlockFailed) wp).
    destruct (at_panic_frame (PanicErr UnlockFailed) wp) as (Hb' & Ho' & Hd' & _).
    split; [|split; [|split; [exact Hb'|split; [exact Ho'|split]]]].
    + unfold DestroyBuffer.
      step ltac:(apply deref_intro, Hb).
      rewrite Hal. simpl_world.
      step ltac:(apply memcall_Protect_ok, Hp).
      step ltac:(apply check_None_intro).
      step ltac:(apply deref_intro, Hb).
      step ltac:(eapply crypto_Equal_intro; [apply Hv|apply Hr]).
      rewrite bool_decide_eq_true_2 by done. simpl_world.
      step ltac:(apply mret_intro).
      step ltac:(apply modify_world_intro).
      step ltac:(apply deref_intro, Hb).
      step ltac:(apply crypto_MemClr_intro, Hst).
      step ltac:(apply deref_intro, Hb).
      step ltac:(apply memcall_Unlock_refused, Hu).
      erewrite bind_Fatal by apply check_Some_intro. reflexivity.
    + now apply at_panic_keeps_zero.
    + unfold alive_of. rewrite Ho'. cbn [objs wp]. now rewrite Hb.
    + rewrite Hd'. exact Hdom.
Qed.

(** ** Writes between NewBuffer and DestroyBuffer *)

Lemma load_store_disjoint (h h' : gmap nat (list byte)) (s s2 : Span)
      (data x : list byte) :
  load h (Some s) = Some x ->
  store h (Some s2) data = Some h' ->
  sp_region s2 <> sp_region s \/
  sp_off s + sp_len s <= sp_off s2 \/
  sp_off s2 + Z.of_nat (length data) <= sp_off s ->
  load h' (Some s) = Some x.
Proof.
  intros Hx Hst Hdis.
  apply store_Some in Hst as (bs2 & Hbs2 & H0 & H1 & H2 & ->).
  apply load_Some in Hx as (bs & Hbs & Ha & Hb & Hc & ->).
  destruct (decide (sp_region s2 = sp_region s)) as [Heq|Hne].
  - rewrite Heq in *. assert (bs2 = bs) as -> by congruence.
    erewrite load_intro; [|apply lookup_insert_eq|try lia..].
    2:{ rewrite length_splice; lia. }
    f_equal. apply take_drop_splice_other; lia.
  - erewrite load_intro; [|rewrite lookup_insert_ne; eauto|lia..]. done.
Qed.

Lemma poke_cases (s : Slice) (data : list byte) (w : World) :
  (exists h, store (heap w) s data = Some h /\ poke s data w = set_heap h w) \/
  (store (heap w) s data = None /\ poke s data w = w).
Proof. unfold poke. destruct (store (heap w) s data); eauto. Qed.

(** X14.  After a successful NewBuffer, a write that stays inside Data
    changes neither canary: they still compare equal, and DestroyBuffer
    returns whenever the operating system accepts its three calls. *)
Theorem write_within_Data_then_Destroy (P : Z) (os : OS) (size : Z) (w w' : World)
        (b : BufPtr) (r : Buffer) (d s : Span) (data : list byte) :
  0 < P < 2 ^ 32 -> is_int size ->
  NewBuffer P os size w = Ret (Some b, None) w' ->
  objs w' !! b = Some r -> Data r = Some d ->
  sp_region s = sp_region d ->
  sp_off d <= sp_off s ->
  sp_off s + Z.of_nat (length data) <= sp_off d + sp_len d ->
  let w2 := poke (Some s) data w' in
  load (heap w2) (canaryval r) = load (heap w') (canaryval r) /\
  load (heap w2) (canaryref r) = load (heap w') (canaryref r) /\
  crypto_Equal (canaryval r) (canaryref r) w2 = Ret true w2 /\
  (os_grants os (trace w2) (destroy_events r) = true ->
   exists w3, DestroyBuffer os b w2 = Ret tt w3).
Proof.
  intros HP Hint H Hb Hd Hreg Hlo Hhi w2.
  apply NewBuffer_success in H
    as (Hsz & H32 & Hmax & [= ->] & bytes & rnd & -> & Hlen & Hrl & Href & Hval);
    [|done..].
  pose proof (roundUp_bounds (size + 32) P ltac:(lia)) as HL.
  cbn [heap objs] in *. rewrite lookup_insert_eq in Hb. injection Hb as <-.
  cbn [layout Data] in Hd. injection Hd as <-. cbn [sp_region sp_off sp_len] in *.
  set (L := roundUp (size + 32) P) in *.
  set (rid := fresh (dom (heap w))) in *.
  set (bid := fresh (dom (objs w))) in *.
  set (r := layout P L size rid) in *.
  set (w1 := mkWorld (<[rid := bytes]> (heap w)) (<[bid := r]> (objs w))
               (buffers w ++ [bid]) (construct_events P L rid ++ trace w)) in *.
  assert (Hkeep : load (heap w2) (canaryval r) = Some rnd /\
                  load (heap w2) (canaryref r) = Some rnd /\
                  is_Some (load (heap w2) (memory r)) /\
                  objs w2 = objs w1 /\ trace w2 = trace w1).
  { assert (Hmem : is_Some (load (heap w1) (memory r))).
    { cbn [w1 heap r layout memory]. erewrite load_intro;
        [eauto|apply lookup_insert_eq|cbn [sp_off sp_len]; lia..]. }
    subst w2. destruct (poke_cases (Some s) data w1) as [(h & Hst & ->)|(_ & ->)];
      [|done].
    cbn [set_heap heap objs trace]. repeat split.
    - eapply load_store_disjoint; [exact Hval|exact Hst|].
      cbn [canaryval r layout sp_region sp_off sp_len]. lia.
    - eapply load_store_disjoint; [exact Href|exact Hst|].
      cbn [canaryref r layout sp_region sp_off sp_len]. lia.
    - eapply store_preserves_loadable; eauto. }
  destruct Hkeep as (Hv2 & Hr2 & Hm2 & Ho2 & Ht2).
  change (heap w1) with (<[rid := bytes]> (heap w)).
  rewrite Hv2, Hr2, Hval, Href. split; [done|]. split; [done|]. split.
  - rewrite (crypto_Equal_intro _ _ _ _ _ Hv2 Hr2).
    now rewrite bool_decide_eq_true_2.
  - intros Hos. destruct (loadable_store_zeros _ _ Hm2) as [h Hst].
    eexists.
    apply (DestroyBuffer_completes os bid w2 r rnd h);
      [|reflexivity|exact Hv2|exact Hr2|exact Hst|exact Hos].
    rewrite Ho2. cbn [w1 objs]. apply lookup_insert_eq.
Qed.

(** X15.  After a successful NewBuffer, any write inside the inner region
    that changes a byte of the canary in front of Data is detected: once
    Protect has opened the region, DestroyBuffer panics with the canary
    message, the buffer still alive and still registered. *)
Theorem write_changing_canary_is_caught (P : Z) (os : OS) (size : Z) (w w' : World)
        (b : BufPtr) (r : Buffer) (si s : Span) (data : list byte) :
  0 < P < 2 ^ 32 -> is_int size ->
  NewBuffer P os size w = Ret (Some b, None) w' ->
  objs w' !! b = Some r -> inner r = Some si ->
  sp_region s = sp_region si ->
  sp_off si <= sp_off s ->
  sp_off s + Z.of_nat (length data) <= sp_off si + sp_len si ->
  let w2 := poke (Some s) data w' in
  load (heap w2) (canaryval r) <> load (heap w') (canaryval r) ->
  os_accepts os (trace w2) (SysProtect (memory r) ReadWrite) = true ->
  exists w3, DestroyBuffer os b w2 = Fatal (PanicMsg canary_message) w3 /\
             alive_of w3 b = true /\ buffers w3 = buffers w'.
Proof.
  intros HP Hint H Hb Hi Hreg Hlo Hhi w2 Hchg Hp.
  apply NewBuffer_success in H
    as (Hsz & H32 & Hmax & [= ->] & bytes & rnd & -> & Hlen & Hrl & Href & Hval);
    [|done..].
  pose proof (roundUp_bounds (size + 32) P ltac:(lia)) as HL.
  cbn [heap objs] in *. rewrite lookup_insert_eq in Hb. injection Hb as <-.
  cbn [layout inner] in Hi. injection Hi as <-. cbn [sp_region sp_off sp_len] in *.
  set (L := roundUp (size + 32) P) in *.
  set (rid := fresh (dom (heap w))) in *.
  set (bid := fresh (dom (objs w))) in *.
  set (r := layout P L size rid) in *.
  set (w1 := mkWorld (<[rid := bytes]> (heap w)) (<[bid := r]> (objs w))
               (buffers w ++ [bid]) (construct_events P L rid ++ trace w)) in *.
  change (<[rid := bytes]> (heap w)) with (heap w1) in Href, Hval, Hchg.
  destruct (poke_cases (Some s) data w1) as [(h & Hst & Hw2)|(_ & Hw2)];
    fold w2 in Hw2; [|rewrite Hw2 in Hchg; done].
  assert (Hr2 : load (heap w2) (canaryref r) = Some rnd).
  { rewrite Hw2. cbn [set_heap heap].
    eapply load_store_disjoint; [exact Href|exact Hst|].
    cbn [canaryref r layout sp_region sp_off sp_len]. lia. }
  assert (Hv2 : is_Some (load (heap w2) (canaryval r))).
  { rewrite Hw2. cbn [set_heap heap].
    eapply store_preserves_loadable; [|exact Hst]. rewrite Hval. eauto. }
  destruct Hv2 as [x Hv2].
  assert (Hne : x <> rnd).
  { intros ->. apply Hchg. now rewrite Hv2, Hval. }
  assert (Hb2 : objs w2 !! bid = Some r).
  { rewrite Hw2. cbn [set_heap objs w1]. apply lookup_insert_eq. }
  rewrite (DestroyBuffer_mismatch os bid w2 r x rnd Hb2 eq_refl Hp Hv2 Hr2 Hne).
  eexists. split; [reflexivity|].
  set (wp := log _ w2).
  destruct (at_panic_frame (PanicMsg canary_message) wp) as (Hbf & Hof & _).
  split.
  - unfold alive_of. rewrite Hof. cbn [wp log objs]. now rewrite Hb2.
  - rewrite Hbf. cbn [wp log buffers]. now rewrite Hw2.
Qed.

(** ** The registry as a slice, over sequences of calls *)

Section BackingMore.

Import Backing.

Variable grow : nat -> nat -> nat.

Lemma registry_call_Ret (c : Call) (w : World) :
  registry_call c w
  = Ret tt (set_buffers (match c with
                         | CallAdd b => buffers w ++ [b]
                         | CallRemove b => remove_first b (buffers w)
                         | CallEmpty => []
                         end) w).
Proof. destruct c; reflexivity. Qed.

Lemma run_refines (c : Call) (st : State) (l : list BufPtr) :
  wf st -> contents st = Some <$> l ->
  wf (run grow c st) /\
  contents (run grow c st)
    = Some <$> match c with
               | CallAdd b => l ++ [b]
               | CallRemove b => remove_first b l
               | CallEmpty => []
               end.
Proof.
  intros Hwf Hl. destruct c as [b|b|]; cbn [run].
  - destruct (Add_contents grow b st Hwf) as [-> Hwf']. split; [done|].
    now rewrite Hl, fmap_app.
  - destruct (Remove_contents grow b st l Hwf Hl) as [-> Hwf']. done.
  - destruct (Empty_contents st Hwf) as (_ & -> & Hwf'). done.
Qed.

(** X16.  For every sequence of Add, Remove and Empty, the registry as a Go
    slice over backing arrays (append in place or into a new array,
    whatever capacity the run time picks) shows the same buffers as the
    registry as a list: the elements agree after the sequence, Exists gives
    the same answer, and Empty returns the same buffers. *)
Theorem registry_slices_refine_list (cs : list Call) (st : State) (w : World)
        (b : BufPtr) :
  wf st -> contents st = Some <$> buffers w ->
  exists w',
    registry_calls cs w = Ret tt w' /\
    wf (foldl (fun s c => run grow c s) st cs) /\
    contents (foldl (fun s c => run grow c s) st cs) = Some <$> buffers w' /\
    Exists b (foldl (fun s c => run grow c s) st cs) = exists_in b (buffers w') /\
    read (snd (Empty (foldl (fun s c => run grow c s) st cs)))
         (fst (Empty (foldl (fun s c => run grow c s) st cs)))
      = Some <$> buffers w'.
Proof.
  revert st w. induction cs as [|c cs IH]; intros st w Hwf Hl.
  - exists w. cbn [foldl registry_calls]. split; [done|]. split; [done|].
    split; [done|]. split; [now apply Exists_contents|].
    destruct (Empty_contents st Hwf) as (-> & _). done.
  - destruct (run_refines c st (buffers w) Hwf Hl) as [Hwf' Hl'].
    cbn [foldl registry_calls].
    rewrite (bind_Ret_intro _ _ _ _ _ (registry_call_Ret c w)).
    apply IH; [done|]. now rewrite Hl'.
Qed.

(** X17.  Remove of a buffer that is in the registry allocates nothing: the
    result is a slice of the same backing array, with the same offset and
    capacity and one element less; the array keeps its length, and the slot
    just past the new end still holds what it held, the former last
    element. *)
Theorem Remove_in_place (b : BufPtr) (st : State) (hd : Header) (a : list Elem)
        (i : nat) :
  l_list st = Some hd -> arrays st !! h_arr hd = Some a ->
  (h_len hd <= h_cap hd)%nat -> (h_off hd + h_cap hd <= length a)%nat ->
  find_index (Some b) (read st (Some hd)) = Some i ->
  exists a',
    l_list (Remove grow b st)
      = Some (mkHeader (h_arr hd) (h_off hd) (h_len hd - 1) (h_cap hd)) /\
    arrays (Remove grow b st) = <[h_arr hd := a']> (arrays st) /\
    length a' = length a /\
    a' !! (h_off hd + h_len hd - 1)%nat = a !! (h_off hd + h_len hd - 1)%nat /\
    dom (arrays (Remove grow b st)) = dom (arrays st).
Proof.
  intros Hhd Ha Hlen Hcap Hfi.
  assert (Hi := find_index_bound _ _ _ Hfi).
  rewrite (read_length st hd a Ha) in Hi by lia.
  unfold Remove. rewrite Hhd, Hfi.
  assert (Hvl : length (read st (Some (suffix hd (i + 1)))) = (h_len hd - (i + 1))%nat).
  { rewrite (read_length st (suffix hd (i + 1)) a); cbn [suffix h_arr h_off h_len];
      [done..|lia]. }
  set (vs := read st (Some (suffix hd (i + 1)))) in *.
  unfold append. destruct vs as [|v vs'] eqn:Hvs.
  - exists a. cbn [set_list l_list arrays prefix] in *.
    split; [unfold prefix; do 2 f_equal; cbn in Hvl; lia|].
    split; [now rewrite insert_id|]. split; [done|]. split; [done|done].
  - rewrite <- Hvs in *. clearbody vs. cbn [prefix h_arr h_off h_len h_cap].
    destruct (_ <=? _)%nat eqn:Hfit; [|apply Nat.leb_gt in Hfit; lia].
    rewrite Ha. cbn [set_list l_list arrays].
    exists (splice a (h_off hd + i) vs).
    split; [do 2 f_equal; cbn in Hvl; lia|]. split; [done|].
    split; [apply length_splice; lia|]. split.
    + rewrite lookup_splice by lia. case_decide; [lia|done].
    + apply dom_insert_lookup_L. eauto.
Qed.

End BackingMore.

(** ** Freeze, Melt and DestroyBuffer at a panic *)

Lemma bind_Fatal_inv {A B : Type} (m : M A) (f : A -> M B) (w w' : World) v :
  (m ≫= f) w = Fatal v w' ->
  m w = Fatal v w' \/ exists a w1, m w = Ret a w1 /\ f a w1 = Fatal v w'.
Proof.
  unfold mbind, M_bind. destruct (m w) as [a w1|v1 w1|w1]; intros H.
  - right. exists a, w1. split; [reflexivity|exact H].
  - left. now injection H as -> ->.
  - discriminate H.
Qed.

(** X18.  Freeze and Melt panic only when the operating system refuses the
    protection change of an alive buffer that is not yet in the requested
    mode; the panic value is that error, and at the panic every record (the
    mutable flag included) and the registry are as before the call. *)
Theorem Freeze_Melt_panic (os : OS) (b : BufPtr) (w w' : World) (v : PanicValue) :
  Freeze os b w = Fatal v w' \/ Melt os b w = Fatal v w' ->
  v = PanicErr ProtectFailed /\
  objs w' = objs w /\ buffers w' = buffers w /\ dom (heap w') = dom (heap w) /\
  hd_error (trace w') = Some (EvHandler v) /\
  exists r,
    objs w !! b = Some r /\ alive r = true /\
    os_accepts os (trace w)
      (SysProtect (inner r) (if mutable r then ReadOnly else ReadWrite)) = false.
Proof.
  intros H.
  destruct (objs w !! b) as [r|] eqn:Hb.
  2:{ destruct H as [H|H]; [unfold Freeze in H|unfold Melt in H];
        erewrite bind_Crash in H by apply deref_dangling, Hb; discriminate H. }
  destruct (alive r) eqn:Hal.
  2:{ destruct H as [H|H];
        [rewrite (Freeze_destroyed _ _ _ _ Hb Hal) in H
        |rewrite (Melt_destroyed _ _ _ _ Hb Hal) in H]; discriminate H. }
  assert (Hend : forall c,
            @Fatal (option Error) (PanicErr ProtectFailed)
                  (at_panic (PanicErr ProtectFailed) (log (EvSys c false) w))
            = Fatal v w' ->
            v = PanicErr ProtectFailed /\
            objs w' = objs w /\ buffers w' = buffers w /\
            dom (heap w') = dom (heap w) /\
            hd_error (trace w') = Some (EvHandler v)).
  { intros c [= <- <-].
    destruct (at_panic_frame (PanicErr ProtectFailed) (log (EvSys c false) w))
      as (Hbs & Ho & Hd & Ht). done. }
  destruct (mutable r) eqn:Hm; destruct H as [H|H].
  - destruct (os_accepts os (trace w) (SysProtect (inner r) ReadOnly)) eqn:Hp.
    { rewrite (Freeze_mutable _ _ _ _ Hb Hal Hm Hp) in H. discriminate H. }
    rewrite (Freeze_refused _ _ _ _ Hb Hal Hm Hp) in H.
    apply Hend in H as (? & ? & ? & ? & ?).
    repeat (split; [done|]). exists r. now rewrite Hal, Hm.
  - rewrite (Melt_molten _ _ _ _ Hb Hal Hm) in H. discriminate H.
  - rewrite (Freeze_frozen _ _ _ _ Hb Hal Hm) in H. discriminate H.
  - destruct (os_accepts os (trace w) (SysProtect (inner r) ReadWrite)) eqn:Hp.
    { rewrite (Melt_frozen _ _ _ _ Hb Hal Hm Hp) in H. discriminate H. }
    rewrite (Melt_refused _ _ _ _ Hb Hal Hm Hp) in H.
    apply Hend in H as (? & ? & ? & ? & ?).
    repeat (split; [done|]). exists r. now rewrite Hal, Hm.
Qed.

(** X19.  Whenever DestroyBuffer panics, the buffer was alive and is still
    marked alive, no record has changed and no region has been unmapped.
    The panic is the refused Protect or the canary message, with the
    registry untouched, or the refused Unlock or Free, with the buffer
    already removed from the registry. *)
Theorem DestroyBuffer_panic_keeps_alive (os : OS) (b : BufPtr) (w w' : World)
        (v : PanicValue) :
  DestroyBuffer os b w = Fatal v w' ->
  alive_of w b = true /\ alive_of w' b = true /\ objs w' = objs w /\
  dom (heap w') = dom (heap w) /\
  hd_error (trace w') = Some (EvHandler v) /\
  ((v = PanicErr ProtectFailed \/ v = PanicMsg canary_message) /\
   buffers w' = buffers w \/
   (v = PanicErr UnlockFailed \/ v = PanicErr FreeFailed) /\
   buffers w' = remove_first b (buffers w)).
Proof.
  intros H.
  destruct (objs w !! b) as [r|] eqn:Hb.
  2:{ unfold DestroyBuffer in H.
      erewrite bind_Crash in H by apply deref_dangling, Hb. discriminate H. }
  destruct (alive r) eqn:Hal.
  2:{ rewrite (DestroyBuffer_destroyed _ _ _ _ Hb Hal) in H. discriminate H. }
  assert (Hw : alive_of w b = true) by (unfold alive_of; now rewrite Hb).
  assert (Hend : forall v0 w0,
            objs w0 = objs w -> dom (heap w0) = dom (heap w) ->
            @Fatal unit v0 (at_panic v0 w0) = Fatal v w' ->
            v0 = v /\ alive_of w' b = true /\ objs w' = objs w /\
            dom (heap w') = dom (heap w) /\
            hd_error (trace w') = Some (EvHandler v) /\
            buffers w' = buffers w0).
  { intros v0 w0 Ho Hd [= <- <-].
    destruct (at_panic_frame v0 w0) as (Hbs & Ho' & Hd' & Ht).
    split; [done|]. split; [unfold alive_of; now rewrite Ho', Ho, Hb|].
    split; [congruence|]. split; [congruence|]. done. }
  destruct (os_accepts os (trace w) (SysProtect (memory r) ReadWrite)) eqn:Hp.
  2:{ rewrite (DestroyBuffer_protect_refused _ _ _ _ Hb Hal Hp) in H.
      apply Hend in H as (<- & ? & ? & ? & ? & ?); [|done..].
      repeat (split; [done|]). left. split; [now left|done]. }
  unfold DestroyBuffer in H.
  rewrite (bind_Ret_intro _ _ _ _ _ (deref_intro _ _ _ Hb)) in H.
  rewrite Hal in H. cbn [negb] in H.
  rewrite (bind_Ret_intro _ _ _ _ _ (memcall_Protect_ok _ _ _ _ Hp)) in H.
  rewrite (bind_Ret_intro _ _ _ _ _ (check_None_intro _)) in H.
  erewrite bind_Ret_intro in H by (apply deref_intro; simpl_world; exact Hb).
  apply bind_Fatal_inv in H as [H|(same & w1 & Hs & H)].
  { unfold crypto_Equal, read_bytes, mbind, M_bind, mret, M_ret in H.
    repeat (destruct (load _ _) in H; try discriminate H). }
  apply crypto_Equal_Ret in Hs as (x & y & Hx & Hy & -> & ->).
  simpl_world. cbn [heap log] in Hx, Hy.
  destruct (bool_decide (x = y)) eqn:Hxy; cbn [negb] in H.
  2:{ erewrite bind_Fatal in H by apply Panic_intro.
      apply Hend in H as (<- & ? & ? & ? & ? & ?); [|done..].
      repeat (split; [done|]). left. split; [now right|done]. }
  rewrite (bind_Ret_intro _ _ _ _ _ (mret_intro _ _)) in H.
  erewrite bind_Ret_intro in H by apply modify_world_intro.
  cbn [heap objs buffers trace log set_heap set_objs set_buffers] in H.
  erewrite bind_Ret_intro in H by (apply deref_intro; simpl_world; exact Hb).
  apply bind_Fatal_inv in H as [H|(u & w1 & Hs & H)].
  { unfold crypto_MemClr, write_bytes, modify_world, mbind, M_bind in H.
    destruct (store _ _ _) in H; discriminate H. }
  apply crypto_MemClr_Ret in Hs as (h & Hst & ->).
  cbn [heap log set_buffers] in Hst.
  assert (Hdom := store_dom _ _ _ _ Hst).
  erewrite bind_Ret_intro in H by (apply deref_intro; simpl_world; exact Hb).
  apply bind_Fatal_inv in H as [H|(err & w1 & Hs & H)]; [discriminate H|].
  apply memcall_Unlock_Ret in Hs as [-> ->].
  destruct (os_accepts os _ (SysUnlock (inner r))) eqn:Hu.
  2:{ erewrite bind_Fatal in H by apply check_Some_intro.
      apply Hend in H as (<- & ? & ? & ? & ? & ?); [|done..].
      repeat (split; [done|]). right. split; [now left|done]. }
  rewrite (bind_Ret_intro _ _ _ _ _ (check_None_intro _)) in H.
  erewrite bind_Ret_intro in H by (apply deref_intro; simpl_world; exact Hb).
  destruct (os_accepts os (EvSys (SysUnlock (inner r)) true :: EvWipe (memory r)
                           :: EvSys (SysProtect (memory r) ReadWrite) true :: trace w)
                        (SysFree (memory r))) eqn:Hf.
  - erewrite bind_Ret_intro in H by (apply memcall_Free_ok; exact Hf).
    rewrite (bind_Ret_intro _ _ _ _ _ (check_None_intro _)) in H.
    exfalso. unfold assign, deref, modify_world, mbind, M_bind in H.
    repeat (destruct (_ !! _) in H; try discriminate H).
  - erewrite bind_Ret_intro in H by (apply memcall_Free_refused; exact Hf).
    erewrite bind_Fatal in H by apply check_Some_intro.
    apply Hend in H as (<- & ? & ? & ? & ? & ?); [|done..].
    repeat (split; [done|]). right. split; [now right|done].
Qed.

(** * Further properties on the concrete machine *)

Lemma Freeze_Melt_round_trip_witness :
  exists w1 w2,
    Freeze os_willing 0%nat world_one = Ret None w1 /\
    Melt os_willing 0%nat w1 = Ret None w2 /\
    heap w2 = heap world_one /\ objs w2 = objs world_one /\
    buffers w2 = buffers world_one /\
    trace w2 = [EvSys (SysProtect (inner (layout 4096 4096 8 0)) ReadWrite) true;
                EvSys (SysProtect (inner (layout 4096 4096 8 0)) ReadOnly) true]
               ++ trace world_one.
Proof.
  apply (proj1 (Freeze_Melt_round_trip os_willing 0%nat world_one
                  (layout 4096 4096 8 0)
                  ltac:(vm_compute; reflexivity) ltac:(reflexivity))).
  - reflexivity.
  - reflexivity.
Defined.

Lemma Freeze_Melt_frame_witness :
  heap world_frozen = heap world_one /\ buffers world_frozen = buffers world_one /\
  (forall b', b' <> 0%nat -> objs world_frozen !! b' = objs world_one !! b') /\
  (exists r r', objs world_one !! 0%nat = Some r /\
                objs world_frozen !! 0%nat = Some r' /\
                r' = set_mutable (mutable r') r) /\
  (exists evs, trace world_frozen = evs ++ trace world_one /\ (length evs <= 1)%nat /\
               (@None Error <> None -> evs = [])).
Proof.
  apply (Freeze_Melt_frame os_willing 0%nat world_one world_frozen None).
  left. vm_compute. reflexivity.
Defined.

Lemma destroyed_is_terminal_witness :
  objs world_later !! 0%nat = Some (destroyed (layout 4096 4096 8 0)) /\
  Freeze os_willing 0%nat world_later = Ret (Some ErrDestroyed) world_later /\
  Melt os_willing 0%nat world_later = Ret (Some ErrDestroyed) world_later /\
  DestroyBuffer os_willing 0%nat world_later = Ret tt world_later.
Proof.
  apply (destroyed_is_terminal 4096 os_willing ops_later world_destroyed world_later
           0%nat (destroyed (layout 4096 4096 8 0))).
  - vm_compute. reflexivity.
  - reflexivity.
  - vm_compute. reflexivity.
Defined.

Lemma DestroyBuffer_frame_witness :
  heap world_destroyed = delete (sp_region (mkSpan 0 0 12288)) (heap world_one) /\
  (forall rid, rid <> sp_region (mkSpan 0 0 12288) ->
               heap world_destroyed !! rid = heap world_one !! rid) /\
  heap world_destroyed !! sp_region (mkSpan 0 0 12288) = None /\
  (forall b', b' <> 0%nat -> objs world_destroyed !! b' = objs world_one !! b') /\
  (forall b', b' <> 0%nat ->
              exists_in b' (buffers world_destroyed) = exists_in b' (buffers world_one)).
Proof.
  apply (DestroyBuffer_frame os_willing 0%nat world_one world_destroyed
           (layout 4096 4096 8 0) (mkSpan 0 0 12288) tt).
  - vm_compute. reflexivity.
  - reflexivity.
  - reflexivity.
  - vm_compute. reflexivity.
Defined.

Lemma Empty_then_destroy_each_witness :
  buffers world_drained = [] /\ (forall b, alive_of world_drained b = false) /\
  registry_ok world_drained.
Proof.
  apply (Empty_then_destroy_each 4096 os_willing world_two world_drained).
  - apply (reach_NewBuffer 4096 os_willing world_one 8 (Some 1%nat, None)).
    + apply (reach_NewBuffer 4096 os_willing init_World 8 (Some 0%nat, None)).
      * apply reach_init.
      * vm_compute. reflexivity.
    + vm_compute. reflexivity.
  - vm_compute. reflexivity.
Defined.

Lemma NewBuffer_frame_witness :
  exists b r sp,
    Some 1%nat = Some b /\ objs world_one !! b = None /\ objs world_two !! b = Some r /\
    memory r = Some sp /\ heap world_one !! sp_region sp = None /\
    (forall rid, rid <> sp_region sp -> heap world_two !! rid = heap world_one !! rid) /\
    (forall b', b' <> b -> objs world_two !! b' = objs world_one !! b') /\
    buffers world_two = buffers world_one ++ [b].
Proof.
  apply (NewBuffer_frame 4096 os_willing 8 world_one world_two (Some 1%nat)).
  - lia.
  - unfold is_int, int_min, int_max. lia.
  - vm_compute. reflexivity.
Defined.

Lemma NewBuffer_calls_in_order_witness :
  exists b r,
    Some 0%nat = Some b /\ objs world_one !! b = Some r /\
    trace world_one =
      [ EvSys (SysProtect (postguard r) NoAccess) true;
        EvSys (SysProtect (preguard r) NoAccess) true;
        EvSys (SysRand (slice_len (canaryref r))) true;
        EvSys (SysLock (inner r)) true;
        EvSys (SysAlloc (slice_len (memory r))) true ] ++ trace init_World.
Proof.
  apply (NewBuffer_calls_in_order 4096 os_willing 8 init_World world_one (Some 0%nat)).
  - lia.
  - unfold is_int, int_min, int_max. lia.
  - vm_compute. reflexivity.
Defined.

Lemma NewBuffer_too_large_witness :
  exists w',
    NewBuffer 4096 os_willing int_max world_one = Fatal (PanicErr AllocFailed) w' /\
    buffers w' = buffers world_one /\ dom (heap w') = dom (heap world_one) /\
    (forall b, alive_of w' b = alive_of world_one b).
Proof.
  apply (NewBuffer_too_large 4096 os_willing int_max world_one).
  - lia.
  - unfold is_int, int_min, int_max. lia.
  - unfold int_max. lia.
Defined.

Lemma NewBuffer_panics_before_registering_witness :
  buffers world_lock_refused = buffers world_two /\
  (forall b, alive_of world_lock_refused b = alive_of world_two b) /\
  (exists e, PanicErr LockFailed = PanicErr e /\
             (e = AllocFailed \/ e = LockFailed \/ e = RandFailed \/ e = ProtectFailed)) /\
  hd_error (trace world_lock_refused) = Some (EvHandler (PanicErr LockFailed)).
Proof.
  apply (NewBuffer_panics_before_registering 4096 os_no_lock 8 world_two
           world_lock_refused (PanicErr LockFailed)).
  vm_compute. reflexivity.
Defined.

Lemma DestroyBuffer_release_refused_witness :
  exists w',
    DestroyBuffer os_no_free 0%nat world_one = Fatal (PanicErr FreeFailed) w' /\
    load (heap w') (memory (layout 4096 4096 8 0))
      = Some (zeros (slice_len (memory (layout 4096 4096 8 0)))) /\
    buffers w' = remove_first 0%nat (buffers world_one) /\
    objs w' = objs world_one /\ alive_of w' 0%nat = true /\
    dom (heap w') = dom (heap world_one).
Proof.
  apply (DestroyBuffer_release_refused os_no_free 0%nat world_one
           (layout 4096 4096 8 0) canary_pattern).
  - vm_compute. reflexivity.
  - reflexivity.
  - vm_compute. reflexivity.
  - vm_compute. reflexivity.
  - eexists. vm_compute. reflexivity.
  - reflexivity.
  - reflexivity.
Defined.

Lemma write_within_Data_then_Destroy_witness :
  load (heap world_written) (canaryval (layout 4096 4096 8 0))
    = load (heap world_one) (canaryval (layout 4096 4096 8 0)) /\
  load (heap world_written) (canaryref (layout 4096 4096 8 0))
    = load (heap world_one) (canaryref (layout 4096 4096 8 0)) /\
  crypto_Equal (canaryval (layout 4096 4096 8 0)) (canaryref (layout 4096 4096 8 0))
               world_written = Ret true world_written /\
  (os_grants os_willing (trace world_written) (destroy_events (layout 4096 4096 8 0)) = true ->
   exists w3, DestroyBuffer os_willing 0%nat world_written = Ret tt w3).
Proof.
  apply (write_within_Data_then_Destroy 4096 os_willing 8 init_World world_one 0%nat
           (layout 4096 4096 8 0) (mkSpan 0 8184 8) (mkSpan 0 8186 4)
           [x41; x42; x43; x44]).
  - lia.
  - unfold is_int, int_min, int_max. lia.
  - vm_compute. reflexivity.
  - vm_compute. reflexivity.
  - reflexivity.
  - reflexivity.
  - simpl. lia.
  - simpl. lia.
Defined.

Lemma write_changing_canary_is_caught_witness :
  exists w3,
    DestroyBuffer os_willing 0%nat world_underflow = Fatal (PanicMsg canary_message) w3 /\
    alive_of w3 0%nat = true /\ buffers w3 = buffers world_one.
Proof.
  apply (write_changing_canary_is_caught 4096 os_willing 8 init_World world_one 0%nat
           (layout 4096 4096 8 0) (mkSpan 0 4096 4096) (mkSpan 0 8176 8)
           (replicate 8 xff)).
  - lia.
  - unfold is_int, int_min, int_max. lia.
  - vm_compute. reflexivity.
  - vm_compute. reflexivity.
  - reflexivity.
  - reflexivity.
  - simpl. lia.
  - simpl. lia.
  - intros H. vm_compute in H. discriminate H.
  - reflexivity.
Defined.

Lemma registry_slices_refine_list_witness :
  exists w',
    registry_calls calls_five init_World = Ret tt w' /\
    Backing.wf slices_five /\
    Backing.contents slices_five = Some <$> buffers w' /\
    Backing.Exists 3%nat slices_five = exists_in 3%nat (buffers w') /\
    Backing.read (snd (Backing.Empty slices_five)) (fst (Backing.Empty slices_five))
      = Some <$> buffers w'.
Proof.
  apply (registry_slices_refine_list grow_exact calls_five (Backing.mkState ∅ None)
           init_World 3%nat).
  - exact I.
  - reflexivity.
Defined.

Lemma Remove_in_place_witness :
  exists a',
    Backing.l_list (Backing.Remove grow_exact 5%nat slices_three)
      = Some (Backing.mkHeader (Backing.h_arr (Backing.mkHeader 0 0 3 4))
                               (Backing.h_off (Backing.mkHeader 0 0 3 4))
                               (Backing.h_len (Backing.mkHeader 0 0 3 4) - 1)
                               (Backing.h_cap (Backing.mkHeader 0 0 3 4))) /\
    Backing.arrays (Backing.Remove grow_exact 5%nat slices_three)
      = <[Backing.h_arr (Backing.mkHeader 0 0 3 4) := a']> (Backing.arrays slices_three) /\
    length a' = length [Some 5%nat; Some 6%nat; Some 7%nat; None] /\
    a' !! (Backing.h_off (Backing.mkHeader 0 0 3 4)
           + Backing.h_len (Backing.mkHeader 0 0 3 4) - 1)%nat
      = [Some 5%nat; Some 6%nat; Some 7%nat; None]
          !! (Backing.h_off (Backing.mkHeader 0 0 3 4)
              + Backing.h_len (Backing.mkHeader 0 0 3 4) - 1)%nat /\
    dom (Backing.arrays (Backing.Remove grow_exact 5%nat slices_three))
      = dom (Backing.arrays slices_three).
Proof.
  apply (Remove_in_place grow_exact 5%nat slices_three (Backing.mkHeader 0 0 3 4)
           [Some 5%nat; Some 6%nat; Some 7%nat; None] 0%nat).
  - reflexivity.
  - vm_compute. reflexivity.
  - simpl. lia.
  - simpl. lia.
  - vm_compute. reflexivity.
Defined.

Lemma Freeze_Melt_panic_witness :
  PanicErr ProtectFailed = PanicErr ProtectFailed /\
  objs world_melt_refused = objs world_frozen /\
  buffers world_melt_refused = buffers world_frozen /\
  dom (heap world_melt_refused) = dom (heap world_frozen) /\
  hd_error (trace world_melt_refused) = Some (EvHandler (PanicErr ProtectFailed)) /\
  exists r,
    objs world_frozen !! 0%nat = Some r /\ alive r = true /\
    os_accepts os_no_protect (trace world_frozen)
      (SysProtect (inner r) (if mutable r then ReadOnly else ReadWrite)) = false.
Proof.
  apply (Freeze_Melt_panic os_no_protect 0%nat world_frozen world_melt_refused
           (PanicErr ProtectFailed)).
  right. vm_compute. reflexivity.
Defined.

Lemma DestroyBuffer_panic_keeps_alive_witness :
  alive_of world_one 0%nat = true /\ alive_of world_free_refused 0%nat = true /\
  objs world_free_refused = objs world_one /\
  dom (heap world_free_refused) = dom (heap world_one) /\
  hd_error (trace world_free_refused) = Some (EvHandler (PanicErr FreeFailed)) /\
  ((PanicErr FreeFailed = PanicErr ProtectFailed \/
    PanicErr FreeFailed = PanicMsg canary_message) /\
   buffers world_free_refused = buffers world_one \/
   (PanicErr FreeFailed = PanicErr UnlockFailed \/
    PanicErr FreeFailed = PanicErr FreeFailed) /\
   buffers world_free_refused = remove_first 0%nat (buffers world_one)).
Proof.
  apply (DestroyBuffer_panic_keeps_alive os_no_free 0%nat world_one world_free_refused
           (PanicErr FreeFailed)).
  vm_compute. reflexivity.
Defined.
